(** * The StatefulSet node handle of the Elasticsearch operator

    A shallow embedding of the file of package [k8shandler] that defines
    [statefulSetNode]: the partition and replica accessors, the membership
    waits, change detection and the three phase-driven entry points
    [rollingRestart], [fullClusterRestart] and [update].  Line numbers in
    the comments refer to that file.

    Conventions of the embedding.
    - [int32] values are integers in [Z].  The only arithmetic the file
      performs is [index - 1] under the loop guard [index > 0], which
      cannot wrap around.
    - A Go pointer field ([*int32]) is an [option]; dereferencing [nil]
      is the outcome [Panic].
    - A Go [error] is an [option err], [None] standing for [nil].
    - The API server, the Elasticsearch cluster and the pod controller
      are the [World]: a store of objects plus an environment [Env] of
      scripted answers, indexed by the number of external calls made so
      far.  Quantifying over the environment covers every behaviour of
      the collaborators, including injected failures.
    - Logging calls have no effect on the outcome and are left out. *)

From stdpp Require Import base gmap strings list pretty.
From Stdlib Require Import ZArith Lia.

Local Open Scope string_scope.
Local Open Scope Z_scope.

(** ** Integers *)

(** The value an [int32] holds after an operation whose mathematical
    result is [z]. *)
Definition wrap32 (z : Z) : Z := (z + 2 ^ 31) `mod` 2 ^ 32 - 2 ^ 31.

(** ** Errors *)

(** [fmt.Errorf] is kept symbolic: the format string and its arguments. *)
(** The reasons of an API status error the handle tells apart. *)
Inductive StatusReason :=
| NotFound
| AlreadyExists
| Conflict
| InternalError.

(** [ErrStatus] is an [*errors.StatusError] of the object API,
    [ErrWaitTimeout] the sentinel [wait.ErrWaitTimeout], [ErrCluster] an
    error of the Elasticsearch client or of the pod controller.
    [fmt.Errorf] is kept symbolic: the format string and its arguments. *)
Inductive err : Type :=
| ErrStatus (reason : StatusReason) (msg : string)
| ErrWaitTimeout
| ErrCluster (msg : string)
| Errorf (format : string) (args : list arg)
with arg : Type :=
| VStr (s : string)
| VInt (n : Z)
| VErr (e : err).

Definition error : Type := option err.

Definition IsNotFound (e : err) : bool :=
  match e with ErrStatus NotFound _ => true | _ => false end.
Definition IsAlreadyExists (e : err) : bool :=
  match e with ErrStatus AlreadyExists _ => true | _ => false end.
Definition IsConflict (e : err) : bool :=
  match e with ErrStatus Conflict _ => true | _ => false end.

(** ** Objects *)

Record Container := {
  containerName : string;
  image : string;
  envVars : list (string * string)
}.

Record PodTemplateSpec := {
  templateLabels : list (string * string);
  containers : list Container
}.

Global Instance Container_eq_dec : EqDecision Container.
Proof. solve_decision. Defined.
Global Instance PodTemplateSpec_eq_dec : EqDecision PodTemplateSpec.
Proof. solve_decision. Defined.

(** The zero value [v1.PodTemplateSpec{}]. *)
Definition emptyTemplate : PodTemplateSpec :=
  {| templateLabels := []; containers := [] |}.

(** The fields of [apps.StatefulSet] the handle reads or writes.
    [Partition] is [Spec.UpdateStrategy.RollingUpdate.Partition]; it is
    [None] when either pointer on that path is [nil]. *)
Record StatefulSet := {
  Name : string;
  Namespace : string;
  ResourceVersion : string;
  Replicas : option Z;
  Template : PodTemplateSpec;
  Partition : option Z;
  StatusReplicas : Z
}.

Definition withResourceVersion (rv : string) (o : StatefulSet) : StatefulSet :=
  {| Name := Name o; Namespace := Namespace o; ResourceVersion := rv;
     Replicas := Replicas o; Template := Template o;
     Partition := Partition o; StatusReplicas := StatusReplicas o |}.
Definition withReplicas (r : option Z) (o : StatefulSet) : StatefulSet :=
  {| Name := Name o; Namespace := Namespace o;
     ResourceVersion := ResourceVersion o;
     Replicas := r; Template := Template o;
     Partition := Partition o; StatusReplicas := StatusReplicas o |}.
Definition withTemplate (t : PodTemplateSpec) (o : StatefulSet) : StatefulSet :=
  {| Name := Name o; Namespace := Namespace o;
     ResourceVersion := ResourceVersion o;
     Replicas := Replicas o; Template := t;
     Partition := Partition o; StatusReplicas := StatusReplicas o |}.
Definition withPartition (p : option Z) (o : StatefulSet) : StatefulSet :=
  {| Name := Name o; Namespace := Namespace o;
     ResourceVersion := ResourceVersion o;
     Replicas := Replicas o; Template := Template o;
     Partition := p; StatusReplicas := StatusReplicas o |}.
Definition withStatusReplicas (n : Z) (o : StatefulSet) : StatefulSet :=
  {| Name := Name o; Namespace := Namespace o;
     ResourceVersion := ResourceVersion o;
     Replicas := Replicas o; Template := Template o;
     Partition := Partition o; StatusReplicas := n |}.

(** [node.self.Spec = apps.StatefulSetSpec{}] *)
Definition withBlankSpec (o : StatefulSet) : StatefulSet :=
  {| Name := Name o; Namespace := Namespace o;
     ResourceVersion := ResourceVersion o;
     Replicas := None; Template := emptyTemplate;
     Partition := None; StatusReplicas := StatusReplicas o |}.

(** The zero value [apps.StatefulSet{}]. *)
Definition emptyStatefulSet : StatefulSet :=
  {| Name := ""; Namespace := ""; ResourceVersion := "";
     Replicas := None; Template := emptyTemplate;
     Partition := None; StatusReplicas := 0 |}.

Record statefulSetNode := {
  self : StatefulSet;
  configmapHash : string;
  secretHash : string;
  clusterName : string;
  clusterSize : Z
}.

Definition withSelf (o : StatefulSet) (n : statefulSetNode) : statefulSetNode :=
  {| self := o; configmapHash := configmapHash n; secretHash := secretHash n;
     clusterName := clusterName n; clusterSize := clusterSize n |}.
Definition withConfigmapHash (h : string) (n : statefulSetNode) : statefulSetNode :=
  {| self := self n; configmapHash := h; secretHash := secretHash n;
     clusterName := clusterName n; clusterSize := clusterSize n |}.
Definition withSecretHash (h : string) (n : statefulSetNode) : statefulSetNode :=
  {| self := self n; configmapHash := configmapHash n; secretHash := h;
     clusterName := clusterName n; clusterSize := clusterSize n |}.
Definition withClusterSize (z : Z) (n : statefulSetNode) : statefulSetNode :=
  {| self := self n; configmapHash := configmapHash n;
     secretHash := secretHash n;
     clusterName := clusterName n; clusterSize := z |}.

(** ** Upgrade status *)

(** [v1.ConditionStatus] is a string type of the Kubernetes API with the
    values ["True"], ["False"], ["Unknown"]; the handle also stores [""]. *)
Inductive ConditionStatus :=
| ConditionEmpty | ConditionTrue | ConditionFalse | ConditionUnknown.

Global Instance ConditionStatus_eq_dec : EqDecision ConditionStatus.
Proof. solve_decision. Defined.

(** Modelled from the spec: the declaration of [api.ElasticsearchUpgradePhase]
    and of its constants is not part of the sources at hand.  The spec gives
    the enumeration [{Empty, NodeRestarting, RecoveringData,
    ControllerUpdated}]; [PhaseEmpty] is the value the code writes [""]. *)
Inductive UpgradePhaseT :=
| PhaseEmpty | NodeRestarting | RecoveringData | ControllerUpdated.

Global Instance UpgradePhaseT_eq_dec : EqDecision UpgradePhaseT.
Proof. solve_decision. Defined.

(** Modelled from the spec: the declaration of
    [api.ElasticsearchNodeUpgradeStatus] is not part of the sources at hand;
    these are the four fields the spec lists and the code accesses. *)
Record UpgradeStatusT := {
  ScheduledForUpgrade : ConditionStatus;
  ScheduledForCertRedeploy : ConditionStatus;
  UnderUpgrade : ConditionStatus;
  UpgradePhase : UpgradePhaseT
}.

Definition withUnderUpgrade (c : ConditionStatus) (u : UpgradeStatusT) : UpgradeStatusT :=
  {| ScheduledForUpgrade := ScheduledForUpgrade u;
     ScheduledForCertRedeploy := ScheduledForCertRedeploy u;
     UnderUpgrade := c; UpgradePhase := UpgradePhase u |}.
Definition withUpgradePhase (p : UpgradePhaseT) (u : UpgradeStatusT) : UpgradeStatusT :=
  {| ScheduledForUpgrade := ScheduledForUpgrade u;
     ScheduledForCertRedeploy := ScheduledForCertRedeploy u;
     UnderUpgrade := UnderUpgrade u; UpgradePhase := p |}.

(** ** The world outside the handle *)

(** Writes that took effect, in order. *)
Inductive Event :=
| EvCreate (o : StatefulSet)
| EvUpdate (o : StatefulSet)
| EvDeletePod (namespace podName : string).

(** Scripted answers of the collaborators.  The [nat] is the number of
    external calls made before the one being answered.  A fault of the
    object API pre-empts the regular answer of the store. *)
Record Env := {
  getFault : nat → option (StatusReason * string);
  updateFault : nat → option (StatusReason * string);
  createFault : nat → option (StatusReason * string);
  deletePodResult : nat → error;
  healthStatus : nat → string * error;
  nodeCount : nat → Z * error;
  configmapDataHash : nat → string;
  secretDataHash : nat → string
}.

Record World := {
  objects : gmap (string * string) StatefulSet;
  revision : nat;
  now : nat;
  env : Env;
  trace : list Event
}.

(** One external call has been answered. *)
Definition advance (w : World) : World :=
  {| objects := objects w; revision := revision w; now := S (now w);
     env := env w; trace := trace w |}.

Definition logEvent (e : Event) (w : World) : World :=
  {| objects := objects w; revision := revision w; now := now w;
     env := env w; trace := trace w ++ [e] |}.

(** The store accepts [o] under a fresh resource version. *)
Definition commit (o : StatefulSet) (w : World) : World :=
  {| objects := <[(Namespace o, Name o) := o]> (objects w);
     revision := S (revision w); now := now w;
     env := env w; trace := trace w |}.

Definition nextVersion (w : World) : string := pretty (S (revision w)).

(** [client.Get(ctx, key, obj)]: the object read, or the error. *)
Definition clientGet (namespace name : string) (w : World)
  : (StatefulSet + err) * World :=
  match getFault (env w) (now w) with
  | Some (reason, msg) => (inr (ErrStatus reason msg), advance w)
  | None =>
      match objects w !! (namespace, name) with
      | Some o => (inl o, advance w)
      | None => (inr (ErrStatus NotFound name), advance w)
      end
  end.

(** [client.Update(ctx, obj)]: optimistic concurrency on the resource
    version; the status is a sub-resource and keeps its stored value.
    On success the caller's object is replaced by the stored one. *)
Definition clientUpdate (o : StatefulSet) (w : World)
  : (StatefulSet + err) * World :=
  match updateFault (env w) (now w) with
  | Some (reason, msg) => (inr (ErrStatus reason msg), advance w)
  | None =>
      match objects w !! (Namespace o, Name o) with
      | None => (inr (ErrStatus NotFound (Name o)), advance w)
      | Some cur =>
          if decide (ResourceVersion o = ResourceVersion cur) then
            let o' := withStatusReplicas (StatusReplicas cur)
                        (withResourceVersion (nextVersion w) o) in
            (inl o', logEvent (EvUpdate o') (commit o' (advance w)))
          else (inr (ErrStatus Conflict (Name o)), advance w)
      end
  end.

(** [client.Create(ctx, obj)] *)
Definition clientCreate (o : StatefulSet) (w : World)
  : (StatefulSet + err) * World :=
  match createFault (env w) (now w) with
  | Some (reason, msg) => (inr (ErrStatus reason msg), advance w)
  | None =>
      match objects w !! (Namespace o, Name o) with
      | Some _ => (inr (ErrStatus AlreadyExists (Name o)), advance w)
      | None =>
          let o' := withResourceVersion (nextVersion w) o in
          (inl o', logEvent (EvCreate o') (commit o' (advance w)))
      end
  end.

(** The helpers below belong to the repository but not to the sources at
    hand; the spec treats them as an abstract oracle ([HealthStatus],
    [NodeCount], [DeletePod], content fingerprints), and so does the model:
    each returns what the environment scripts for this call. *)

(** Modelled from the spec: [GetClusterHealthStatus], the health oracle. *)
Definition GetClusterHealthStatus (w : World) : (string * error) * World :=
  (healthStatus (env w) (now w), advance w).

(** Modelled from the spec: [GetClusterNodeCount], the node-count oracle. *)
Definition GetClusterNodeCount (w : World) : (Z * error) * World :=
  (nodeCount (env w) (now w), advance w).

(** Modelled from the spec: [DeletePod], the pod control interface. *)
Definition DeletePod (podName namespace : string) (w : World) : error * World :=
  match deletePodResult (env w) (now w) with
  | Some e => (Some e, advance w)
  | None => (None, logEvent (EvDeletePod namespace podName) (advance w))
  end.

(** Modelled from the spec: [getConfigmapDataHash], a content fingerprint. *)
Definition getConfigmapDataHash (w : World) : string * World :=
  (configmapDataHash (env w) (now w), advance w).

(** Modelled from the spec: [getSecretDataHash], a content fingerprint. *)
Definition getSecretDataHash (w : World) : string * World :=
  (secretDataHash (env w) (now w), advance w).

(** ** Control flow of a Go function body

    A computation over a state [S] inside a function whose result type
    is [R] either falls through to the next statement with a value,
    executes [return r], or panics. *)

Inductive Res (R A : Type) : Type :=
| Normal (a : A)
| Returned (r : R)
| Panic.
Global Arguments Normal {R A} a.
Global Arguments Returned {R A} r.
Global Arguments Panic {R A}.

Definition M (S R A : Type) : Type := S → Res R A * S.

(** Fall through to the next statement with the value [a]. *)
Definition ret {S R A} (a : A) : M S R A := λ s, (Normal a, s).

(** Sequencing: a [return] or a panic in [m] skips [k]. *)
Definition bind {S R A B} (m : M S R A) (k : A → M S R B) : M S R B :=
  λ s, match m s with
       | (Normal a, s') => k a s'
       | (Returned r, s') => (Returned r, s')
       | (Panic, s') => (Panic, s')
       end.

Declare Scope go_scope.
Delimit Scope go_scope with go.
Notation "x ← m ; k" := (bind m (λ x, k))
  (at level 20, m at level 100, k at level 200, only parsing) : go_scope.
Notation "' p ← m ; k" := (bind m (λ x, match x with p => k end))
  (at level 20, p pattern, m at level 100, k at level 200, only parsing) : go_scope.
Notation "m ;; k" := (bind m (λ _, k))
  (at level 100, k at level 200, only parsing, right associativity) : go_scope.
Local Open Scope go_scope.

(** [return r] *)
Definition returnWith {S R A} (r : R) : M S R A := λ s, (Returned r, s).

Definition panic {S R A} : M S R A := λ s, (Panic, s).

(** [*p] *)
Definition deref {S R A} (p : option A) : M S R A :=
  match p with
  | Some a => ret a
  | None => panic
  end.

(** A call: what the body returns is the value of the call expression.
    A body that falls off its end yields its last value. *)
Definition call {S R A} (body : M S A A) : M S R A :=
  λ s, match body s with
       | (Normal a, s') => (Normal a, s')
       | (Returned a, s') => (Normal a, s')
       | (Panic, s') => (Panic, s')
       end.

(** A variable in scope, next to the state [S]: a local captured by a
    closure, or the object behind a pointer parameter. *)
Definition inner {L S R A} (m : M S R A) : M (L * S) R A :=
  λ ls, match m ls.2 with (r, s') => (r, (ls.1, s')) end.
Definition getLocal {L S R} : M (L * S) R L :=
  λ ls, (Normal ls.1, ls).
Definition setLocal {L S R} (l : L) : M (L * S) R unit :=
  λ ls, (Normal tt, (l, ls.2)).
Definition withLocal {L S R A} (init : L) (m : M (L * S) R A) : M S R A :=
  λ s, match m (init, s) with (r, ls') => (r, ls'.2) end.

(** [for index := ordinal; index > 0; index-- { body }].  The guard is
    re-evaluated before each iteration; [fuel] bounds the unfolding and
    [Z.to_nat ordinal] is always enough (lemma [forDown_countdown]). *)
Fixpoint forDown {S R} (fuel : nat) (index : Z) (body : Z → M S R unit)
  : M S R unit :=
  if decide (index > 0) then
    match fuel with
    | O => ret tt
    | Datatypes.S fuel' => body index;; forDown fuel' (index - 1) body
    end
  else ret tt.

(** ** Library functions the handle calls *)

Definition isNil (e : error) : bool :=
  match e with None => true | Some _ => false end.

(** The loop shared by [wait.Poll] and [wait.ExponentialBackoff] of
    [k8s.io/apimachinery]: run [condition] until it reports done or an
    error, at most [attempts] times, then give up with
    [wait.ErrWaitTimeout]. *)
Fixpoint waitFor {S R} (attempts : nat) (condition : M S (bool * error) (bool * error))
  : M S R error :=
  match attempts with
  | O => ret (Some ErrWaitTimeout)
  | Datatypes.S n =>
      '(ok, err) ← call condition;
      match err with
      | Some e => ret (Some e)
      | None => if ok then ret None else waitFor n condition
      end
  end.

(** Durations in seconds. *)
Definition Second : nat := 1%nat.

(** [wait.Poll(interval, timeout, condition)].  Time is discrete: the
    condition runs once per interval until the timeout has elapsed. *)
Definition Poll {S R} (interval timeout : nat)
  (condition : M S (bool * error) (bool * error)) : M S R error :=
  waitFor (timeout `div` interval)%nat condition.

Record Backoff := { Steps : nat }.

(** [retry.DefaultRetry]; its delays (10ms, factor 1.0, jitter 0.1) have
    no counterpart in discrete time. *)
Definition DefaultRetry : Backoff := {| Steps := 5 |}.

Definition ExponentialBackoff {S R} (backoff : Backoff)
  (condition : M S (bool * error) (bool * error)) : M S R error :=
  waitFor (Steps backoff) condition.

Definition isWaitTimeout (e : error) : bool :=
  match e with Some ErrWaitTimeout => true | _ => false end.

(** The condition [retry.RetryOnConflict] hands to the backoff loop; the
    local is the captured [lastConflictErr]. *)
Definition retryCondition {S} (fn : M S error error)
  : M (error * S) (bool * error) (bool * error) :=
  err ← inner (call fn);
  match err with
  | None => returnWith (true, None)
  | Some e =>
      if IsConflict e then
        setLocal (Some e);;
        returnWith (false, None)
      else returnWith (false, Some e)
  end.

(** [retry.RetryOnConflict(backoff, fn)] of [k8s.io/client-go]. *)
Definition RetryOnConflict {S R} (backoff : Backoff) (fn : M S error error)
  : M S R error :=
  call (withLocal (None : error) (
    err ← ExponentialBackoff backoff (retryCondition fn);
    lastConflictErr ← getLocal;
    if isWaitTimeout err then returnWith lastConflictErr
    else returnWith err)).

(** ** The node handle *)

Record NodeState := {
  node : statefulSetNode;
  world : World
}.

Definition getNode {R} : M NodeState R statefulSetNode :=
  λ s, (Normal (node s), s).
Definition setNode {R} (f : statefulSetNode → statefulSetNode) : M NodeState R unit :=
  λ s, (Normal tt, {| node := f (node s); world := world s |}).
(** A call that leaves the process. *)
Definition extern {R A} (op : World → A * World) : M NodeState R A :=
  λ s, match op (world s) with
       | (a, w) => (Normal a, {| node := node s; world := w |})
       end.

(** [node.client.Get(ctx, NamespacedName{node.self.Name, node.self.Namespace}, &node.self)] *)
Definition getIntoSelf {R} : M NodeState R error :=
  n ← getNode;
  r ← extern (clientGet (Namespace (self n)) (Name (self n)));
  match r with
  | inl o => setNode (withSelf o);; ret None
  | inr e => ret (Some e)
  end.

(** [desired := &apps.StatefulSet{}; node.client.Get(ctx, key, desired)] *)
Definition getIntoFresh {R} : M NodeState R (StatefulSet * error) :=
  n ← getNode;
  r ← extern (clientGet (Namespace (self n)) (Name (self n)));
  match r with
  | inl o => ret (o, None)
  | inr e => ret (emptyStatefulSet, Some e)
  end.

(** [node.client.Update(ctx, &node.self)] *)
Definition updateSelf {R} : M NodeState R error :=
  n ← getNode;
  r ← extern (clientUpdate (self n));
  match r with
  | inl o => setNode (withSelf o);; ret None
  | inr e => ret (Some e)
  end.

(** [node.client.Create(ctx, &node.self)] *)
Definition createSelf {R} : M NodeState R error :=
  n ← getNode;
  r ← extern (clientCreate (self n));
  match r with
  | inl o => setNode (withSelf o);; ret None
  | inr e => ret (Some e)
  end.

Definition name (n : statefulSetNode) : string := Name (self n).

(** *** Membership waits *)

(** The condition closure of [waitForNodeRejoinCluster].  Its results are
    named [(done bool, err error)] and start at their zero values; the
    outcome of the fetch is bound to [getErr], and the test reads [err]. *)
Definition rejoinCondition : M NodeState (bool * error) (bool * error) :=
  let done : bool := false in
  let err : error := None in
  '(count, getErr) ← extern GetClusterNodeCount;
  match err with
  | Some _ => returnWith (false, getErr)
  | None =>
      n ← getNode;
      returnWith (bool_decide (clusterSize n ≤ count), None)
  end.

Definition waitForNodeRejoinCluster {R} : M NodeState R (error * bool) :=
  call (
    err ← Poll (Second * 1) (Second * 60) rejoinCondition;
    returnWith (err, isNil err)).

(** The condition closure of [waitForNodeLeaveCluster]. *)
Definition leaveCondition : M NodeState (bool * error) (bool * error) :=
  let done : bool := false in
  let err : error := None in
  '(count, getErr) ← extern GetClusterNodeCount;
  match err with
  | Some _ => returnWith (false, getErr)
  | None =>
      n ← getNode;
      returnWith (bool_decide (clusterSize n > count), None)
  end.

Definition waitForNodeLeaveCluster {R} : M NodeState R (error * bool) :=
  call (
    err ← Poll (Second * 1) (Second * 60) leaveCondition;
    returnWith (err, isNil err)).

(** *** Partition and replica count *)

(** The closure handed to [retry.RetryOnConflict] by [setPartition]; the
    local next to the node state is the captured [nretries]. *)
Definition setPartition_attempt (partitions : Z) : M (Z * NodeState) error error :=
  nretries ← getLocal;
  setLocal (nretries + 1);;
  getErr ← inner getIntoSelf;
  match getErr with
  | Some e => returnWith (Some e)
  | None =>
      n ← inner getNode;
      p ← deref (Partition (self n));
      if decide (p = partitions) then returnWith None
      else
        inner (setNode (λ n, withSelf (withPartition (Some partitions) (self n)) n));;
        updateErr ← inner updateSelf;
        match updateErr with
        | Some e => returnWith (Some e)
        | None => returnWith None
        end
  end.

Definition setPartition {R} (partitions : Z) : M NodeState R error :=
  call (withLocal (-1) (
    retryErr ← RetryOnConflict DefaultRetry (setPartition_attempt partitions);
    match retryErr with
    | Some e =>
        n ← inner getNode;
        nretries ← getLocal;
        returnWith (Some (Errorf
          "Error: could not update Elasticsearch node %v after %v retries: %v"
          [VStr (Name (self n)); VInt nretries; VErr e]))
    | None => returnWith None
    end)).

Definition partition {R} : M NodeState R (Z * error) :=
  call (
    '(desired, err) ← getIntoFresh;
    match err with
    | Some e => returnWith (-1, Some e)
    | None =>
        p ← deref (Partition desired);
        returnWith (p, None)
    end).

(** The closure handed to [retry.RetryOnConflict] by [setReplicaCount]. *)
Definition setReplicaCount_attempt (replicas : Z) : M (Z * NodeState) error error :=
  nretries ← getLocal;
  setLocal (nretries + 1);;
  getErr ← inner getIntoSelf;
  match getErr with
  | Some e => returnWith (Some e)
  | None =>
      n ← inner getNode;
      r ← deref (Replicas (self n));
      if decide (r = replicas) then returnWith None
      else
        inner (setNode (λ n, withSelf (withReplicas (Some replicas) (self n)) n));;
        updateErr ← inner updateSelf;
        match updateErr with
        | Some e => returnWith (Some e)
        | None => returnWith None
        end
  end.

Definition setReplicaCount {R} (replicas : Z) : M NodeState R error :=
  call (withLocal (-1) (
    retryErr ← RetryOnConflict DefaultRetry (setReplicaCount_attempt replicas);
    match retryErr with
    | Some e =>
        n ← inner getNode;
        nretries ← getLocal;
        returnWith (Some (Errorf
          "Error: could not update Elasticsearch node %v after %v retries: %v"
          [VStr (Name (self n)); VInt nretries; VErr e]))
    | None => returnWith None
    end)).

Definition replicaCount {R} : M NodeState R (Z * error) :=
  call (
    '(desired, err) ← getIntoFresh;
    match err with
    | Some e => returnWith (-1, Some e)
    | None => returnWith (StatusReplicas desired, None)
    end).

Definition isMissing {R} : M NodeState R bool :=
  call (
    '(_, getErr) ← getIntoFresh;
    match getErr with
    | Some e => if IsNotFound e then returnWith true else ret tt
    | None => ret tt
    end;;
    returnWith false).

(** *** Change detection *)

(** Modelled from the spec: [elasticsearch.UpdatePodTemplateSpec] is not
    part of the sources at hand.  The spec has it diff the live pod template
    against the desired one, structurally, field for field including
    container image and env; the comment in [executeUpdate] adds that the
    node object is updated when they differ.  The result is the verdict and
    the new content of [actual]. *)
Definition UpdatePodTemplateSpec (nodeName : string)
  (actual desired : PodTemplateSpec) : bool * PodTemplateSpec :=
  if decide (actual = desired) then (false, actual) else (true, desired).

(** [isChanged], for a given behaviour [compare] of the absent
    [elasticsearch.UpdatePodTemplateSpec]. *)
Definition isChangedWith {R}
  (compare : string → PodTemplateSpec → PodTemplateSpec → bool * PodTemplateSpec)
  : M NodeState R bool :=
  call (
    let desired := emptyStatefulSet in
    setNode (λ n, withSelf (withBlankSpec (self n)) n);;
    err ← getIntoSelf;
    match err with
    | Some _ => returnWith false
    | None =>
        n ← getNode;
        let '(changed, actual) :=
          compare (Name (self n)) (Template (self n)) (Template desired) in
        setNode (λ n, withSelf (withTemplate actual (self n)) n);;
        returnWith changed
    end).

Definition isChanged {R} : M NodeState R bool :=
  isChangedWith UpdatePodTemplateSpec.

(** The closure handed to [retry.RetryOnConflict] by [executeUpdate]. *)
Definition executeUpdate_attempt : M NodeState error error :=
  changed ← isChanged;
  (if changed then
     updateErr ← updateSelf;
     match updateErr with
     | Some e => returnWith (Some e)
     | None => ret tt
     end
   else ret tt);;
  returnWith None.

Definition executeUpdate {R} : M NodeState R error :=
  call (
    err ← RetryOnConflict DefaultRetry executeUpdate_attempt;
    returnWith err).

Definition refreshHashes {R} : M NodeState R unit :=
  call (
    newConfigmapHash ← extern getConfigmapDataHash;
    n ← getNode;
    (if decide (newConfigmapHash ≠ configmapHash n)
     then setNode (withConfigmapHash newConfigmapHash) else ret tt);;
    newSecretHash ← extern getSecretDataHash;
    n ← getNode;
    (if decide (newSecretHash ≠ secretHash n)
     then setNode (withSecretHash newSecretHash) else ret tt)).

Definition scale {R} : M NodeState R unit :=
  call (
    n ← getNode;
    let desired := self n in
    err ← getIntoSelf;
    match err with
    | Some _ => returnWith tt
    | None =>
        n ← getNode;
        d ← deref (Replicas desired);
        c ← deref (Replicas (self n));
        if decide (d ≠ c) then
          setNode (λ n, withSelf (withReplicas (Replicas desired) (self n)) n);;
          n ← getNode;
          r ← deref (Replicas (self n));
          _ ← setReplicaCount r;
          ret tt
        else ret tt
    end).

Definition create {R} : M NodeState R error :=
  call (
    n ← getNode;
    (if decide (ResourceVersion (self n) = "") then
       err ← createSelf;
       match err with
       | Some e =>
           if negb (IsAlreadyExists e) then
             returnWith (Some (Errorf "Could not create node resource: %v" [VErr e]))
           else
             scale;;
             returnWith None
       | None => ret tt
       end;;
       h ← extern getConfigmapDataHash;
       setNode (withConfigmapHash h);;
       h ← extern getSecretDataHash;
       setNode (withSecretHash h)
     else scale);;
    returnWith None).

(** [fmt.Sprintf("%v-%v", node.name(), i)] *)
Definition podNameOf (n : statefulSetNode) (i : Z) : string :=
  name n +:+ "-" +:+ pretty i.

(** *** The upgrade state machine

    The entry points receive [upgradeStatus] by pointer and mutate it in
    place: it is the variable next to the node state.  Each entry point is
    four consecutive [if] blocks, given here one definition per block. *)

Definition ES : Type := UpgradeStatusT * NodeState.

Definition modifyStatus {R} (f : UpgradeStatusT → UpgradeStatusT) : M ES R unit :=
  upgradeStatus ← getLocal;
  setLocal (f upgradeStatus).

(** Lines 247-270. *)
Definition rollingRestart_start : M ES unit unit :=
  upgradeStatus ← getLocal;
  if decide (UnderUpgrade upgradeStatus ≠ ConditionTrue) then
    '(status, _) ← inner (extern GetClusterHealthStatus);
    if decide (status ≠ "green") then returnWith tt
    else
      '(size, err) ← inner (extern GetClusterNodeCount);
      match err with
      | Some _ => returnWith tt
      | None =>
          inner (setNode (withClusterSize size));;
          '(replicas, err) ← inner replicaCount;
          match err with
          | Some _ => returnWith tt
          | None =>
              _ ← inner (setPartition replicas);
              modifyStatus (withUnderUpgrade ConditionTrue)
          end
      end
  else ret tt.

(** Lines 272-278 and 363-369: nothing but the phase changes. *)
Definition restart_idle {R} : M ES R unit :=
  upgradeStatus ← getLocal;
  if decide (UpgradePhase upgradeStatus = PhaseEmpty
             ∨ UpgradePhase upgradeStatus = ControllerUpdated) then
    modifyStatus (withUpgradePhase NodeRestarting)
  else ret tt.

(** The body of the loop at lines 296-322, for one value of [index]. *)
Definition rollingRestart_step (index : Z) : M NodeState unit unit :=
  n ← getNode;
  let podName := podNameOf n (index - 1) in
  '(err, _) ← waitForNodeRejoinCluster;
  match err with
  | Some _ => returnWith tt
  | None =>
      n ← getNode;
      err ← extern (DeletePod podName (Namespace (self n)));
      match err with
      | Some _ => returnWith tt
      | None =>
          '(err, _) ← waitForNodeLeaveCluster;
          match err with
          | Some _ => returnWith tt
          | None =>
              _ ← setPartition (index - 1);
              ret tt
          end
      end
  end.

(** Lines 296-329: the loop and what follows it, for the [ordinal] read
    at line 290. *)
Definition rollingRestart_fromOrdinal (ordinal : Z) : M NodeState unit unit :=
  forDown (Z.to_nat ordinal) ordinal rollingRestart_step;;
  '(err, _) ← waitForNodeRejoinCluster;
  match err with
  | Some _ => returnWith tt
  | None => refreshHashes
  end.

(** Lines 280-332. *)
Definition rollingRestart_restarting : M ES unit unit :=
  upgradeStatus ← getLocal;
  if decide (UpgradePhase upgradeStatus = NodeRestarting) then
    inner (
      missing ← isMissing;
      (if missing then _ ← create; ret tt else ret tt);;
      '(ordinal, err) ← partition;
      match err with
      | Some _ => returnWith tt
      | None => rollingRestart_fromOrdinal ordinal
      end);;
    modifyStatus (withUpgradePhase RecoveringData)
  else ret tt.

(** Lines 334-338, 406-410 and 532-536. *)
Definition recovering {R} : M ES R unit :=
  upgradeStatus ← getLocal;
  if decide (UpgradePhase upgradeStatus = RecoveringData) then
    modifyStatus (withUpgradePhase ControllerUpdated);;
    modifyStatus (withUnderUpgrade ConditionEmpty)
  else ret tt.

Definition rollingRestart {R} : M ES R unit :=
  call (
    rollingRestart_start;;
    restart_idle;;
    rollingRestart_restarting;;
    recovering).

(** Lines 343-361. *)
Definition fullClusterRestart_start : M ES unit unit :=
  upgradeStatus ← getLocal;
  if decide (UnderUpgrade upgradeStatus ≠ ConditionTrue) then
    '(replicas, err) ← inner replicaCount;
    match err with
    | Some _ => returnWith tt
    | None =>
        '(size, err) ← inner (extern GetClusterNodeCount);
        match err with
        | Some _ => returnWith tt
        | None =>
            _ ← inner (setPartition replicas);
            inner (setNode (withClusterSize size));;
            modifyStatus (withUnderUpgrade ConditionTrue)
        end
    end
  else ret tt.

(** The body of the loop at lines 379-399. *)
Definition fullClusterRestart_step (index : Z) : M NodeState unit unit :=
  n ← getNode;
  let podName := podNameOf n (index - 1) in
  err ← extern (DeletePod podName (Namespace (self n)));
  match err with
  | Some _ => returnWith tt
  | None =>
      '(err, _) ← waitForNodeLeaveCluster;
      match err with
      | Some _ => returnWith tt
      | None =>
          _ ← setPartition (index - 1);
          ret tt
      end
  end.

(** Lines 379-401: the loop and what follows it, for the [ordinal] read
    at line 373. *)
Definition fullClusterRestart_fromOrdinal (ordinal : Z) : M NodeState unit unit :=
  forDown (Z.to_nat ordinal) ordinal fullClusterRestart_step;;
  refreshHashes.

(** Lines 371-404. *)
Definition fullClusterRestart_restarting : M ES unit unit :=
  upgradeStatus ← getLocal;
  if decide (UpgradePhase upgradeStatus = NodeRestarting) then
    inner (
      '(ordinal, err) ← partition;
      match err with
      | Some _ => returnWith tt
      | None => fullClusterRestart_fromOrdinal ordinal
      end);;
    modifyStatus (withUpgradePhase RecoveringData)
  else ret tt.

Definition fullClusterRestart {R} : M ES R unit :=
  call (
    fullClusterRestart_start;;
    restart_idle;;
    fullClusterRestart_restarting;;
    recovering).

(** Lines 456-478. *)
Definition update_start : M ES error unit :=
  upgradeStatus ← getLocal;
  if decide (UnderUpgrade upgradeStatus ≠ ConditionTrue) then
    '(status, _) ← inner (extern GetClusterHealthStatus);
    if decide (status ≠ "green") then
      n ← inner getNode;
      returnWith (Some (Errorf
        "Waiting for cluster to be fully recovered before restarting %v: %v / green"
        [VStr (name n); VStr status]))
    else
      '(size, err) ← inner (extern GetClusterNodeCount);
      inner (setNode (withClusterSize size));;
      '(replicas, err) ← inner replicaCount;
      match err with
      | Some _ =>
          n ← inner getNode;
          returnWith (Some (Errorf
            "Unable to get number of replicas prior to restart for %v"
            [VStr (name n)]))
      | None =>
          _ ← inner (setPartition replicas);
          modifyStatus (withUnderUpgrade ConditionTrue)
      end
  else ret tt.

(** Lines 480-488. *)
Definition update_idle : M ES error unit :=
  upgradeStatus ← getLocal;
  if decide (UpgradePhase upgradeStatus = PhaseEmpty
             ∨ UpgradePhase upgradeStatus = ControllerUpdated) then
    err ← inner executeUpdate;
    match err with
    | Some e => returnWith (Some e)
    | None => modifyStatus (withUpgradePhase NodeRestarting)
    end
  else ret tt.

(** The body of the loop at lines 500-518. *)
Definition update_step (index : Z) : M NodeState error unit :=
  '(err, _) ← waitForNodeRejoinCluster;
  match err with
  | Some _ =>
      n ← getNode;
      returnWith (Some (Errorf "Timed out waiting for %v to rejoin cluster"
                          [VStr (name n)]))
  | None =>
      _ ← setPartition (index - 1);
      '(err, _) ← waitForNodeLeaveCluster;
      match err with
      | Some _ =>
          n ← getNode;
          returnWith (Some (Errorf "Timed out waiting for %v to leave the cluster"
                              [VStr (name n)]))
      | None => ret tt
      end
  end.

(** Lines 500-527: the loop and what follows it, for the [ordinal] read
    at line 492. *)
Definition update_fromOrdinal (ordinal : Z) : M NodeState error unit :=
  forDown (Z.to_nat ordinal) ordinal update_step;;
  '(err, _) ← waitForNodeRejoinCluster;
  match err with
  | Some _ =>
      n ← getNode;
      returnWith (Some (Errorf "Timed out waiting for %v to rejoin cluster"
                          [VStr (name n)]))
  | None => refreshHashes
  end.

(** Lines 490-530. *)
Definition update_restarting : M ES error unit :=
  upgradeStatus ← getLocal;
  if decide (UpgradePhase upgradeStatus = NodeRestarting) then
    inner (
      '(ordinal, err) ← partition;
      match err with
      | Some e => returnWith (Some e)
      | None => update_fromOrdinal ordinal
      end);;
    modifyStatus (withUpgradePhase RecoveringData)
  else ret tt.

Definition update {R} : M ES R error :=
  call (
    update_start;;
    update_idle;;
    update_restarting;;
    recovering;;
    returnWith None).


(** *** Reporting and unblocking *)

(** [api.ElasticsearchNodeStatus], the fields the handle fills in. *)
Record NodeStatusT := {
  StatefulSetName : string;
  UpgradeStatus : UpgradeStatusT
}.

(** Lines 83-120, for a given behaviour [compare] of the absent
    [elasticsearch.UpdatePodTemplateSpec].  The two flags start at the zero
    value [""]. *)
Definition stateWith {R}
  (compare : string → PodTemplateSpec → PodTemplateSpec → bool * PodTemplateSpec)
  : M NodeState R NodeStatusT :=
  call (
    changed ← isChangedWith compare;
    let rolloutForUpdate := if changed then ConditionTrue else ConditionEmpty in
    newSecretHash ← extern getSecretDataHash;
    n ← getNode;
    rolloutForCertReload ←
      (if decide (secretHash n = "") then
         setNode (withSecretHash newSecretHash);;
         ret ConditionEmpty
       else if decide (newSecretHash ≠ secretHash n) then ret ConditionTrue
       else ret ConditionEmpty);
    n ← getNode;
    returnWith
      {| StatefulSetName := Name (self n);
         UpgradeStatus :=
           {| ScheduledForUpgrade := rolloutForUpdate;
              ScheduledForCertRedeploy := rolloutForCertReload;
              UnderUpgrade := ConditionEmpty;
              UpgradePhase := PhaseEmpty |} |}).

Definition state {R} : M NodeState R NodeStatusT :=
  stateWith UpdatePodTemplateSpec.

(** Lines 589-610.  The [upgradeStatus] parameter is not used. *)
Definition progressUnshedulableNode {R} : M NodeState R error :=
  call (
    changed ← isChanged;
    (if changed then
       err ← executeUpdate;
       match err with
       | Some e => returnWith (Some e)
       | None =>
           '(partition, err) ← partition;
           match err with
           | Some e => returnWith (Some e)
           | None =>
               n ← getNode;
               let podName := podNameOf n partition in
               err ← extern (DeletePod podName (Namespace (self n)));
               match err with
               | Some e => returnWith (Some e)
               | None => ret tt
               end
           end
       end
     else ret tt);;
    returnWith None).

(** ** Vocabulary of the properties *)

(** [k] further external calls have been answered. *)
Definition advanceBy (k : nat) (w : World) : World :=
  {| objects := objects w; revision := revision w; now := (k + now w)%nat;
     env := env w; trace := trace w |}.

Definition elapse (k : nat) (ns : NodeState) : NodeState :=
  {| node := node ns; world := advanceBy k (world ns) |}.

(** The node count the oracle reports to the [i]-th call from now. *)
Definition observedCount (ns : NodeState) (i : nat) : Z :=
  (nodeCount (env (world ns)) (i + now (world ns))%nat).1.

(** What holds of the result of a body: one assertion per way of leaving it. *)
Definition outcome {S R A} (Qn : A → S → Prop) (Qr : R → S → Prop) (Qp : S → Prop)
  (x : Res R A * S) : Prop :=
  match x.1 with
  | Normal a => Qn a x.2
  | Returned r => Qr r x.2
  | Panic => Qp x.2
  end.

Definition triple {S R A} (P : S → Prop) (m : M S R A)
  (Qn : A → S → Prop) (Qr : R → S → Prop) (Qp : S → Prop) : Prop :=
  ∀ s, P s → outcome Qn Qr Qp (m s).

(** Every object is stored under its own namespace and name. *)
Definition storeOK (w : World) : Prop :=
  ∀ k o, objects w !! k = Some o → k = (Namespace o, Name o).

Definition keyOf (n : statefulSetNode) : string * string :=
  (Namespace (self n), Name (self n)).

(** The body shared by [setPartition] and [setReplicaCount] around their
    attempts. *)
Definition retried {R} (attempt : M (Z * NodeState) error error) : M NodeState R error :=
  call (withLocal (-1) (
    retryErr ← RetryOnConflict DefaultRetry attempt;
    match retryErr with
    | Some e =>
        n ← inner getNode;
        nretries ← getLocal;
        returnWith (Some (Errorf
          "Error: could not update Elasticsearch node %v after %v retries: %v"
          [VStr (Name (self n)); VInt nretries; VErr e]))
    | None => returnWith None
    end)).


(** The object the handle designates is stored with partition [p],
    respectively with [Spec.Replicas] equal to [r]. *)
Definition livePartition (ns : NodeState) (p : Z) : Prop :=
  ∃ o, objects (world ns) !! keyOf (node ns) = Some o ∧ Partition o = Some p.

Definition liveReplicas (ns : NodeState) (r : Z) : Prop :=
  ∃ o, objects (world ns) !! keyOf (node ns) = Some o ∧ Replicas o = Some r.

(** [Status.Replicas] of the object the handle designates, if it is stored. *)
Definition liveStatusReplicas (ns : NodeState) : option Z :=
  StatusReplicas <$> objects (world ns) !! keyOf (node ns).

(** The trace [t0] has grown by at most one update, which stores the
    partition [p]. *)
Definition wroteAtMost (t0 : list Event) (p : Z) (w : World) : Prop :=
  trace w = t0 ∨ ∃ o, trace w = (t0 ++ [EvUpdate o])%list ∧ Partition o = Some p.

(** The stored object the handle designates carries a partition. *)
Definition liveHasPartition (ns : NodeState) : Prop :=
  ∃ o, objects (world ns) !! keyOf (node ns) = Some o ∧ is_Some (Partition o).

(** The phase sequence of one upgrade cycle. *)
Inductive phase_step : UpgradePhaseT → UpgradePhaseT → Prop :=
| step_first_cycle : phase_step PhaseEmpty NodeRestarting
| step_next_cycle : phase_step ControllerUpdated NodeRestarting
| step_restarted : phase_step NodeRestarting RecoveringData
| step_recovered : phase_step RecoveringData ControllerUpdated.

(** Moving forward within one cycle: any number of steps, none of them
    taken from [ControllerUpdated] once it has been reached. *)
Inductive phase_advance : UpgradePhaseT → UpgradePhaseT → Prop :=
| advance_stay p : phase_advance p p
| advance_last p : phase_step p ControllerUpdated → phase_advance p ControllerUpdated
| advance_on p q r :
    phase_step p q → q ≠ ControllerUpdated → phase_advance q r → phase_advance p r.

Fixpoint phasesAdvance (p : UpgradePhaseT) (later : list UpgradePhaseT) : Prop :=
  match later with
  | [] => True
  | q :: later' => phase_advance p q ∧ phasesAdvance q later'
  end.

Inductive EntryPoint := RollingRestart | FullClusterRestart | Update.

(** One reconcile pass: the state an entry point leaves behind. *)
Definition invoke (e : EntryPoint) (s : ES) : ES :=
  match e with
  | RollingRestart => (rollingRestart (R:=unit) s).2
  | FullClusterRestart => (fullClusterRestart (R:=unit) s).2
  | Update => (update (R:=unit) s).2
  end.

(** The status after each call of a sequence.  The status is what the
    reconciler carries from one pass to the next; the handle is rebuilt and
    the world has moved on, so each call comes with its own. *)
Fixpoint statusesAfter (u : UpgradeStatusT) (calls : list (EntryPoint * NodeState))
  : list UpgradeStatusT :=
  match calls with
  | [] => []
  | (e, ns) :: rest =>
      let u' := (invoke e (u, ns)).1 in
      u' :: statusesAfter u' rest
  end.

(** The phase the idle block, the restarting block and the recovering
    block leave when they run to their end. *)
Definition afterIdle (p : UpgradePhaseT) : UpgradePhaseT :=
  match p with
  | PhaseEmpty | ControllerUpdated => NodeRestarting
  | _ => p
  end.
Definition afterRestarting (p : UpgradePhaseT) : UpgradePhaseT :=
  match p with NodeRestarting => RecoveringData | _ => p end.
Definition afterRecovering (p : UpgradePhaseT) : UpgradePhaseT :=
  match p with RecoveringData => ControllerUpdated | _ => p end.

(** A block of an entry point, seen from the phase: [f] when it runs to
    its end, unchanged when it returns early or panics. *)
Definition phaseBlock {R A} (f : UpgradePhaseT → UpgradePhaseT) (b : M ES R A) : Prop :=
  ∀ p, triple (λ s, UpgradePhase s.1 = p) b
         (λ _ s, UpgradePhase s.1 = f p)
         (λ _ s, UpgradePhase s.1 = p)
         (λ s, UpgradePhase s.1 = p).

(** The last block, with or without a trailing [return]: the phase is
    as before or one step past [RecoveringData]. *)
Definition lastBlock {R A} (b : M ES R A) : Prop :=
  ∀ p, triple (λ s, UpgradePhase s.1 = p) b
         (λ _ s, UpgradePhase s.1 = p ∨ UpgradePhase s.1 = afterRecovering p)
         (λ _ s, UpgradePhase s.1 = p ∨ UpgradePhase s.1 = afterRecovering p)
         (λ s, UpgradePhase s.1 = p ∨ UpgradePhase s.1 = afterRecovering p).


(** [n] consecutive integers, the largest first, the smallest being [lo]. *)
Definition descending (lo n : Z) : list Z := reverse (seqZ lo n).





Definition deletedPod (ev : Event) : option string :=
  match ev with
  | EvDeletePod _ podName => Some podName
  | _ => None
  end.

Definition podsDeleted (evs : list Event) : list string := omap deletedPod evs.



(** ** Vocabulary of the further properties *)

(** [o'] is [o] up to the partition and the resource version. *)
Definition sameButPartition (o o' : StatefulSet) : Prop :=
  Name o' = Name o ∧ Namespace o' = Namespace o ∧ Replicas o' = Replicas o
  ∧ Template o' = Template o ∧ StatusReplicas o' = StatusReplicas o.

(** [o'] is [o] up to the requested replica count and the resource version. *)
Definition sameButReplicas (o o' : StatefulSet) : Prop :=
  Name o' = Name o ∧ Namespace o' = Namespace o ∧ Partition o' = Partition o
  ∧ Template o' = Template o ∧ StatusReplicas o' = StatusReplicas o.

(** The store [m] is [m0] except possibly under the key [k], where an
    object present before is still present and related by [rel]. *)
Definition changedOnlyAt (k : string * string) (rel : StatefulSet → StatefulSet → Prop)
  (m0 m : gmap (string * string) StatefulSet) : Prop :=
  (∀ k', k' ≠ k → m !! k' = m0 !! k')
  ∧ match m0 !! k, m !! k with
    | Some o, Some o' => rel o o'
    | None, None => True
    | _, _ => False
    end.

(** The message of [setPartition] and [setReplicaCount] when they give up. *)
Definition gaveUp (nodeName : string) (nretries : Z) (cause : err) : error :=
  Some (Errorf "Error: could not update Elasticsearch node %v after %v retries: %v"
          [VStr nodeName; VInt nretries; VErr cause]).

(** The fields of the handle next to [self]: the two fingerprints, the
    cluster name and the recorded cluster size. *)
Definition besideSelf (n0 n : statefulSetNode) : Prop :=
  configmapHash n = configmapHash n0 ∧ secretHash n = secretHash n0
  ∧ clusterName n = clusterName n0 ∧ clusterSize n = clusterSize n0.

Definition isDeletePod (ev : Event) : bool :=
  match ev with EvDeletePod _ _ => true | _ => false end.

(** The trace has grown from [t0] by events that all satisfy [allowed]. *)
Definition grewBy (t0 : list Event) (allowed : Event → bool) (w : World) : Prop :=
  ∃ evs, trace w = (t0 ++ evs)%list ∧ forallb allowed evs = true.

Definition isUpdate (ev : Event) : bool :=
  match ev with EvUpdate _ => true | _ => false end.

(** What [client.Update] stores for [o] when the stored object is [cur]
    and the store is at revision [w]. *)
Definition storedOver (w : World) (cur o : StatefulSet) : StatefulSet :=
  withStatusReplicas (StatusReplicas cur) (withResourceVersion (nextVersion w) o).

(** What each of the four blocks of an entry point does to the upgrade
    status when it runs to its end. *)
Definition started (u : UpgradeStatusT) : UpgradeStatusT :=
  if decide (UnderUpgrade u ≠ ConditionTrue) then withUnderUpgrade ConditionTrue u else u.

Definition idled (u : UpgradeStatusT) : UpgradeStatusT :=
  if decide (UpgradePhase u = PhaseEmpty ∨ UpgradePhase u = ControllerUpdated)
  then withUpgradePhase NodeRestarting u else u.

Definition restarted (u : UpgradeStatusT) : UpgradeStatusT :=
  if decide (UpgradePhase u = NodeRestarting)
  then withUpgradePhase RecoveringData u else u.

Definition recovered (u : UpgradeStatusT) : UpgradeStatusT :=
  if decide (UpgradePhase u = RecoveringData)
  then withUnderUpgrade ConditionEmpty (withUpgradePhase ControllerUpdated u) else u.

(** The status of a finished cycle: the scheduling flags as they were. *)
Definition completed (u : UpgradeStatusT) : UpgradeStatusT :=
  {| ScheduledForUpgrade := ScheduledForUpgrade u;
     ScheduledForCertRedeploy := ScheduledForCertRedeploy u;
     UnderUpgrade := ConditionEmpty;
     UpgradePhase := ControllerUpdated |}.

(** A block seen from the status: [f] when it runs to its end, untouched
    when it returns early, with a result in [early], or panics. *)
Definition statusBlock {R A} (early : R → Prop) (f : UpgradeStatusT → UpgradeStatusT)
  (b : M ES R A) : Prop :=
  ∀ u, triple (λ s, s.1 = u) b
         (λ _ s, s.1 = f u) (λ r s, early r ∧ s.1 = u) (λ s, s.1 = u).

(** Every [return] that [m] executes returns a result in [early]. *)
Definition returnsOnly {S R A} (early : R → Prop) (m : M S R A) : Prop :=
  ∀ s, match (m s).1 with Returned r => early r | _ => True end.

(** The status a call leaves when it ends before its last block. *)
Definition leftEarly (u v : UpgradeStatusT) : Prop :=
  v = u ∨ v = started u ∨ v = idled (started u).

(** Between two calls, a node that is being restarted or is recovering
    is marked as under upgrade. *)
Definition midCycleIsMarked (u : UpgradeStatusT) : Prop :=
  UpgradePhase u = NodeRestarting ∨ UpgradePhase u = RecoveringData →
  UnderUpgrade u = ConditionTrue.

(** Whatever the state and the way it ends, [m] appends to the trace of
    the world, found in the state by [proj], only events that satisfy
    [allowed]. *)
Definition writesOnly {S R A} (proj : S → World) (allowed : Event → bool)
  (m : M S R A) : Prop :=
  ∀ s, grewBy (trace (proj s)) allowed (proj (m s).2).

Definition isUpdateOrDeletePod (ev : Event) : bool := isUpdate ev || isDeletePod ev.

(** While the pods of the node group designated by [n0] are being
    deleted: the store keeps every object under its own name, the handle
    still designates the node group, and the pods deleted since the trace
    was [t0] are, in order, those with the ordinals [deleted]. *)
Definition deleting (t0 : list Event) (n0 : statefulSetNode) (deleted : list Z)
  (ns : NodeState) : Prop :=
  storeOK (world ns) ∧ keyOf (node ns) = keyOf n0
  ∧ ∃ evs, trace (world ns) = (t0 ++ evs)%list
           ∧ podsDeleted evs = podNameOf n0 <$> deleted.

(** The same when the call may have stopped on the way through [todo]. *)
Definition deletingSome (t0 : list Event) (n0 : statefulSetNode) (deleted todo : list Z)
  (ns : NodeState) : Prop :=
  ∃ more, more `prefix_of` todo ∧ deleting t0 n0 (deleted ++ more) ns.

(** *** One step of a loop, when the collaborators answer *)










(** ** Concrete scenarios

    A three-replica node group [es] in namespace [logging], used to run
    the model on explicit inputs. *)

Definition podTemplate : PodTemplateSpec :=
  {| templateLabels := [("cluster-name", "elasticsearch")];
     containers :=
       [ {| containerName := "elasticsearch";
            image := "elasticsearch:6.8";
            envVars := [("CLUSTER_NAME", "elasticsearch")] |} ] |}.

Definition liveSet (partition : Z) : StatefulSet :=
  {| Name := "es"; Namespace := "logging"; ResourceVersion := "1";
     Replicas := Some 3; Template := podTemplate;
     Partition := Some partition; StatusReplicas := 3 |}.

(** The handle as [populateReference] leaves it: never persisted, partition 0. *)
Definition handle : statefulSetNode :=
  {| self := {| Name := "es"; Namespace := "logging"; ResourceVersion := "";
                Replicas := Some 3; Template := podTemplate;
                Partition := Some 0; StatusReplicas := 0 |};
     configmapHash := ""; secretHash := "";
     clusterName := "elasticsearch"; clusterSize := 0 |}.

Definition idleStatus : UpgradeStatusT :=
  {| ScheduledForUpgrade := ConditionEmpty;
     ScheduledForCertRedeploy := ConditionEmpty;
     UnderUpgrade := ConditionEmpty;
     UpgradePhase := PhaseEmpty |}.

(** No API fault, no pod deletion failure, health [status], and a node
    count that answers [counts t] to the call number [t]. *)
Definition scriptedEnv (status : string) (counts : nat → Z * error) : Env :=
  {| getFault := λ _, None;
     updateFault := λ _, None;
     createFault := λ _, None;
     deletePodResult := λ _, None;
     healthStatus := λ _, (status, None);
     nodeCount := counts;
     configmapDataHash := λ _, "cm-1";
     secretDataHash := λ _, "secret-1" |}.

Definition worldWith (live : StatefulSet) (e : Env) : World :=
  {| objects := {[ (Namespace live, Name live) := live ]};
     revision := 1; now := 0; env := e; trace := [] |}.

Definition steadyCount (n : Z) : nat → Z * error := λ _, (n, None).

Definition yellowWorld : World :=
  worldWith (liveSet 0) (scriptedEnv "yellow" (steadyCount 3)).

(** Two nodes are seen by the first two polls, three from then on. *)
Definition rejoiningCount : nat → Z * error :=
  λ t, if (t <? 2)%nat then (2, None) else (3, None).

(** Every fetch of the node count fails and yields [0]. *)
Definition failingCount : nat → Z * error :=
  λ _, (0, Some (ErrCluster "connection refused")).

Definition waitingNode (size : Z) (counts : nat → Z * error) : NodeState :=
  {| node := withClusterSize size handle;
     world := worldWith (liveSet 3) (scriptedEnv "green" counts) |}.

(** An idle node group on a healthy cluster: partition 0, three replicas
    requested and three reported. *)
Definition healthyNode : NodeState :=
  {| node := handle;
     world := worldWith (liveSet 0) (scriptedEnv "green" (steadyCount 3)) |}.

(** The same node group while the cluster reports yellow. *)
Definition yellowNode : NodeState :=
  {| node := handle; world := yellowWorld |}.

(** Healthy, but the fetch of the node count fails. *)
Definition countlessNode : NodeState :=
  {| node := handle;
     world := worldWith (liveSet 0) (scriptedEnv "green" failingCount) |}.

(** The cluster is seen with three nodes on even calls and two on odd
    ones, so that every wait for a join or a leave ends within two polls. *)
Definition alternatingCount : nat → Z * error :=
  λ t, (if Nat.even t then 3 else 2, None).

(** As [scriptedEnv "green" alternatingCount], except that the update
    answered as call number [failAt] is refused by the API server. *)
Definition flakyEnv (failAt : nat) : Env :=
  {| getFault := λ _, None;
     updateFault := λ t, if decide (t = failAt)
                         then Some (InternalError, "etcdserver: request timed out")
                         else None;
     createFault := λ _, None;
     deletePodResult := λ _, None;
     healthStatus := λ _, ("green", None);
     nodeCount := alternatingCount;
     configmapDataHash := λ _, "cm-1";
     secretDataHash := λ _, "secret-1" |}.

(** Mid-upgrade: partition 2 stored, cluster size 3 recorded. *)
Definition restartingNode (failAt : nat) : NodeState :=
  {| node := withClusterSize 3 (withSelf (liveSet 2) handle);
     world := worldWith (liveSet 2) (flakyEnv failAt) |}.

Definition restartingStatus : UpgradeStatusT :=
  {| ScheduledForUpgrade := ConditionTrue;
     ScheduledForCertRedeploy := ConditionEmpty;
     UnderUpgrade := ConditionTrue;
     UpgradePhase := NodeRestarting |}.

(** The stored pod template is empty while the handle asks for
    [podTemplate]. *)
Definition bareNode : NodeState :=
  {| node := handle;
     world := worldWith (withTemplate emptyTemplate (liveSet 0))
                (scriptedEnv "green" (steadyCount 3)) |}.

(** Another pod template: a newer image. *)
Definition newerTemplate : PodTemplateSpec :=
  {| templateLabels := [("cluster-name", "elasticsearch")];
     containers :=
       [ {| containerName := "elasticsearch";
            image := "elasticsearch:7.10";
            envVars := [("CLUSTER_NAME", "elasticsearch")] |} ] |}.

(** The healthy node group, the handle now asking for [newerTemplate]. *)
Definition upgradingNode : NodeState :=
  {| node := withSelf (withTemplate newerTemplate (self handle)) handle;
     world := world healthyNode |}.

(** ** Further scenarios *)

(** Every update is refused as a conflict: another writer keeps getting
    in first. *)
Definition contendedEnv : Env :=
  {| getFault := λ _, None;
     updateFault := λ _, Some (Conflict, "the object has been modified");
     createFault := λ _, None;
     deletePodResult := λ _, None;
     healthStatus := λ _, ("green", None);
     nodeCount := steadyCount 3;
     configmapDataHash := λ _, "cm-1";
     secretDataHash := λ _, "secret-1" |}.

Definition contendedNode : NodeState :=
  {| node := handle; world := worldWith (liveSet 0) contendedEnv |}.

(** The API server is unreachable: every read fails. *)
Definition unreachableEnv : Env :=
  {| getFault := λ _, Some (InternalError, "connection refused");
     updateFault := λ _, None;
     createFault := λ _, None;
     deletePodResult := λ _, None;
     healthStatus := λ _, ("green", None);
     nodeCount := steadyCount 3;
     configmapDataHash := λ _, "cm-1";
     secretDataHash := λ _, "secret-1" |}.

Definition unreachableNode : NodeState :=
  {| node := handle; world := worldWith (liveSet 0) unreachableEnv |}.

(** A StatefulSet stored without a rolling-update partition. *)
Definition legacyNode : NodeState :=
  {| node := handle;
     world := worldWith (withPartition None (liveSet 0))
                (scriptedEnv "green" (steadyCount 3)) |}.

(** The healthy node group, the handle now asking for five replicas. *)
Definition growingNode : NodeState :=
  {| node := withSelf (withReplicas (Some 5) (self handle)) handle;
     world := world healthyNode |}.

(** Nothing is stored yet. *)
Definition emptyWorld (e : Env) : World :=
  {| objects := ∅; revision := 0; now := 0; env := e; trace := [] |}.

Definition freshNode : NodeState :=
  {| node := handle; world := emptyWorld (scriptedEnv "green" (steadyCount 3)) |}.

(** The API server refuses every creation. *)
Definition forbiddingEnv : Env :=
  {| getFault := λ _, None;
     updateFault := λ _, None;
     createFault := λ _, Some (InternalError, "admission webhook denied the request");
     deletePodResult := λ _, None;
     healthStatus := λ _, ("green", None);
     nodeCount := steadyCount 3;
     configmapDataHash := λ _, "cm-1";
     secretDataHash := λ _, "secret-1" |}.

Definition forbiddenNode : NodeState :=
  {| node := handle; world := emptyWorld forbiddingEnv |}.

(** The restart loop has finished; the data is recovering. *)
Definition recoveringStatus : UpgradeStatusT :=
  {| ScheduledForUpgrade := ConditionTrue;
     ScheduledForCertRedeploy := ConditionEmpty;
     UnderUpgrade := ConditionTrue;
     UpgradePhase := RecoveringData |}.

(** The cluster reports red and never more than two nodes. *)
Definition redNode : NodeState :=
  {| node := withClusterSize 3 (withSelf (liveSet 2) handle);
     world := worldWith (liveSet 2) (scriptedEnv "red" (steadyCount 2)) |}.

(** Restarted down to partition 0: nothing is left to restart. *)
Definition restartedNode : NodeState :=
  {| node := withClusterSize 3 (withSelf (liveSet 0) handle);
     world := worldWith (liveSet 0) (scriptedEnv "green" (steadyCount 3)) |}.

(** The handle remembers the fingerprint of an older secret. *)
Definition staleSecretNode : NodeState :=
  {| node := withSecretHash "secret-0" (withSelf (liveSet 0) handle);
     world := worldWith (liveSet 0) (scriptedEnv "green" (steadyCount 3)) |}.

(** The first read fails; the API server answers from then on. *)
Definition hiccupEnv : Env :=
  {| getFault := λ t, if decide (t = 0%nat)
                      then Some (InternalError, "connection reset by peer")
                      else None;
     updateFault := λ _, None;
     createFault := λ _, None;
     deletePodResult := λ _, None;
     healthStatus := λ _, ("green", None);
     nodeCount := steadyCount 3;
     configmapDataHash := λ _, "cm-1";
     secretDataHash := λ _, "secret-1" |}.

Definition hiccupNode : NodeState :=
  {| node := withSelf (liveSet 0) handle; world := worldWith (liveSet 0) hiccupEnv |}.

(** Three nodes are seen by the first two calls, two from then on: a
    node leaves once its pod is gone. *)
Definition leavingCount : nat → Z * error :=
  λ t, if (t <? 2)%nat then (3, None) else (2, None).

Definition drainingNode : NodeState :=
  {| node := withClusterSize 3 (withSelf (liveSet 2) handle);
     world := worldWith (liveSet 2) (scriptedEnv "green" leavingCount) |}.



(** * Properties *)

(** ** Integers *)

(** The decrement under the loop guard stays in range: on [int32] values
    [index - 1] is the mathematical difference. *)
Lemma decrement_does_not_wrap (index : Z) :
  0 < index < 2 ^ 31 → wrap32 (index - 1) = index - 1.
Proof.
  intros H. unfold wrap32.
  rewrite Z.mod_small; lia.
Qed.

(** ** Running a body: equations *)

Section Equations.
Context {S R : Type}.

Lemma bind_run {A B} (m : M S R A) (k : A → M S R B) (s : S) :
  bind m k s =
  match m s with
  | (Normal a, s') => k a s'
  | (Returned r, s') => (Returned r, s')
  | (Panic, s') => (Panic, s')
  end.
Proof. reflexivity. Qed.

End Equations.

Lemma inner_run {L S R A} (m : M S R A) (l : L) (s : S) :
  inner m (l, s) = ((m s).1, (l, (m s).2)).
Proof. unfold inner. simpl. by destruct (m s). Qed.

Lemma extern_run {R A} (op : World → A * World) (ns : NodeState) :
  extern (R:=R) op ns =
  (Normal (op (world ns)).1, {| node := node ns; world := (op (world ns)).2 |}).
Proof. unfold extern. by destruct (op (world ns)). Qed.

(** ** C5: [update] refuses to start on an unhealthy cluster *)

(** C5. When [update] is invoked on an idle status ([UnderUpgrade] not
    true) and the health oracle reports anything but ["green"], the call
    returns an error, the status (phase and [UnderUpgrade] included) and
    the handle are unchanged, and nothing was written: the store is the
    same, no write was logged, and the health oracle is the only
    collaborator that was called. *)
Theorem update_unhealthy_is_refused (R : Type) (u : UpgradeStatusT) (ns : NodeState) :
  UnderUpgrade u ≠ ConditionTrue →
  (healthStatus (env (world ns)) (now (world ns))).1 ≠ "green" →
  ∃ e ns',
    update (R:=R) (u, ns) = (Normal (Some e), (u, ns'))
    ∧ node ns' = node ns
    ∧ objects (world ns') = objects (world ns)
    ∧ revision (world ns') = revision (world ns)
    ∧ trace (world ns') = trace (world ns)
    ∧ now (world ns') = S (now (world ns)).
Proof.
  intros Hidle Hhealth.
  destruct (healthStatus (env (world ns)) (now (world ns))) as [status herr] eqn:Hh.
  simpl in Hhealth.
  eexists _, {| node := node ns; world := advance (world ns) |}.
  split; [|done].
  unfold update, call, update_start.
  rewrite !bind_run. unfold getLocal at 1. simpl.
  destruct (decide (UnderUpgrade u ≠ ConditionTrue)) as [_|]; [|done].
  rewrite !bind_run, inner_run, extern_run. simpl.
  unfold GetClusterHealthStatus. rewrite Hh. simpl.
  destruct (decide (status ≠ "green")) as [_|]; [|done].
  reflexivity.
Qed.

Lemma update_unhealthy_is_refused_witness :
  UnderUpgrade idleStatus ≠ ConditionTrue
  ∧ (healthStatus (env yellowWorld) (now yellowWorld)).1 ≠ "green"
  ∧ ∃ e ns',
      update (R:=unit) (idleStatus, {| node := handle; world := yellowWorld |})
        = (Normal (Some e), (idleStatus, ns'))
      ∧ node ns' = handle
      ∧ objects (world ns') = objects yellowWorld
      ∧ revision (world ns') = revision yellowWorld
      ∧ trace (world ns') = trace yellowWorld
      ∧ now (world ns') = S (now yellowWorld).
Proof.
  assert (H1 : UnderUpgrade idleStatus ≠ ConditionTrue) by (simpl; discriminate).
  assert (H2 : (healthStatus (env yellowWorld) (now yellowWorld)).1 ≠ "green")
    by (vm_compute; discriminate).
  split; [exact H1|]. split; [exact H2|].
  exact (update_unhealthy_is_refused unit idleStatus
           {| node := handle; world := yellowWorld |} H1 H2).
Defined.

(** ** The clock *)

Lemma advanceBy_0 w : advanceBy 0 w = w.
Proof. by destruct w. Qed.

Lemma advanceBy_advance k w : advanceBy k (advance w) = advanceBy (S k) w.
Proof. unfold advanceBy, advance. simpl. f_equal. lia. Qed.

Lemma elapse_0 ns : elapse 0 ns = ns.
Proof. destruct ns. unfold elapse. simpl. by rewrite advanceBy_0. Qed.

Lemma elapse_elapse_1 k ns : elapse k (elapse 1 ns) = elapse (S k) ns.
Proof. unfold elapse. simpl. f_equal. apply (advanceBy_advance k). Qed.

Lemma observedCount_elapse_1 ns i :
  observedCount (elapse 1 ns) i = observedCount ns (S i).
Proof. unfold observedCount. simpl. do 2 f_equal. lia. Qed.

(** ** Membership waits (C7, C8) *)

Lemma rejoinCondition_run ns :
  rejoinCondition ns =
  (Returned (bool_decide (clusterSize (node ns) ≤ observedCount ns 0), None),
   elapse 1 ns).
Proof.
  unfold rejoinCondition. rewrite bind_run, extern_run.
  unfold GetClusterNodeCount, observedCount. simpl.
  by destruct (nodeCount (env (world ns)) (now (world ns))).
Qed.

Lemma leaveCondition_run ns :
  leaveCondition ns =
  (Returned (bool_decide (clusterSize (node ns) > observedCount ns 0), None),
   elapse 1 ns).
Proof.
  unfold leaveCondition. rewrite bind_run, extern_run.
  unfold GetClusterNodeCount, observedCount. simpl.
  by destruct (nodeCount (env (world ns)) (now (world ns))).
Qed.

(** Polling a condition that compares the recorded cluster size with the
    count observed by one fetch and never reports an error. *)
Section Polling.
Context {R : Type}.
Variable condition : M NodeState (bool * error) (bool * error).
Variable good : Z → Z → bool.
Hypothesis condition_run : ∀ ns,
  condition ns =
  (Returned (good (clusterSize (node ns)) (observedCount ns 0), None), elapse 1 ns).

Lemma waitFor_step n ns :
  waitFor (R:=R) (S n) condition ns =
  if good (clusterSize (node ns)) (observedCount ns 0)
  then (Normal None, elapse 1 ns)
  else waitFor n condition (elapse 1 ns).
Proof.
  simpl. rewrite bind_run. unfold call. rewrite condition_run.
  by destruct (good _ _).
Qed.

Lemma waitFor_hit n i ns :
  (i < n)%nat →
  good (clusterSize (node ns)) (observedCount ns i) = true →
  (∀ j, (j < i)%nat → good (clusterSize (node ns)) (observedCount ns j) = false) →
  waitFor (R:=R) n condition ns = (Normal None, elapse (S i) ns).
Proof.
  revert i ns. induction n as [|n IH]; intros i ns Hi Hgood Hbefore; [lia|].
  rewrite waitFor_step. destruct i as [|i].
  - by rewrite Hgood.
  - rewrite (Hbefore 0%nat) by lia.
    rewrite (IH i) ; [by rewrite elapse_elapse_1 | lia | |].
    + by rewrite observedCount_elapse_1.
    + intros j Hj. rewrite observedCount_elapse_1. apply Hbefore. lia.
Qed.

Lemma waitFor_miss n ns :
  (∀ j, (j < n)%nat → good (clusterSize (node ns)) (observedCount ns j) = false) →
  waitFor (R:=R) n condition ns = (Normal (Some ErrWaitTimeout), elapse n ns).
Proof.
  revert ns. induction n as [|n IH]; intros ns Hmiss.
  - by rewrite elapse_0.
  - rewrite waitFor_step, (Hmiss 0%nat) by lia.
    rewrite IH; [by rewrite elapse_elapse_1|].
    intros j Hj. rewrite observedCount_elapse_1. apply Hmiss. lia.
Qed.

(** Attempts that miss are gone through one after the other. *)
Lemma waitFor_reaches n k ns :
  (k ≤ n)%nat →
  (∀ j, (j < k)%nat → good (clusterSize (node ns)) (observedCount ns j) = false) →
  waitFor (R:=R) n condition ns = waitFor (n - k) condition (elapse k ns).
Proof.
  revert n ns. induction k as [|k IH]; intros n ns Hk Hmiss.
  - by rewrite elapse_0, Nat.sub_0_r.
  - destruct n as [|n]; [lia|].
    rewrite waitFor_step, (Hmiss 0%nat) by lia.
    rewrite (IH n (elapse 1 ns)); [by rewrite elapse_elapse_1|lia|].
    intros j Hj. rewrite observedCount_elapse_1. apply Hmiss. lia.
Qed.

(** The poll ends with success, or with the timeout once every attempt
    has been made; there is no third way out. *)
Lemma waitFor_ends n ns :
  (∃ i, (i < n)%nat ∧ waitFor (R:=R) n condition ns = (Normal None, elapse (S i) ns))
  ∨ waitFor (R:=R) n condition ns = (Normal (Some ErrWaitTimeout), elapse n ns).
Proof.
  revert ns. induction n as [|n IH]; intros ns.
  - right. by rewrite elapse_0.
  - rewrite waitFor_step. destruct (good _ _).
    + left. exists 0%nat. split; [lia|done].
    + destruct (IH (elapse 1 ns)) as [(i & Hi & ->)| ->].
      * left. exists (S i). split; [lia|]. by rewrite elapse_elapse_1.
      * right. by rewrite elapse_elapse_1.
Qed.
End Polling.

Lemma waitForNodeRejoinCluster_of R ns err ns' :
  waitFor (R:=error * bool) 60 rejoinCondition ns = (Normal err, ns') →
  waitForNodeRejoinCluster (R:=R) ns = (Normal (err, isNil err), ns').
Proof.
  intros H. unfold waitForNodeRejoinCluster, call, Poll. rewrite bind_run.
  change (Second * 60 / (Second * 1))%nat with 60%nat. by rewrite H.
Qed.

Lemma waitForNodeLeaveCluster_of R ns err ns' :
  waitFor (R:=error * bool) 60 leaveCondition ns = (Normal err, ns') →
  waitForNodeLeaveCluster (R:=R) ns = (Normal (err, isNil err), ns').
Proof.
  intros H. unfold waitForNodeLeaveCluster, call, Poll. rewrite bind_run.
  change (Second * 60 / (Second * 1))%nat with 60%nat. by rewrite H.
Qed.

(** Either wait ends in one of two ways. *)
Lemma waitForNodeRejoinCluster_ends R ns :
  (∃ i, (i < 60)%nat
        ∧ waitForNodeRejoinCluster (R:=R) ns = (Normal (None, true), elapse (S i) ns))
  ∨ waitForNodeRejoinCluster (R:=R) ns
    = (Normal (Some ErrWaitTimeout, false), elapse 60 ns).
Proof.
  destruct (waitFor_ends (R:=error * bool) _ (λ a b, bool_decide (a ≤ b)) rejoinCondition_run 60 ns)
    as [(i & Hi & H)|H]; apply (waitForNodeRejoinCluster_of R) in H; eauto.
Qed.

Lemma waitForNodeLeaveCluster_ends R ns :
  (∃ i, (i < 60)%nat
        ∧ waitForNodeLeaveCluster (R:=R) ns = (Normal (None, true), elapse (S i) ns))
  ∨ waitForNodeLeaveCluster (R:=R) ns
    = (Normal (Some ErrWaitTimeout, false), elapse 60 ns).
Proof.
  destruct (waitFor_ends (R:=error * bool) _ (λ a b, bool_decide (a > b)) leaveCondition_run 60 ns)
    as [(i & Hi & H)|H]; apply (waitForNodeLeaveCluster_of R) in H; eauto.
Qed.

(** C7 as stated fails: a failed fetch can end a poll early.  Every fetch
    of the node count fails, handing back the count 0 with its error.  The
    closure of [waitForNodeLeaveCluster] ignores the error, finds 0 below the
    cluster size 3 and reports that it is done: the wait ends at the first of
    its 60 polls, with no error and [true]. *)
Lemma failed_fetch_ends_the_leave_wait :
  let ns := waitingNode 3 failingCount in
  (∀ t, nodeCount (env (world ns)) t = (0, Some (ErrCluster "connection refused")))
  ∧ leaveCondition ns = (Returned (true, None), elapse 1 ns)
  ∧ waitForNodeLeaveCluster (R:=unit) ns = (Normal (None, true), elapse 1 ns)
  ∧ waitForNodeLeaveCluster (R:=unit) ns
    ≠ (Normal (Some ErrWaitTimeout, false), elapse 60 ns).
Proof.
  intros ns. split; [done|]. split; [by rewrite leaveCondition_run|].
  assert (H : waitForNodeLeaveCluster (R:=unit) ns = (Normal (None, true), elapse 1 ns)).
  { apply (waitForNodeLeaveCluster_of unit ns None).
    by apply (waitFor_hit _ (λ a b, bool_decide (a > b)) leaveCondition_run 60 0);
      [lia| |intros j Hj; lia]. }
  split; [exact H|]. rewrite H. discriminate.
Qed.

(** C7, amended.  In both condition closures the error tested before the
    comparison is the closure's own named result, still nil: the branch that
    logs and returns the fetch error is never taken, and whatever the fetch
    reports the closure compares the count it was handed and returns no
    error.  Hence the error of a fetch is never reported by a wait: whenever
    a wait reports an error, it is the timeout, after all 60 polls.  A failed
    fetch is treated as a successful one: the poll at which the fetch fails
    handing back the count [c] ends the wait with success, no error and
    [true], as soon as [c] satisfies the comparison, at least the cluster
    size for [waitForNodeRejoinCluster] and below it for
    [waitForNodeLeaveCluster], and otherwise the wait goes on to the next
    poll; when every fetch fails with a count that does not satisfy the
    comparison, the wait ends with the timeout. *)
Theorem fetch_error_is_never_reported (R : Type) (ns : NodeState) :
  let size := clusterSize (node ns) in
  let fetched (i : nat) := nodeCount (env (world ns)) (i + now (world ns))%nat in
  (rejoinCondition ns
   = (Returned (bool_decide (size ≤ (fetched 0%nat).1), None), elapse 1 ns)
   ∧ leaveCondition ns
     = (Returned (bool_decide (size > (fetched 0%nat).1), None), elapse 1 ns))
  ∧ (∀ failure rejoined ns',
       waitForNodeRejoinCluster (R:=R) ns = (Normal (Some failure, rejoined), ns') →
       failure = ErrWaitTimeout ∧ rejoined = false ∧ ns' = elapse 60 ns)
  ∧ (∀ failure left ns',
       waitForNodeLeaveCluster (R:=R) ns = (Normal (Some failure, left), ns') →
       failure = ErrWaitTimeout ∧ left = false ∧ ns' = elapse 60 ns)
  ∧ (∀ i c e,
       (i < 60)%nat →
       fetched i = (c, Some e) →
       (∀ j, (j < i)%nat → (fetched j).1 < size) →
       (size ≤ c →
        waitForNodeRejoinCluster (R:=R) ns = (Normal (None, true), elapse (S i) ns))
       ∧ (c < size →
          waitFor (R:=error * bool) 60 rejoinCondition ns
          = waitFor (60 - S i) rejoinCondition (elapse (S i) ns)
          ∧ waitForNodeRejoinCluster (R:=R) ns
            ≠ (Normal (None, true), elapse (S i) ns)))
  ∧ (∀ i c e,
       (i < 60)%nat →
       fetched i = (c, Some e) →
       (∀ j, (j < i)%nat → size ≤ (fetched j).1) →
       (c < size →
        waitForNodeLeaveCluster (R:=R) ns = (Normal (None, true), elapse (S i) ns))
       ∧ (size ≤ c →
          waitFor (R:=error * bool) 60 leaveCondition ns
          = waitFor (60 - S i) leaveCondition (elapse (S i) ns)
          ∧ waitForNodeLeaveCluster (R:=R) ns
            ≠ (Normal (None, true), elapse (S i) ns)))
  ∧ ((∀ j, (j < 60)%nat → ∃ c e, fetched j = (c, Some e) ∧ c < size) →
     waitForNodeRejoinCluster (R:=R) ns
     = (Normal (Some ErrWaitTimeout, false), elapse 60 ns))
  ∧ ((∀ j, (j < 60)%nat → ∃ c e, fetched j = (c, Some e) ∧ size ≤ c) →
     waitForNodeLeaveCluster (R:=R) ns
     = (Normal (Some ErrWaitTimeout, false), elapse 60 ns)).
Proof.
  intros size fetched.
  assert (Hobs : ∀ i, observedCount ns i = (fetched i).1) by done.
  split; [split; [apply rejoinCondition_run|apply leaveCondition_run]|].
  split; [|split; [|split; [|split; [|split]]]].
  - intros failure rejoined ns' H.
    destruct (waitForNodeRejoinCluster_ends R ns) as [(i & _ & Hi)|Ht];
      rewrite H in *; simplify_eq; done.
  - intros failure left ns' H.
    destruct (waitForNodeLeaveCluster_ends R ns) as [(i & _ & Hi)|Ht];
      rewrite H in *; simplify_eq; done.
  - intros i c e Hi Hfetch Hbefore. split.
    + intros Hc. apply waitForNodeRejoinCluster_of.
      apply (waitFor_hit _ (λ a b, bool_decide (a ≤ b)) rejoinCondition_run); [done| |].
      * apply bool_decide_eq_true. rewrite Hobs, Hfetch. exact Hc.
      * intros j Hj. apply bool_decide_eq_false. rewrite Hobs.
        specialize (Hbefore j Hj). fold size. lia.
    + intros Hc.
      assert (Hmiss : ∀ j, (j < S i)%nat →
                bool_decide (clusterSize (node ns) ≤ observedCount ns j) = false).
      { intros j Hj. apply bool_decide_eq_false. rewrite Hobs. fold size.
        destruct (decide (j = i)) as [->|Hne].
        - rewrite Hfetch. simpl. lia.
        - specialize (Hbefore j ltac:(lia)). lia. }
      pose proof (waitFor_reaches (R:=error * bool) _ (λ a b, bool_decide (a ≤ b))
                    rejoinCondition_run 60 (S i) ns ltac:(lia) Hmiss) as Hgo.
      split; [exact Hgo|]. intros H.
      unfold waitForNodeRejoinCluster, call, Poll in H. rewrite bind_run in H.
      change (Second * 60 / (Second * 1))%nat with 60%nat in H.
      rewrite Hgo in H.
      destruct (waitFor_ends (R:=error * bool) _ (λ a b, bool_decide (a ≤ b))
                  rejoinCondition_run (60 - S i) (elapse (S i) ns))
        as [(k & Hk & Hend)|Hend]; rewrite Hend in H; simpl in H.
      * apply (f_equal (λ x, now (world x.2))) in H. simpl in H. lia.
      * discriminate H.
  - intros i c e Hi Hfetch Hbefore. split.
    + intros Hc. apply waitForNodeLeaveCluster_of.
      apply (waitFor_hit _ (λ a b, bool_decide (a > b)) leaveCondition_run); [done| |].
      * apply bool_decide_eq_true. rewrite Hobs, Hfetch. simpl. fold size. lia.
      * intros j Hj. apply bool_decide_eq_false. rewrite Hobs.
        specialize (Hbefore j Hj). fold size. lia.
    + intros Hc.
      assert (Hmiss : ∀ j, (j < S i)%nat →
                bool_decide (clusterSize (node ns) > observedCount ns j) = false).
      { intros j Hj. apply bool_decide_eq_false. rewrite Hobs. fold size.
        destruct (decide (j = i)) as [->|Hne].
        - rewrite Hfetch. simpl. lia.
        - specialize (Hbefore j ltac:(lia)). lia. }
      pose proof (waitFor_reaches (R:=error * bool) _ (λ a b, bool_decide (a > b))
                    leaveCondition_run 60 (S i) ns ltac:(lia) Hmiss) as Hgo.
      split; [exact Hgo|]. intros H.
      unfold waitForNodeLeaveCluster, call, Poll in H. rewrite bind_run in H.
      change (Second * 60 / (Second * 1))%nat with 60%nat in H.
      rewrite Hgo in H.
      destruct (waitFor_ends (R:=error * bool) _ (λ a b, bool_decide (a > b))
                  leaveCondition_run (60 - S i) (elapse (S i) ns))
        as [(k & Hk & Hend)|Hend]; rewrite Hend in H; simpl in H.
      * apply (f_equal (λ x, now (world x.2))) in H. simpl in H. lia.
      * discriminate H.
  - intros Hfail.
    apply (waitForNodeRejoinCluster_of R ns (Some ErrWaitTimeout)).
    apply (waitFor_miss _ (λ a b, bool_decide (a ≤ b)) rejoinCondition_run).
    intros j Hj. apply bool_decide_eq_false. rewrite Hobs.
    destruct (Hfail j Hj) as (c & e & -> & Hc). simpl. fold size. lia.
  - intros Hfail.
    apply (waitForNodeLeaveCluster_of R ns (Some ErrWaitTimeout)).
    apply (waitFor_miss _ (λ a b, bool_decide (a > b)) leaveCondition_run).
    intros j Hj. apply bool_decide_eq_false. rewrite Hobs.
    destruct (Hfail j Hj) as (c & e & -> & Hc). simpl. fold size. lia.
Qed.

Lemma fetch_error_is_never_reported_witness :
  let ns := waitingNode 3 failingCount in
  (0 < 60)%nat
  ∧ nodeCount (env (world ns)) (0 + now (world ns))%nat
    = (0, Some (ErrCluster "connection refused"))
  ∧ (∀ j, (j < 0)%nat →
          3 ≤ (nodeCount (env (world ns)) (j + now (world ns))%nat).1)
  ∧ 0 < 3
  ∧ waitForNodeLeaveCluster (R:=unit) ns = (Normal (None, true), elapse 1 ns).
Proof.
  intros ns.
  assert (H1 : (0 < 60)%nat) by lia.
  assert (H2 : nodeCount (env (world ns)) (0 + now (world ns))%nat
               = (0, Some (ErrCluster "connection refused"))) by reflexivity.
  assert (H3 : ∀ j, (j < 0)%nat →
                 3 ≤ (nodeCount (env (world ns)) (j + now (world ns))%nat).1)
    by (intros j Hj; lia).
  assert (H4 : 0 < 3) by lia.
  split; [exact H1|]. split; [exact H2|]. split; [exact H3|]. split; [exact H4|].
  exact (proj1 (proj1 (proj2 (proj2 (proj2 (proj2
           (fetch_error_is_never_reported unit ns)))))
                  0%nat 0 (ErrCluster "connection refused") H1 H2 H3) H4).
Defined.

(** C8. Both waits poll the node count once per second, 60 times at most.
    [waitForNodeRejoinCluster] succeeds, with no error and [true], at the
    first poll that observes at least [clusterSize] nodes;
    [waitForNodeLeaveCluster] at the first poll that observes fewer.  When
    none of the 60 polls succeeds, the result is the timeout error and
    [false]. *)
Theorem membership_waits (R : Type) (ns : NodeState) :
  let size := clusterSize (node ns) in
  (∀ i, (i < 60)%nat →
        size ≤ observedCount ns i →
        (∀ j, (j < i)%nat → observedCount ns j < size) →
        waitForNodeRejoinCluster (R:=R) ns = (Normal (None, true), elapse (S i) ns))
  ∧ ((∀ j, (j < 60)%nat → observedCount ns j < size) →
     waitForNodeRejoinCluster (R:=R) ns
     = (Normal (Some ErrWaitTimeout, false), elapse 60 ns))
  ∧ (∀ i, (i < 60)%nat →
          observedCount ns i < size →
          (∀ j, (j < i)%nat → size ≤ observedCount ns j) →
          waitForNodeLeaveCluster (R:=R) ns = (Normal (None, true), elapse (S i) ns))
  ∧ ((∀ j, (j < 60)%nat → size ≤ observedCount ns j) →
     waitForNodeLeaveCluster (R:=R) ns
     = (Normal (Some ErrWaitTimeout, false), elapse 60 ns)).
Proof.
  intros size. repeat split.
  - intros i Hi Hgood Hbefore.
    apply waitForNodeRejoinCluster_of.
    apply (waitFor_hit _ (λ a b, bool_decide (a ≤ b)) rejoinCondition_run); [done| |].
    + by apply bool_decide_eq_true.
    + intros j Hj. apply bool_decide_eq_false. specialize (Hbefore j Hj). fold size. lia.
  - intros Hmiss.
    apply (waitForNodeRejoinCluster_of R ns (Some ErrWaitTimeout)).
    apply (waitFor_miss _ (λ a b, bool_decide (a ≤ b)) rejoinCondition_run).
    intros j Hj. apply bool_decide_eq_false. specialize (Hmiss j Hj). fold size. lia.
  - intros i Hi Hgood Hbefore.
    apply waitForNodeLeaveCluster_of.
    apply (waitFor_hit _ (λ a b, bool_decide (a > b)) leaveCondition_run); [done| |].
    + apply bool_decide_eq_true. fold size. lia.
    + intros j Hj. apply bool_decide_eq_false. specialize (Hbefore j Hj). fold size. lia.
  - intros Hmiss.
    apply (waitForNodeLeaveCluster_of R ns (Some ErrWaitTimeout)).
    apply (waitFor_miss _ (λ a b, bool_decide (a > b)) leaveCondition_run).
    intros j Hj. apply bool_decide_eq_false. specialize (Hmiss j Hj). fold size. lia.
Qed.

Lemma membership_waits_witness :
  let rejoining := waitingNode 3 rejoiningCount in
  let stuck := waitingNode 3 (steadyCount 2) in
  let full := waitingNode 3 (steadyCount 3) in
  waitForNodeRejoinCluster (R:=unit) rejoining
  = (Normal (None, true), elapse 3 rejoining)
  ∧ waitForNodeRejoinCluster (R:=unit) stuck
    = (Normal (Some ErrWaitTimeout, false), elapse 60 stuck)
  ∧ waitForNodeLeaveCluster (R:=unit) rejoining
    = (Normal (None, true), elapse 1 rejoining)
  ∧ waitForNodeLeaveCluster (R:=unit) full
    = (Normal (Some ErrWaitTimeout, false), elapse 60 full).
Proof.
  intros rejoining stuck full.
  split; [|split; [|split]].
  - apply (proj1 (membership_waits unit rejoining) 2%nat); [lia|vm_compute; discriminate|].
    intros j Hj. destruct j as [|[|j]]; [reflexivity|reflexivity|lia].
  - apply (proj1 (proj2 (membership_waits unit stuck))).
    intros j Hj. reflexivity.
  - apply (proj1 (proj2 (proj2 (membership_waits unit rejoining))) 0%nat); [lia|reflexivity|].
    intros j Hj. lia.
  - apply (proj2 (proj2 (proj2 (membership_waits unit full)))).
    intros j Hj. vm_compute. discriminate.
Defined.

(** ** Reasoning about bodies *)

Section Triples.
Context {S R : Type}.

Lemma triple_ret {A} (P : S → Prop) (a : A) Qn (Qr : R → S → Prop) Qp :
  (∀ s, P s → Qn a s) → triple P (ret a) Qn Qr Qp.
Proof. intros H s Hs. by apply H. Qed.

Lemma triple_returnWith {A} (P : S → Prop) (r : R) (Qn : A → S → Prop) Qr Qp :
  (∀ s, P s → Qr r s) → triple P (returnWith r) Qn Qr Qp.
Proof. intros H s Hs. by apply H. Qed.

Lemma triple_bind {A B} (P : S → Prop) (m : M S R A) (k : A → M S R B)
  (Qm : A → S → Prop) Qn Qr Qp :
  triple P m Qm Qr Qp →
  (∀ a, triple (Qm a) (k a) Qn Qr Qp) →
  triple P (bind m k) Qn Qr Qp.
Proof.
  intros Hm Hk s Hs. specialize (Hm s Hs). unfold outcome in *.
  rewrite bind_run. destruct (m s) as [[a|r|] s']; simpl in *; [|done..].
  by apply Hk.
Qed.

Lemma triple_weaken {A} (P P' : S → Prop) (m : M S R A)
  (Qn Qn' : A → S → Prop) (Qr Qr' : R → S → Prop) (Qp Qp' : S → Prop) :
  triple P m Qn Qr Qp →
  (∀ s, P' s → P s) →
  (∀ a s, Qn a s → Qn' a s) →
  (∀ r s, Qr r s → Qr' r s) →
  (∀ s, Qp s → Qp' s) →
  triple P' m Qn' Qr' Qp'.
Proof.
  intros Hm HP Hn Hr Hp s Hs. specialize (Hm s (HP s Hs)). unfold outcome in *.
  destruct (m s) as [[a|r|] s']; simpl in *; eauto.
Qed.
End Triples.

Lemma triple_call {S R A} (P : S → Prop) (body : M S A A)
  (Q : A → S → Prop) (Qr : R → S → Prop) Qp :
  triple P body Q Q Qp → triple P (call (R:=R) body) Q Qr Qp.
Proof.
  intros H s Hs. specialize (H s Hs). unfold outcome, call in *.
  by destruct (body s) as [[a|a|] s'].
Qed.

Lemma triple_inner {L S R A} (P : S → Prop) (m : M S R A) Qn Qr Qp (J : L → Prop) :
  triple P m Qn Qr Qp →
  triple (λ ls, J ls.1 ∧ P ls.2) (inner m)
         (λ a ls, J ls.1 ∧ Qn a ls.2) (λ r ls, J ls.1 ∧ Qr r ls.2)
         (λ ls, J ls.1 ∧ Qp ls.2).
Proof.
  intros H [l s] [Hl Hs]. specialize (H s Hs). unfold outcome in *.
  rewrite inner_run. simpl in *. by destruct (m s) as [[a|r|] s'].
Qed.

Lemma triple_withLocal {L S R A} (P : S → Prop) (init : L) (m : M (L * S) R A)
  (Qn : A → S → Prop) (Qr : R → S → Prop) (Qp : S → Prop) :
  triple (λ ls, ls.1 = init ∧ P ls.2) m
         (λ a ls, Qn a ls.2) (λ r ls, Qr r ls.2) (λ ls, Qp ls.2) →
  triple P (withLocal init m) Qn Qr Qp.
Proof.
  intros H s Hs. specialize (H (init, s) (conj eq_refl Hs)).
  unfold outcome, withLocal in *. by destruct (m (init, s)) as [[a|r|] ls'].
Qed.

(** *** The retry loop *)

(** What one attempt must guarantee: success establishes [Q]; a failure is
    not the timeout sentinel and keeps the invariant [I]. *)
Section Retry.
Context {S : Type}.
Variable fn : M S error error.
Variables I Q Qp : S → Prop.
Let attempted (err : error) (s : S) : Prop :=
  match err with
  | None => Q s
  | Some e => e ≠ ErrWaitTimeout ∧ I s
  end.
Hypothesis fn_ok : triple I fn attempted attempted Qp.

Lemma retryCondition_run (last : error) (s : S) :
  retryCondition fn (last, s) =
  match fn s with
  | (Normal None, s') | (Returned None, s') => (Returned (true, None), (last, s'))
  | (Normal (Some e), s') | (Returned (Some e), s') =>
      if IsConflict e then (Returned (false, None), (Some e, s'))
      else (Returned (false, Some e), (last, s'))
  | (Panic, s') => (Panic, (last, s'))
  end.
Proof.
  unfold retryCondition. rewrite bind_run, inner_run. unfold call. simpl.
  destruct (fn s) as [[[e|]|[e|]|] s']; simpl; try destruct (IsConflict e); reflexivity.
Qed.

Lemma waitFor_retry {R} (n : nat) (last : error) (s : S) :
  I s →
  outcome
    (λ err ls,
       match err with
       | None => Q ls.2
       | Some e =>
           I ls.2 ∧ (e = ErrWaitTimeout → (n = 0%nat ∧ ls.1 = last) ∨ is_Some ls.1)
       end)
    (λ (_ : R) _, False)
    (λ ls, Qp ls.2)
    (waitFor n (retryCondition fn) (last, s)).
Proof.
  revert last s. induction n as [|n IH]; intros last s Hs.
  - unfold outcome. simpl. split; [done|]. intros _. by left.
  - simpl. rewrite bind_run. unfold call. rewrite retryCondition_run.
    specialize (fn_ok s Hs). unfold outcome, attempted in fn_ok.
    destruct (fn s) as [[[e|]|[e|]|] s']; simpl in *; try done.
    + destruct fn_ok as [Hne Hs']. destruct (IsConflict e).
      * specialize (IH (Some e) s' Hs'). unfold outcome in *.
        destruct (waitFor n _ _) as [[[e'|]|?|] ls']; simpl in *; try done.
        destruct IH as [HI Ht]. split; [done|]. intros ->.
        right. destruct Ht as [[_ ->]|]; eauto.
      * unfold outcome. simpl. split; [done|]. by intros ->.
    + destruct fn_ok as [Hne Hs']. destruct (IsConflict e).
      * specialize (IH (Some e) s' Hs'). unfold outcome in *.
        destruct (waitFor n _ _) as [[[e'|]|?|] ls']; simpl in *; try done.
        destruct IH as [HI Ht]. split; [done|]. intros ->.
        right. destruct Ht as [[_ ->]|]; eauto.
      * unfold outcome. simpl. split; [done|]. by intros ->.
Qed.

(** [RetryOnConflict] reports success only when an attempt succeeded. *)
Lemma RetryOnConflict_rule {R} (steps : nat) :
  (0 < steps)%nat →
  triple I (RetryOnConflict (R:=R) {| Steps := steps |} fn)
    (λ err s, match err with None => Q s | Some _ => I s end)
    (λ _ _, False) Qp.
Proof.
  intros Hsteps s Hs. unfold RetryOnConflict, call, withLocal, ExponentialBackoff.
  rewrite bind_run. simpl.
  pose proof (waitFor_retry (R:=error) steps None s Hs) as H. unfold outcome in *.
  destruct (waitFor steps _ _) as [[[e|]|?|] [last s']]; simpl in *; try done.
  destruct H as [HI Ht]. rewrite bind_run. simpl.
  destruct e; simpl; try done.
  destruct (Ht eq_refl) as [[? _]|[e' ->]]; [lia|done].
Qed.
End Retry.

(** ** The object API seen from the handle *)

(** Run the next statement of a body. *)
Ltac step := rewrite bind_run; rewrite ?inner_run; simpl.

(** The same, leaving the calls of the handle's own methods folded. *)
Ltac next :=
  rewrite bind_run; rewrite ?inner_run;
  cbn [fst snd getLocal setLocal getNode setNode ret returnWith deref panic node world].

Lemma clientGet_world namespace name w : (clientGet namespace name w).2 = advance w.
Proof.
  unfold clientGet. destruct (getFault _ _) as [[reason msg]|]; [done|].
  by destruct (objects w !! _).
Qed.

Lemma clientGet_found namespace name w o :
  (clientGet namespace name w).1 = inl o →
  getFault (env w) (now w) = None ∧ objects w !! (namespace, name) = Some o.
Proof.
  unfold clientGet. destruct (getFault _ _) as [[reason msg]|]; [done|].
  destruct (objects w !! _); [|done]. simpl. by intros [= ->].
Qed.

Lemma clientGet_ok namespace name w o :
  getFault (env w) (now w) = None →
  objects w !! (namespace, name) = Some o →
  clientGet namespace name w = (inl o, advance w).
Proof. intros Hf Ho. unfold clientGet. by rewrite Hf, Ho. Qed.

Lemma getIntoSelf_run R ns :
  getIntoSelf (R:=R) ns =
  match (clientGet (Namespace (self (node ns))) (Name (self (node ns))) (world ns)).1 with
  | inl o => (Normal None, {| node := withSelf o (node ns); world := advance (world ns) |})
  | inr e => (Normal (Some e), {| node := node ns; world := advance (world ns) |})
  end.
Proof.
  unfold getIntoSelf. rewrite !bind_run. simpl. rewrite bind_run, extern_run.
  rewrite clientGet_world. by destruct (clientGet _ _ _).1.
Qed.

Lemma getIntoFresh_run R ns :
  getIntoFresh (R:=R) ns =
  match (clientGet (Namespace (self (node ns))) (Name (self (node ns))) (world ns)).1 with
  | inl o => (Normal (o, None), {| node := node ns; world := advance (world ns) |})
  | inr e => (Normal (emptyStatefulSet, Some e),
              {| node := node ns; world := advance (world ns) |})
  end.
Proof.
  unfold getIntoFresh. rewrite !bind_run. simpl. rewrite bind_run, extern_run.
  rewrite clientGet_world. by destruct (clientGet _ _ _).1.
Qed.

Lemma updateSelf_run R ns :
  updateSelf (R:=R) ns =
  match clientUpdate (self (node ns)) (world ns) with
  | (inl o, w) => (Normal None, {| node := withSelf o (node ns); world := w |})
  | (inr e, w) => (Normal (Some e), {| node := node ns; world := w |})
  end.
Proof.
  unfold updateSelf. rewrite !bind_run. simpl. rewrite bind_run, extern_run.
  by destruct (clientUpdate _ _) as [[o|e] w].
Qed.

Lemma partition_run R ns :
  partition (R:=R) ns =
  match (clientGet (Namespace (self (node ns))) (Name (self (node ns))) (world ns)).1 with
  | inl o =>
      match Partition o with
      | Some p => (Normal (p, None), elapse 1 ns)
      | None => (Panic, elapse 1 ns)
      end
  | inr e => (Normal (-1, Some e), elapse 1 ns)
  end.
Proof.
  unfold partition, call. rewrite bind_run, getIntoFresh_run.
  destruct (clientGet _ _ _).1 as [o|e]; [|done].
  rewrite bind_run. by destruct (Partition o).
Qed.

Lemma replicaCount_run R ns :
  replicaCount (R:=R) ns =
  match (clientGet (Namespace (self (node ns))) (Name (self (node ns))) (world ns)).1 with
  | inl o => (Normal (StatusReplicas o, None), elapse 1 ns)
  | inr e => (Normal (-1, Some e), elapse 1 ns)
  end.
Proof.
  unfold replicaCount, call. rewrite bind_run, getIntoFresh_run.
  by destruct (clientGet _ _ _).1 as [o|e].
Qed.

(** One attempt of [setPartition], case by case. *)
Lemma setPartition_attempt_run p (l : Z) ns :
  setPartition_attempt p (l, ns) =
  match (clientGet (Namespace (self (node ns))) (Name (self (node ns))) (world ns)).1 with
  | inr e => (Returned (Some e), (l + 1, elapse 1 ns))
  | inl o =>
      match Partition o with
      | None => (Panic, (l + 1, {| node := withSelf o (node ns);
                                   world := advance (world ns) |}))
      | Some q =>
          if decide (q = p) then
            (Returned None, (l + 1, {| node := withSelf o (node ns);
                                       world := advance (world ns) |}))
          else
            match clientUpdate (withPartition (Some p) o) (advance (world ns)) with
            | (inl o', w) =>
                (Returned None, (l + 1, {| node := withSelf o' (node ns); world := w |}))
            | (inr e, w) =>
                (Returned (Some e),
                 (l + 1, {| node := withSelf (withPartition (Some p) o) (node ns);
                            world := w |}))
            end
      end
  end.
Proof.
  unfold setPartition_attempt. do 3 step. rewrite getIntoSelf_run.
  destruct (clientGet _ _ _).1 as [o|e]; simpl; [|done].
  do 2 step. destruct (Partition o) as [q|]; simpl; [|done].
  destruct (decide (q = p)); [done|].
  do 2 step. rewrite updateSelf_run. simpl.
  by destruct (clientUpdate _ _) as [[o'|e] w].
Qed.

Lemma setReplicaCount_attempt_run p (l : Z) ns :
  setReplicaCount_attempt p (l, ns) =
  match (clientGet (Namespace (self (node ns))) (Name (self (node ns))) (world ns)).1 with
  | inr e => (Returned (Some e), (l + 1, elapse 1 ns))
  | inl o =>
      match Replicas o with
      | None => (Panic, (l + 1, {| node := withSelf o (node ns);
                                   world := advance (world ns) |}))
      | Some q =>
          if decide (q = p) then
            (Returned None, (l + 1, {| node := withSelf o (node ns);
                                       world := advance (world ns) |}))
          else
            match clientUpdate (withReplicas (Some p) o) (advance (world ns)) with
            | (inl o', w) =>
                (Returned None, (l + 1, {| node := withSelf o' (node ns); world := w |}))
            | (inr e, w) =>
                (Returned (Some e),
                 (l + 1, {| node := withSelf (withReplicas (Some p) o) (node ns);
                            world := w |}))
            end
      end
  end.
Proof.
  unfold setReplicaCount_attempt. do 3 step. rewrite getIntoSelf_run.
  destruct (clientGet _ _ _).1 as [o|e]; simpl; [|done].
  do 2 step. destruct (Replicas o) as [q|]; simpl; [|done].
  destruct (decide (q = p)); [done|].
  do 2 step. rewrite updateSelf_run. simpl.
  by destruct (clientUpdate _ _) as [[o'|e] w].
Qed.

(** What [clientUpdate] does, case by case. *)
Lemma clientUpdate_cases o w :
  (∃ e, clientUpdate o w = (inr e, advance w) ∧ e ≠ ErrWaitTimeout)
  ∨ (∃ cur,
       objects w !! (Namespace o, Name o) = Some cur
       ∧ updateFault (env w) (now w) = None
       ∧ ResourceVersion o = ResourceVersion cur
       ∧ let o' := withStatusReplicas (StatusReplicas cur)
                     (withResourceVersion (nextVersion w) o) in
         clientUpdate o w = (inl o', logEvent (EvUpdate o') (commit o' (advance w)))).
Proof.
  unfold clientUpdate. destruct (updateFault _ _) as [[reason msg]|].
  { left. by eexists. }
  destruct (objects w !! _) as [cur|]; [|left; by eexists].
  destruct (decide _); [|left; by eexists].
  right. by exists cur.
Qed.

Lemma clientGet_error_not_timeout namespace name w e :
  (clientGet namespace name w).1 = inr e → e ≠ ErrWaitTimeout.
Proof.
  unfold clientGet. destruct (getFault _ _) as [[reason msg]|]; simpl.
  { by intros [= <-]. }
  destruct (objects w !! _); simpl; [done|]. by intros [= <-].
Qed.

Lemma setPartition_retried R p :
  setPartition (R:=R) p = retried (setPartition_attempt p).
Proof. reflexivity. Qed.

Lemma setReplicaCount_retried R p :
  setReplicaCount (R:=R) p = retried (setReplicaCount_attempt p).
Proof. reflexivity. Qed.

Lemma retried_rule {R} (attempt : M (Z * NodeState) error error)
  (I Q Qp : NodeState → Prop) :
  triple (λ ls, I ls.2) attempt
    (λ err ls, match err with None => Q ls.2 | Some e => e ≠ ErrWaitTimeout ∧ I ls.2 end)
    (λ err ls, match err with None => Q ls.2 | Some e => e ≠ ErrWaitTimeout ∧ I ls.2 end)
    (λ ls, Qp ls.2) →
  triple I (retried (R:=R) attempt)
    (λ err ns, match err with None => Q ns | Some _ => I ns end)
    (λ _ _, False) Qp.
Proof.
  intros Hattempt ns Hns.
  pose proof (RetryOnConflict_rule attempt (λ ls, I ls.2) (λ ls, Q ls.2) (λ ls, Qp ls.2)
                Hattempt (R:=error) 5 ltac:(lia) (-1, ns) Hns) as H.
  unfold retried, call, withLocal, outcome in *. rewrite bind_run.
  change {| Steps := 5 |} with DefaultRetry in H.
  destruct (RetryOnConflict DefaultRetry attempt (-1, ns)) as [[[e|]|?|] [l ns']];
    simpl in *; done.
Qed.

(** ** Partition and replica round trips (C4) *)

Lemma storeOK_advance w : storeOK w → storeOK (advance w).
Proof. done. Qed.

Lemma storeOK_commit o w : storeOK w → storeOK (logEvent (EvUpdate o) (commit o w)).
Proof.
  intros Hw k o' Hk. unfold storeOK in Hw. simpl in Hk.
  destruct (decide (k = (Namespace o, Name o))) as [->|Hne].
  - rewrite lookup_insert_eq in Hk. by simplify_eq.
  - rewrite lookup_insert_ne in Hk by done. by apply Hw.
Qed.

(** On a well-formed store: success means the partition is stored; and
    when the stored object carries a partition ([G] granted), no attempt
    dereferences nil. *)
Lemma setPartition_sets_or_panics R p (G : Prop) :
  triple (λ ns, storeOK (world ns) ∧ (G → liveHasPartition ns))
    (setPartition (R:=R) p)
    (λ err ns, storeOK (world ns) ∧ (err = None → livePartition ns p))
    (λ _ _, False) (λ _, ¬ G).
Proof.
  rewrite setPartition_retried.
  eapply triple_weaken;
    [apply (retried_rule _ (λ ns, storeOK (world ns) ∧ (G → liveHasPartition ns))
              (λ ns, storeOK (world ns) ∧ livePartition ns p) (λ _, ¬ G))
    |done| |done|done].
  2:{ intros [e|] ns H; [by destruct H|]. by destruct H. }
  intros [l ns] [Hns HG]. simpl in Hns, HG. unfold outcome.
  rewrite setPartition_attempt_run.
  destruct (clientGet _ _ _).1 as [o|e] eqn:Hget; simpl.
  2:{ split; [by eapply clientGet_error_not_timeout|done]. }
  apply clientGet_found in Hget as [_ Ho].
  pose proof (Hns _ _ Ho) as Hkey.
  destruct (Partition o) as [q|] eqn:Hq; simpl.
  2:{ intros HG'. destruct (HG HG') as (o' & Ho' & [q Hq']).
      unfold keyOf in Ho'. rewrite Ho in Ho'. by simplify_eq. }
  destruct (decide (q = p)) as [->|Hne]; simpl.
  { split; [done|]. exists o. unfold keyOf. simpl. by rewrite <- Hkey. }
  destruct (clientUpdate_cases (withPartition (Some p) o) (advance (world ns)))
    as [(e & -> & He)|(cur & Hcur & _ & _ & ->)]; simpl.
  { split; [done|]. split; [done|]. intros HG'.
    exists o. unfold keyOf. simpl. rewrite <- Hkey. by rewrite Hq. }
  split; [by apply storeOK_commit|].
  eexists. unfold keyOf. simpl. split; [apply lookup_insert_eq|done].
Qed.

Lemma setPartition_sets R p :
  triple (λ ns, storeOK (world ns)) (setPartition (R:=R) p)
    (λ err ns, storeOK (world ns) ∧ (err = None → livePartition ns p))
    (λ _ _, False) (λ _, True).
Proof.
  eapply triple_weaken; [apply (setPartition_sets_or_panics R p False)| | | |]; try done.
Qed.

(** On any store: at most one update is written, it carries [p], and the
    fields of the handle other than [self] are left alone. *)
Lemma setPartition_frame R p (t0 : list Event) (n0 : statefulSetNode) (ev : Env) :
  let kept ns :=
    env (world ns) = ev ∧ withSelf (self n0) (node ns) = n0 in
  triple (λ ns, kept ns ∧ trace (world ns) = t0)
    (setPartition (R:=R) p)
    (λ _ ns, kept ns ∧ wroteAtMost t0 p (world ns))
    (λ _ _, False)
    (λ ns, kept ns ∧ wroteAtMost t0 p (world ns)).
Proof.
  intros kept. rewrite setPartition_retried.
  eapply triple_weaken;
    [apply (retried_rule _ (λ ns, kept ns ∧ trace (world ns) = t0)
              (λ ns, kept ns ∧ wroteAtMost t0 p (world ns))
              (λ ns, kept ns ∧ wroteAtMost t0 p (world ns)))
    |done| |done|done].
  2:{ intros [e|] ns H; [|done]. destruct H as [? ?]. split; [done|by left]. }
  intros [l ns] [[Hev Hn] Ht]. simpl in Hev, Hn, Ht. unfold outcome, kept.
  rewrite setPartition_attempt_run.
  destruct (clientGet _ _ _).1 as [o|e] eqn:Hget; simpl.
  2:{ split; [by eapply clientGet_error_not_timeout|done]. }
  destruct (Partition o) as [q|] eqn:Hq; simpl.
  2:{ repeat split; try done. by left. }
  destruct (decide (q = p)) as [->|Hne]; simpl.
  { repeat split; try done. by left. }
  destruct (clientUpdate_cases (withPartition (Some p) o) (advance (world ns)))
    as [(e & -> & He)|(cur & Hcur & _ & _ & ->)]; simpl.
  { done. }
  repeat split; try done. right. eexists. split; [simpl; by rewrite Ht|done].
Qed.

Lemma setReplicaCount_sets R r (replicasSeen : Z) :
  triple
    (λ ns, storeOK (world ns) ∧ liveStatusReplicas ns = Some replicasSeen)
    (setReplicaCount (R:=R) r)
    (λ err ns, err = None →
               liveReplicas ns r ∧ liveStatusReplicas ns = Some replicasSeen)
    (λ _ _, False) (λ _, True).
Proof.
  rewrite setReplicaCount_retried.
  eapply triple_weaken;
    [apply (retried_rule _
              (λ ns, storeOK (world ns) ∧ liveStatusReplicas ns = Some replicasSeen)
              (λ ns, liveReplicas ns r ∧ liveStatusReplicas ns = Some replicasSeen)
              (λ _, True))
    |done| |done|done].
  2:{ by intros [e|] ns H. }
  intros [l ns] [Hns Hseen]. simpl in Hns, Hseen. unfold outcome.
  rewrite setReplicaCount_attempt_run.
  destruct (clientGet _ _ _).1 as [o|e] eqn:Hget; simpl.
  2:{ split; [by eapply clientGet_error_not_timeout|done]. }
  apply clientGet_found in Hget as [_ Ho].
  pose proof (Hns _ _ Ho) as Hkey.
  assert (Hso : StatusReplicas o = replicasSeen).
  { unfold liveStatusReplicas, keyOf in Hseen. rewrite Ho in Hseen. by simplify_eq/=. }
  destruct (Replicas o) as [q|] eqn:Hq; simpl; [|done].
  destruct (decide (q = r)) as [->|Hne]; simpl.
  { unfold liveReplicas, liveStatusReplicas, keyOf. simpl. rewrite <- Hkey, Ho.
    split; [by exists o|by rewrite <- Hso]. }
  destruct (clientUpdate_cases (withReplicas (Some r) o) (advance (world ns)))
    as [(e & -> & He)|(cur & Hcur & _ & _ & ->)]; simpl.
  { split; [done|]. split; [done|].
    unfold liveStatusReplicas, keyOf. simpl. rewrite <- Hkey, Ho. by rewrite <- Hso. }
  simpl in Hcur. rewrite <- Hkey, Ho in Hcur. simplify_eq.
  unfold liveReplicas, liveStatusReplicas, keyOf. simpl.
  rewrite lookup_insert_eq. split; [by eexists|done].
Qed.

Lemma withSelf_self n : withSelf (self n) n = n.
Proof. by destruct n. Qed.

Lemma partition_of_live R ns p :
  getFault (env (world ns)) (now (world ns)) = None →
  livePartition ns p →
  partition (R:=R) ns = (Normal (p, None), elapse 1 ns).
Proof.
  intros Hf (o & Ho & Hp). rewrite partition_run.
  unfold keyOf in Ho. rewrite (clientGet_ok _ _ _ o Hf Ho). simpl. by rewrite Hp.
Qed.

Lemma replicaCount_of_live R ns seen :
  getFault (env (world ns)) (now (world ns)) = None →
  liveStatusReplicas ns = Some seen →
  replicaCount (R:=R) ns = (Normal (seen, None), elapse 1 ns).
Proof.
  intros Hf Hs. rewrite replicaCount_run. unfold liveStatusReplicas, keyOf in Hs.
  destruct (objects (world ns) !! _) as [o|] eqn:Ho; [|done].
  rewrite (clientGet_ok _ _ _ o Hf Ho). by simplify_eq/=.
Qed.

(** C4 as stated fails for the replica count: on the healthy node group
    (three replicas requested, three reported) [setReplicaCount 5] succeeds
    and stores five requested replicas, yet [replicaCount] still answers 3,
    because it reads [Status.Replicas]. *)
Lemma replica_round_trip_fails :
  ∃ ns1 ns2,
    setReplicaCount (R:=unit) 5 healthyNode = (Normal None, ns1)
    ∧ objects (world ns1) !! ("logging", "es")
      = Some {| Name := "es"; Namespace := "logging"; ResourceVersion := "2";
                Replicas := Some 5; Template := podTemplate;
                Partition := Some 0; StatusReplicas := 3 |}
    ∧ replicaCount (R:=unit) ns1 = (Normal (3, None), ns2)
    ∧ 3 ≠ 5.
Proof.
  eexists _, _. split; [vm_compute; reflexivity|].
  split; [vm_compute; reflexivity|]. split; [vm_compute; reflexivity|]. lia.
Qed.

(** C4, amended.  On a store that keeps every object under its own name:
    once [setPartition n] has succeeded and the next read is answered,
    [partition] returns [n].  [setReplicaCount n] stores [n] as the
    requested replica count [Spec.Replicas], whereas [replicaCount] returns
    the reported count [Status.Replicas], which the write leaves as it was. *)
Theorem partition_round_trip (R : Type) (n : Z) (ns ns1 : NodeState) :
  storeOK (world ns) →
  getFault (env (world ns1)) (now (world ns1)) = None →
  (setPartition (R:=R) n ns = (Normal None, ns1) →
   partition (R:=R) ns1 = (Normal (n, None), elapse 1 ns1))
  ∧ (∀ seen,
       liveStatusReplicas ns = Some seen →
       setReplicaCount (R:=R) n ns = (Normal None, ns1) →
       liveReplicas ns1 n
       ∧ replicaCount (R:=R) ns1 = (Normal (seen, None), elapse 1 ns1)).
Proof.
  intros Hstore Hfault. split.
  - intros Hset. pose proof (setPartition_sets R n ns Hstore) as H.
    unfold outcome in H. rewrite Hset in H. simpl in H.
    apply partition_of_live; [done|]. by apply H.
  - intros seen Hseen Hset.
    pose proof (setReplicaCount_sets R n seen ns (conj Hstore Hseen)) as H.
    unfold outcome in H. rewrite Hset in H. simpl in H.
    destruct (H eq_refl) as [Hlive Hseen']. split; [done|].
    by apply replicaCount_of_live.
Qed.

Lemma storeOK_worldWith live e : storeOK (worldWith live e).
Proof.
  intros k o Hk. unfold worldWith in Hk. simpl in Hk.
  apply lookup_singleton_Some in Hk as [<- <-]. done.
Qed.

Lemma partition_round_trip_witness :
  let ns1 := (setPartition (R:=unit) 2 healthyNode).2 in
  let ns2 := (setReplicaCount (R:=unit) 5 healthyNode).2 in
  storeOK (world healthyNode)
  ∧ getFault (env (world ns1)) (now (world ns1)) = None
  ∧ setPartition (R:=unit) 2 healthyNode = (Normal None, ns1)
  ∧ partition (R:=unit) ns1 = (Normal (2, None), elapse 1 ns1)
  ∧ liveStatusReplicas healthyNode = Some 3
  ∧ setReplicaCount (R:=unit) 5 healthyNode = (Normal None, ns2)
  ∧ liveReplicas ns2 5
  ∧ replicaCount (R:=unit) ns2 = (Normal (3, None), elapse 1 ns2).
Proof.
  intros ns1 ns2.
  assert (Hstore : storeOK (world healthyNode)) by apply storeOK_worldWith.
  assert (Hf1 : getFault (env (world ns1)) (now (world ns1)) = None) by reflexivity.
  assert (Hf2 : getFault (env (world ns2)) (now (world ns2)) = None) by reflexivity.
  assert (Hset1 : setPartition (R:=unit) 2 healthyNode = (Normal None, ns1))
    by (vm_compute; reflexivity).
  assert (Hseen : liveStatusReplicas healthyNode = Some 3) by (vm_compute; reflexivity).
  assert (Hset2 : setReplicaCount (R:=unit) 5 healthyNode = (Normal None, ns2))
    by (vm_compute; reflexivity).
  split; [exact Hstore|]. split; [exact Hf1|]. split; [exact Hset1|].
  split; [exact (proj1 (partition_round_trip unit 2 healthyNode ns1 Hstore Hf1) Hset1)|].
  split; [exact Hseen|]. split; [exact Hset2|].
  exact (proj2 (partition_round_trip unit 5 healthyNode ns2 Hstore Hf2) 3 Hseen Hset2).
Defined.

(** ** Starting an upgrade (C2, C10) *)

(** What [setPartition] leaves behind when the stored object carries a
    partition: no panic, the recorded cluster size is kept, and success
    means the partition is stored. *)
Lemma setPartition_result R p ns :
  storeOK (world ns) →
  liveHasPartition ns →
  ∃ err ns',
    setPartition (R:=R) p ns = (Normal err, ns')
    ∧ clusterSize (node ns') = clusterSize (node ns)
    ∧ (err = None → livePartition ns' p).
Proof.
  intros Hstore Hlive.
  pose proof (setPartition_sets_or_panics R p True ns (conj Hstore (λ _, Hlive))) as H1.
  pose proof (setPartition_frame R p (trace (world ns)) (node ns) (env (world ns)) ns) as H2.
  unfold outcome in *. simpl in H2. rewrite withSelf_self in H2.
  specialize (H2 ltac:(done)).
  destruct (setPartition p ns) as [[err|?|] ns']; simpl in *; [|done|by destruct H1].
  exists err, ns'. split; [done|]. destruct H1 as [_ H1]. destruct H2 as [[_ Hn] _].
  split; [|done]. by rewrite <- Hn.
Qed.

Lemma rollingRestart_start_not_green u ns :
  UnderUpgrade u ≠ ConditionTrue →
  (healthStatus (env (world ns)) (now (world ns))).1 ≠ "green" →
  rollingRestart_start (u, ns) = (Returned tt, (u, elapse 1 ns)).
Proof.
  intros Hidle Hhealth. unfold rollingRestart_start. next.
  destruct (decide (UnderUpgrade u ≠ ConditionTrue)) as [_|]; [|done].
  next. rewrite extern_run. unfold GetClusterHealthStatus. simpl.
  destruct (healthStatus _ _) as [status herr]. simpl in *.
  by destruct (decide (status ≠ "green")).
Qed.

(** C2 as stated fails: on the idle node group whose cluster reports
    yellow, with every fetch and write ready to succeed, [rollingRestart]
    returns without starting: [UnderUpgrade] is not set, [clusterSize] is
    not captured and nothing is written. *)
Lemma rollingRestart_waits_for_green :
  UnderUpgrade idleStatus ≠ ConditionTrue
  ∧ rollingRestart (R:=unit) (idleStatus, yellowNode)
    = (Normal tt, (idleStatus, elapse 1 yellowNode))
  ∧ UnderUpgrade (rollingRestart (R:=unit) (idleStatus, yellowNode)).2.1 ≠ ConditionTrue
  ∧ clusterSize (node (rollingRestart (R:=unit) (idleStatus, yellowNode)).2.2) = 0
  ∧ trace (world (rollingRestart (R:=unit) (idleStatus, yellowNode)).2.2) = [].
Proof.
  split; [done|]. split; [vm_compute; reflexivity|].
  split; [vm_compute; discriminate|]. split; vm_compute; reflexivity.
Qed.

(** C2, amended.  [rollingRestart] starts an upgrade only on a cluster
    that reports green.  Invoked with [UnderUpgrade] not true: if the health
    is not ["green"], it returns and changes neither the status nor the
    handle nor the store; if the health is ["green"], the node count and
    the stored object are fetched without error and the object carries a
    partition, then it records the node count as [clusterSize], calls
    [setPartition] with the reported replica count (an error of that call
    is only logged) and sets [UnderUpgrade] to true. *)
Theorem rollingRestart_starts_when_green (u : UpgradeStatusT) (ns : NodeState) :
  UnderUpgrade u ≠ ConditionTrue →
  ((healthStatus (env (world ns)) (now (world ns))).1 ≠ "green" →
   rollingRestart (R:=unit) (u, ns) = (Normal tt, (u, elapse 1 ns)))
  ∧ (∀ size o,
       (healthStatus (env (world ns)) (now (world ns))).1 = "green" →
       nodeCount (env (world ns)) (S (now (world ns))) = (size, None) →
       getFault (env (world ns)) (S (S (now (world ns)))) = None →
       storeOK (world ns) →
       objects (world ns) !! keyOf (node ns) = Some o →
       is_Some (Partition o) →
       ∃ err ns',
         setPartition (R:=unit) (StatusReplicas o)
           {| node := withClusterSize size (node ns); world := advanceBy 3 (world ns) |}
         = (Normal err, ns')
         ∧ rollingRestart_start (u, ns)
           = (Normal tt, (withUnderUpgrade ConditionTrue u, ns'))
         ∧ clusterSize (node ns') = size
         ∧ (err = None → livePartition ns' (StatusReplicas o))).
Proof.
  intros Hidle. split.
  - intros Hhealth. unfold rollingRestart, call. rewrite bind_run.
    by rewrite rollingRestart_start_not_green.
  - intros size o Hgreen Hcount Hfault Hstore Ho Hpart.
    destruct (setPartition_result unit (StatusReplicas o)
                {| node := withClusterSize size (node ns);
                   world := advanceBy 3 (world ns) |})
      as (err & ns' & Hset & Hsize & Hlive); [done| |].
    { exists o. done. }
    exists err, ns'. split; [done|]. split; [|done].
    unfold rollingRestart_start. next.
    destruct (decide (UnderUpgrade u ≠ ConditionTrue)) as [_|]; [|done].
    next. rewrite extern_run. unfold GetClusterHealthStatus. simpl.
    destruct (healthStatus _ _) as [status herr]. simpl in Hgreen. subst status. simpl.
    next. rewrite extern_run. unfold GetClusterNodeCount. simpl. rewrite Hcount. simpl.
    do 2 next. rewrite replicaCount_run. simpl.
    unfold keyOf in Ho.
    rewrite (clientGet_ok _ _ (advance (advance (world ns))) o Hfault Ho). simpl.
    next.
    change (elapse 1 _) with {| node := withClusterSize size (node ns);
                                world := advanceBy 3 (world ns) |}.
    rewrite Hset. reflexivity.
Qed.

Lemma rollingRestart_starts_when_green_witness :
  UnderUpgrade idleStatus ≠ ConditionTrue
  ∧ rollingRestart (R:=unit) (idleStatus, yellowNode)
    = (Normal tt, (idleStatus, elapse 1 yellowNode))
  ∧ ∃ (err : error) ns',
      rollingRestart_start (idleStatus, healthyNode)
      = (Normal tt, (withUnderUpgrade ConditionTrue idleStatus, ns'))
      ∧ clusterSize (node ns') = 3
      ∧ (err = None → livePartition ns' 3).
Proof.
  assert (Hidle : UnderUpgrade idleStatus ≠ ConditionTrue) by done.
  split; [exact Hidle|]. split.
  - apply (proj1 (rollingRestart_starts_when_green idleStatus yellowNode Hidle)).
    vm_compute. discriminate.
  - destruct (proj2 (rollingRestart_starts_when_green idleStatus healthyNode Hidle)
                3 (liveSet 0))
      as (err & ns' & _ & Hstart & Hsize & Hlive).
    + reflexivity.
    + reflexivity.
    + reflexivity.
    + apply storeOK_worldWith.
    + reflexivity.
    + by eexists.
    + exists err, ns'. done.
Defined.

(** C10.  When [update] is invoked on an idle status, the health is
    ["green"] and the fetch of the node count fails, the start step goes on:
    [clusterSize] becomes the value the failed fetch returned, and, the
    stored object being fetched without error and carrying a partition,
    [UnderUpgrade] is set to true and control falls through to the phase
    blocks.  In the same state [rollingRestart] returns at once, with the
    status and the handle untouched. *)
Theorem update_start_ignores_count_error (u : UpgradeStatusT) (ns : NodeState)
  (returned : Z) (failure : err) :
  UnderUpgrade u ≠ ConditionTrue →
  (healthStatus (env (world ns)) (now (world ns))).1 = "green" →
  nodeCount (env (world ns)) (S (now (world ns))) = (returned, Some failure) →
  clusterSize (node (update_start (u, ns)).2.2) = returned
  ∧ (∀ o,
       getFault (env (world ns)) (S (S (now (world ns)))) = None →
       storeOK (world ns) →
       objects (world ns) !! keyOf (node ns) = Some o →
       is_Some (Partition o) →
       ∃ ns',
         update_start (u, ns) = (Normal tt, (withUnderUpgrade ConditionTrue u, ns'))
         ∧ clusterSize (node ns') = returned)
  ∧ rollingRestart (R:=unit) (u, ns) = (Normal tt, (u, elapse 2 ns)).
Proof.
  intros Hidle Hgreen Hcount.
  assert (Hrun : update_start (u, ns) =
    bind (inner (replicaCount (R:=error)))
      (λ x, match x.2 with
            | Some _ =>
                n ← inner getNode;
                returnWith (Some (Errorf
                  "Unable to get number of replicas prior to restart for %v"
                  [VStr (name n)]))
            | None =>
                _ ← inner (setPartition x.1);
                modifyStatus (withUnderUpgrade ConditionTrue)
            end)
      (u, {| node := withClusterSize returned (node ns);
             world := advance (advance (world ns)) |})).
  { unfold update_start. next.
    destruct (decide (UnderUpgrade u ≠ ConditionTrue)) as [_|]; [|done].
    next. rewrite extern_run. unfold GetClusterHealthStatus. simpl.
    destruct (healthStatus _ _) as [status herr]. simpl in Hgreen. subst status. simpl.
    next. rewrite extern_run. unfold GetClusterNodeCount. simpl. rewrite Hcount. simpl.
    next. rewrite !bind_run. rewrite !inner_run. simpl.
    by destruct (replicaCount _) as [[[? [?|]]|?|] ?]. }
  split; [|split].
  - rewrite Hrun. next. rewrite replicaCount_run.
    destruct (clientGet _ _ _).1 as [o|e]; simpl; [|done].
    next.
    pose proof (setPartition_frame error (StatusReplicas o)
                  (trace (world ns)) (withClusterSize returned (node ns))
                  (env (world ns))
                  (elapse 1 {| node := withClusterSize returned (node ns);
                               world := advance (advance (world ns)) |})) as H.
    unfold outcome in H. simpl in H. specialize (H ltac:(by destruct (node ns))).
    destruct (setPartition _ _) as [[err|?|] ns']; simpl in *; [|done|].
    + destruct H as [[_ Hn] _]. apply (f_equal clusterSize) in Hn. by simpl in Hn.
    + destruct H as [[_ Hn] _]. apply (f_equal clusterSize) in Hn. by simpl in Hn.
  - intros o Hfault Hstore Ho Hpart.
    destruct (setPartition_result error (StatusReplicas o)
                {| node := withClusterSize returned (node ns);
                   world := advanceBy 3 (world ns) |})
      as (err & ns' & Hset & Hsize & _); [done| |].
    { exists o. done. }
    exists ns'. split; [|done].
    rewrite Hrun. next. rewrite replicaCount_run. simpl.
    unfold keyOf in Ho.
    rewrite (clientGet_ok _ _ (advance (advance (world ns))) o Hfault Ho). simpl.
    next.
    change (elapse 1 _) with {| node := withClusterSize returned (node ns);
                                world := advanceBy 3 (world ns) |}.
    rewrite Hset. reflexivity.
  - unfold rollingRestart, call. rewrite bind_run.
    unfold rollingRestart_start. next.
    destruct (decide (UnderUpgrade u ≠ ConditionTrue)) as [_|]; [|done].
    next. rewrite extern_run. unfold GetClusterHealthStatus. simpl.
    destruct (healthStatus _ _) as [status herr]. simpl in Hgreen. subst status. simpl.
    next. rewrite extern_run. unfold GetClusterNodeCount. simpl. rewrite Hcount. simpl.
    reflexivity.
Qed.

Lemma update_start_ignores_count_error_witness :
  UnderUpgrade idleStatus ≠ ConditionTrue
  ∧ (healthStatus (env (world countlessNode)) (now (world countlessNode))).1 = "green"
  ∧ nodeCount (env (world countlessNode)) (S (now (world countlessNode)))
    = (0, Some (ErrCluster "connection refused"))
  ∧ (∃ ns',
       update_start (idleStatus, countlessNode)
       = (Normal tt, (withUnderUpgrade ConditionTrue idleStatus, ns'))
       ∧ clusterSize (node ns') = 0)
  ∧ rollingRestart (R:=unit) (idleStatus, countlessNode)
    = (Normal tt, (idleStatus, elapse 2 countlessNode)).
Proof.
  assert (Hidle : UnderUpgrade idleStatus ≠ ConditionTrue) by done.
  assert (Hgreen : (healthStatus (env (world countlessNode))
                      (now (world countlessNode))).1 = "green") by reflexivity.
  assert (Hcount : nodeCount (env (world countlessNode)) (S (now (world countlessNode)))
                   = (0, Some (ErrCluster "connection refused"))) by reflexivity.
  split; [exact Hidle|]. split; [exact Hgreen|]. split; [exact Hcount|].
  destruct (update_start_ignores_count_error idleStatus countlessNode 0 _
              Hidle Hgreen Hcount) as (_ & Hgo & Hrolling).
  split; [|exact Hrolling].
  apply (Hgo (liveSet 0)).
  - reflexivity.
  - apply storeOK_worldWith.
  - reflexivity.
  - by eexists.
Defined.

(** ** The phase only moves forward (C1) *)

Lemma phase_advance_table p q :
  phase_advance p q ↔
  match p, q with
  | PhaseEmpty, _ => True
  | ControllerUpdated, PhaseEmpty => False
  | ControllerUpdated, _ => True
  | NodeRestarting, (PhaseEmpty) => False
  | NodeRestarting, _ => True
  | RecoveringData, (RecoveringData | ControllerUpdated) => True
  | RecoveringData, _ => False
  end.
Proof.
  split.
  - induction 1 as [p|p Hs|p q r Hs Hq _ IH].
    + by destruct p.
    + by destruct p.
    + by destruct Hs, r.
  - destruct p, q; intros H; try done; try apply advance_stay.
    all: repeat first
      [ apply advance_stay
      | apply advance_last; by constructor
      | eapply advance_on; [by constructor|done|] ].
Qed.

(** The status is out of reach of the handle's own methods. *)
Lemma inner_keeps_status {R A} (m : M NodeState R A) (J : UpgradeStatusT → Prop) :
  triple (λ s : ES, J s.1) (inner m)
    (λ _ s, J s.1) (λ _ s, J s.1) (λ s, J s.1).
Proof.
  eapply triple_weaken;
    [apply (triple_inner (λ _, True) m (λ _ _, True) (λ _ _, True) (λ _, True) J)
    | | | |]; simpl; try tauto.
  intros s _. unfold outcome. by destruct (m s) as [[?|?|] ?].
Qed.

Lemma inner_keeps_phase {R A} (m : M NodeState R A) (p : UpgradePhaseT) :
  triple (λ s : ES, UpgradePhase s.1 = p) (inner m)
    (λ _ s, UpgradePhase s.1 = p) (λ _ s, UpgradePhase s.1 = p)
    (λ s, UpgradePhase s.1 = p).
Proof. apply (inner_keeps_status m (λ u, UpgradePhase u = p)). Qed.

Lemma modifyStatus_run {R} f (u : UpgradeStatusT) (ns : NodeState) :
  modifyStatus (R:=R) f (u, ns) = (Normal tt, (f u, ns)).
Proof. reflexivity. Qed.

(** A block that only calls methods of the handle and may set
    [UnderUpgrade] leaves the phase alone. *)
Ltac keep_phase :=
  repeat first
    [ apply triple_ret; by intros
    | apply triple_returnWith; by intros
    | apply inner_keeps_phase
    | eapply triple_bind; [apply inner_keeps_phase|intros ?]
    | match goal with
      | |- triple _ (match ?x with _ => _ end) _ _ _ => destruct x
      end ].

Lemma triple_use {S R A} (P : S → Prop) (m : M S R A) Qn Qr Qp s :
  triple P m Qn Qr Qp → P s → outcome Qn Qr Qp (m s).
Proof. intros H. apply H. Qed.

Lemma modifyStatus_phase {R} f (p q : UpgradePhaseT) :
  (∀ u, UpgradePhase u = p → UpgradePhase (f u) = q) →
  triple (λ s : ES, UpgradePhase s.1 = p) (modifyStatus (R:=R) f)
    (λ _ s, UpgradePhase s.1 = q) (λ _ s, UpgradePhase s.1 = p)
    (λ s, UpgradePhase s.1 = p).
Proof. intros H [u ns] Hu. by apply H. Qed.

Lemma rollingRestart_start_phase : phaseBlock id rollingRestart_start.
Proof.
  intros p [u ns] Hp. unfold rollingRestart_start. next.
  destruct (decide _); [|done].
  eapply (triple_use (λ s : ES, UpgradePhase s.1 = p)); [|exact Hp].
  keep_phase. by apply modifyStatus_phase.
Qed.

Lemma fullClusterRestart_start_phase : phaseBlock id fullClusterRestart_start.
Proof.
  intros p [u ns] Hp. unfold fullClusterRestart_start. next.
  destruct (decide _); [|done].
  eapply (triple_use (λ s : ES, UpgradePhase s.1 = p)); [|exact Hp].
  keep_phase. by apply modifyStatus_phase.
Qed.

Lemma update_start_phase : phaseBlock id update_start.
Proof.
  intros p [u ns] Hp. unfold update_start. next.
  destruct (decide _); [|done].
  eapply (triple_use (λ s : ES, UpgradePhase s.1 = p)); [|exact Hp].
  keep_phase. by apply modifyStatus_phase.
Qed.

Lemma restart_idle_phase R : phaseBlock afterIdle (restart_idle (R:=R)).
Proof.
  intros p [u ns] Hp. unfold restart_idle. next. simpl in Hp. subst p.
  destruct (decide _) as [[H|H]|H].
  - rewrite modifyStatus_run. unfold outcome. simpl. by rewrite H.
  - rewrite modifyStatus_run. unfold outcome. simpl. by rewrite H.
  - unfold outcome. simpl. destruct (UpgradePhase u); try done; tauto.
Qed.

Lemma update_idle_phase : phaseBlock afterIdle update_idle.
Proof.
  intros p [u ns] Hp. unfold update_idle. next. simpl in Hp.
  destruct (decide _) as [H|H].
  - eapply (triple_use (λ s : ES, UpgradePhase s.1 = p)); [|exact Hp].
    keep_phase. apply modifyStatus_phase. intros u' Hu'. simpl.
    rewrite <- Hp. by destruct H as [-> | ->].
  - unfold outcome. simpl. subst p. destruct (UpgradePhase u); try done; tauto.
Qed.

(** The restarting blocks: whatever the handle's methods do, the phase
    becomes [RecoveringData] when the block reaches its last statement and
    is untouched when it returns early. *)
Lemma restarting_phase {R} (work : M NodeState R unit) :
  phaseBlock afterRestarting
    (upgradeStatus ← getLocal;
     if decide (UpgradePhase upgradeStatus = NodeRestarting) then
       inner work;;
       modifyStatus (withUpgradePhase RecoveringData)
     else ret tt).
Proof.
  intros p [u ns] Hp. next. simpl in Hp.
  destruct (decide _) as [H|H].
  - eapply (triple_use (λ s : ES, UpgradePhase s.1 = p)); [|exact Hp].
    keep_phase. apply modifyStatus_phase. intros u' Hu'. simpl.
    by rewrite <- Hp, H.
  - unfold outcome. simpl. subst p. by destruct (UpgradePhase u).
Qed.

Lemma rollingRestart_restarting_phase :
  phaseBlock afterRestarting rollingRestart_restarting.
Proof. apply restarting_phase. Qed.

Lemma fullClusterRestart_restarting_phase :
  phaseBlock afterRestarting fullClusterRestart_restarting.
Proof. apply restarting_phase. Qed.

Lemma update_restarting_phase : phaseBlock afterRestarting update_restarting.
Proof. apply restarting_phase. Qed.

Lemma recovering_phase R : phaseBlock afterRecovering (recovering (R:=R)).
Proof.
  intros p [u ns] Hp. unfold recovering. next. simpl in Hp. subst p.
  destruct (decide _) as [H|H].
  - unfold outcome. simpl. by rewrite H.
  - unfold outcome. simpl. by destruct (UpgradePhase u).
Qed.

Lemma recovering_last R : lastBlock (recovering (R:=R)).
Proof.
  intros p. eapply triple_weaken; [apply (recovering_phase R p)| | | |]; simpl;
    intros; auto.
Qed.

Lemma recovering_then_return_last :
  lastBlock (recovering (R:=error);; returnWith (A:=error) None).
Proof.
  intros p. eapply triple_bind; [apply recovering_last|].
  intros ?. by apply triple_returnWith.
Qed.

(** Four blocks in a row move the phase forward within one cycle,
    whichever of them ends the call. *)
Lemma blocks_phase {X A} (b1 b2 b3 : M ES X unit) (b4 : M ES X A) :
  phaseBlock id b1 → phaseBlock afterIdle b2 →
  phaseBlock afterRestarting b3 → lastBlock b4 →
  ∀ p, triple (λ s, UpgradePhase s.1 = p) (b1;; b2;; b3;; b4)
         (λ _ s, phase_advance p (UpgradePhase s.1))
         (λ _ s, phase_advance p (UpgradePhase s.1))
         (λ s, phase_advance p (UpgradePhase s.1)).
Proof.
  intros H1 H2 H3 H4 p.
  assert (Hadv : ∀ q, q = p ∨ q = afterIdle p ∨ q = afterRestarting (afterIdle p)
                      ∨ q = afterRecovering (afterRestarting (afterIdle p)) →
                      phase_advance p q).
  { intros q Hq. apply phase_advance_table.
    destruct p; destruct Hq as [Hq|[Hq|[Hq|Hq]]]; by subst q. }
  eapply triple_bind.
  { eapply triple_weaken; [apply (H1 p)|done| | |]; simpl.
    - intros ? s Hs. exact Hs.
    - intros ? s Hs. apply Hadv. auto.
    - intros s Hs. apply Hadv. auto. }
  intros ?. eapply triple_bind.
  { eapply triple_weaken; [apply (H2 p)|done| | |]; simpl.
    - intros ? s Hs. exact Hs.
    - intros ? s Hs. apply Hadv. auto.
    - intros s Hs. apply Hadv. auto. }
  intros ?. eapply triple_bind.
  { eapply triple_weaken; [apply (H3 (afterIdle p))|done| | |]; simpl.
    - intros ? s Hs. exact Hs.
    - intros ? s Hs. apply Hadv. auto.
    - intros s Hs. apply Hadv. auto. }
  intros ?.
  eapply triple_weaken; [apply (H4 (afterRestarting (afterIdle p)))|done| | |]; simpl.
  - intros ? s Hs. apply Hadv. tauto.
  - intros ? s Hs. apply Hadv. tauto.
  - intros s Hs. apply Hadv. tauto.
Qed.

Lemma invoke_phase (e : EntryPoint) (s : ES) :
  phase_advance (UpgradePhase s.1) (UpgradePhase (invoke e s).1).
Proof.
  assert (Hcall : ∀ A (body : M ES A A),
    triple (λ s', UpgradePhase s'.1 = UpgradePhase s.1) body
      (λ _ s', phase_advance (UpgradePhase s.1) (UpgradePhase s'.1))
      (λ _ s', phase_advance (UpgradePhase s.1) (UpgradePhase s'.1))
      (λ s', phase_advance (UpgradePhase s.1) (UpgradePhase s'.1)) →
    phase_advance (UpgradePhase s.1) (UpgradePhase (call (R:=unit) body s).2.1)).
  { intros A body H. specialize (H s eq_refl). unfold outcome, call in *.
    by destruct (body s) as [[?|?|] ?]. }
  destruct e; simpl; apply Hcall; apply blocks_phase.
  - apply rollingRestart_start_phase.
  - apply restart_idle_phase.
  - apply rollingRestart_restarting_phase.
  - apply recovering_last.
  - apply fullClusterRestart_start_phase.
  - apply restart_idle_phase.
  - apply fullClusterRestart_restarting_phase.
  - apply recovering_last.
  - apply update_start_phase.
  - apply update_idle_phase.
  - apply update_restarting_phase.
  - apply recovering_then_return_last.
Qed.

(** C1.  For every sequence of calls to [rollingRestart],
    [fullClusterRestart] and [update] on an upgrade status, whatever the
    handle and the world each call finds, every call leaves the phase where
    it was or further along
    [Empty/ControllerUpdated → NodeRestarting → RecoveringData →
    ControllerUpdated], within one cycle: no call moves it backwards. *)
Theorem phase_never_regresses (u : UpgradeStatusT) (calls : list (EntryPoint * NodeState)) :
  phasesAdvance (UpgradePhase u) (UpgradePhase <$> statusesAfter u calls).
Proof.
  revert u. induction calls as [|[e ns] calls IH]; intros u; simpl; [done|].
  split; [apply (invoke_phase e (u, ns))|apply IH].
Qed.

(** ** The per-ordinal loops (C3, C6) *)

Local Open Scope list_scope.

Lemma descending_cons lo n :
  0 < n → descending lo n = (lo + n - 1) :: descending lo (n - 1).
Proof.
  intros Hn. unfold descending.
  replace n with ((n - 1) + 1) at 1 by lia.
  rewrite seqZ_app by lia.
  rewrite (seqZ_cons _ 1) by lia. rewrite (seqZ_nil _ (Z.pred 1)) by lia.
  rewrite reverse_app. simpl. f_equal. lia.
Qed.

Lemma descending_nil lo n : n ≤ 0 → descending lo n = [].
Proof. intros Hn. unfold descending. by rewrite seqZ_nil. Qed.


Lemma isMissing_of_live R ns o :
  getFault (env (world ns)) (now (world ns)) = None →
  objects (world ns) !! keyOf (node ns) = Some o →
  isMissing (R:=R) ns = (Normal false, elapse 1 ns).
Proof.
  intros Hf Ho. unfold isMissing, call. rewrite bind_run, getIntoFresh_run.
  unfold keyOf in Ho. by rewrite (clientGet_ok _ _ _ o Hf Ho).
Qed.


(** *** What the loops write *)




Section Emits.
Context {R : Type}.











End Emits.











(** ** Change detection (C9) *)

Lemma isChangedWith_run R compare ns :
  isChangedWith (R:=R) compare ns =
  match (clientGet (Namespace (self (node ns))) (Name (self (node ns))) (world ns)).1 with
  | inr _ =>
      (Normal false,
       {| node := withSelf (withBlankSpec (self (node ns))) (node ns);
          world := advance (world ns) |})
  | inl o =>
      (Normal (compare (Name o) (Template o) emptyTemplate).1,
       {| node := withSelf
                    (withTemplate (compare (Name o) (Template o) emptyTemplate).2 o)
                    (node ns);
          world := advance (world ns) |})
  end.
Proof.
  unfold isChangedWith, call. rewrite bind_run. simpl.
  rewrite bind_run, getIntoSelf_run. simpl.
  destruct (clientGet _ _ _).1 as [o|e]; simpl; [|done].
  rewrite bind_run. simpl. by destruct (compare _ _ _).
Qed.

(** The half of C9 that holds: a failed fetch yields [false]. *)
Lemma isChanged_false_when_fetch_fails R ns e :
  (clientGet (Namespace (self (node ns))) (Name (self (node ns))) (world ns)).1 = inr e →
  (isChanged (R:=R) ns).1 = Normal false.
Proof. intros H. unfold isChanged. by rewrite isChangedWith_run, H. Qed.

(** The template the handle was populated with plays no part in the
    verdict, whatever the comparison does. *)
Lemma isChangedWith_ignores_desired R compare ns (t : PodTemplateSpec) :
  (isChangedWith (R:=R) compare
     {| node := withSelf (withTemplate t (self (node ns))) (node ns);
        world := world ns |}).1
  = (isChangedWith (R:=R) compare ns).1.
Proof.
  rewrite !isChangedWith_run. simpl.
  by destruct (clientGet _ _ _).1.
Qed.

(** C9, at the failing inputs.  The live object carries [podTemplate]
    and the fetch succeeds.  Whatever [UpdatePodTemplateSpec] computes, the
    verdict of [isChanged] is the same for the handle that asks for
    [podTemplate], the live template, and for the handle that asks for
    [newerTemplate], a different one: the local [desired] that the live
    template is compared with is never filled in, and the handle's own
    template is overwritten by the fetch.  With the structural comparison
    the verdict is [true] in both cases, the identical one included, and it
    is [false] for an empty live template, which differs from the desired
    one. *)
Theorem isChanged_ignores_the_desired_template :
  (∀ compare,
     (isChangedWith (R:=unit) compare healthyNode).1
     = (isChangedWith (R:=unit) compare upgradingNode).1)
  ∧ Template (self (node healthyNode)) = podTemplate
  ∧ Template (self (node upgradingNode)) = newerTemplate
  ∧ Template <$> objects (world healthyNode) !! keyOf (node healthyNode)
    = Some podTemplate
  ∧ newerTemplate ≠ podTemplate
  ∧ (isChanged (R:=unit) healthyNode).1 = Normal true
  ∧ (isChanged (R:=unit) upgradingNode).1 = Normal true
  ∧ Template (self (node bareNode)) = podTemplate
  ∧ Template <$> objects (world bareNode) !! keyOf (node bareNode)
    = Some emptyTemplate
  ∧ podTemplate ≠ emptyTemplate
  ∧ (isChanged (R:=unit) bareNode).1 = Normal false.
Proof.
  split.
  { intros compare. symmetry.
    apply (isChangedWith_ignores_desired unit compare healthyNode newerTemplate). }
  split; [reflexivity|]. split; [reflexivity|].
  split; [vm_compute; reflexivity|]. split; [discriminate|].
  split; [vm_compute; reflexivity|]. split; [vm_compute; reflexivity|].
  split; [reflexivity|]. split; [vm_compute; reflexivity|].
  split; [discriminate|]. vm_compute; reflexivity.
Qed.

(** * Further properties of the handle *)

(** ** Attempts and retries *)

Lemma RetryOnConflict_first_success {S R} (fn : M S error error) (n : nat) (s s' : S) :
  fn s = (Returned None, s') →
  RetryOnConflict (R:=R) {| Steps := Datatypes.S n |} fn s = (Normal None, s').
Proof.
  intros H. unfold RetryOnConflict, call, withLocal, ExponentialBackoff.
  rewrite bind_run. simpl. rewrite bind_run. unfold call at 1.
  rewrite retryCondition_run, H. reflexivity.
Qed.

Lemma RetryOnConflict_first_failure {S R} (fn : M S error error) (n : nat) (s s' : S) e :
  fn s = (Returned (Some e), s') →
  IsConflict e = false →
  e ≠ ErrWaitTimeout →
  RetryOnConflict (R:=R) {| Steps := Datatypes.S n |} fn s = (Normal (Some e), s').
Proof.
  intros H Hc He. unfold RetryOnConflict, call, withLocal, ExponentialBackoff.
  rewrite bind_run. simpl. rewrite bind_run. unfold call at 1.
  rewrite retryCondition_run, H, Hc. simpl. rewrite bind_run. simpl.
  by destruct e.
Qed.

Lemma retried_first_success R (attempt : M (Z * NodeState) error error) ns l ns' :
  attempt (-1, ns) = (Returned None, (l, ns')) →
  retried (R:=R) attempt ns = (Normal None, ns').
Proof.
  intros H. unfold retried, call, withLocal. rewrite bind_run.
  by rewrite (RetryOnConflict_first_success attempt 4 (-1, ns) (l, ns') H).
Qed.

Lemma retried_first_failure R (attempt : M (Z * NodeState) error error) ns l ns' e :
  attempt (-1, ns) = (Returned (Some e), (l, ns')) →
  IsConflict e = false →
  e ≠ ErrWaitTimeout →
  retried (R:=R) attempt ns
  = (Normal (Some (Errorf
       "Error: could not update Elasticsearch node %v after %v retries: %v"
       [VStr (Name (self (node ns'))); VInt l; VErr e])), ns').
Proof.
  intros H Hc He. unfold retried, call, withLocal. rewrite bind_run.
  by rewrite (RetryOnConflict_first_failure attempt 4 (-1, ns) (l, ns') e H Hc He).
Qed.

Lemma setPartition_noop R p ns o :
  getFault (env (world ns)) (now (world ns)) = None →
  objects (world ns) !! keyOf (node ns) = Some o →
  Partition o = Some p →
  setPartition (R:=R) p ns
  = (Normal None, {| node := withSelf o (node ns); world := advance (world ns) |}).
Proof.
  intros Hf Ho Hp. rewrite setPartition_retried.
  eapply retried_first_success. rewrite setPartition_attempt_run.
  unfold keyOf in Ho. rewrite (clientGet_ok _ _ _ o Hf Ho). simpl. rewrite Hp.
  by destruct (decide (p = p)).
Qed.

Lemma setReplicaCount_noop R r ns o :
  getFault (env (world ns)) (now (world ns)) = None →
  objects (world ns) !! keyOf (node ns) = Some o →
  Replicas o = Some r →
  setReplicaCount (R:=R) r ns
  = (Normal None, {| node := withSelf o (node ns); world := advance (world ns) |}).
Proof.
  intros Hf Ho Hp. rewrite setReplicaCount_retried.
  eapply retried_first_success. rewrite setReplicaCount_attempt_run.
  unfold keyOf in Ho. rewrite (clientGet_ok _ _ _ o Hf Ho). simpl. rewrite Hp.
  by destruct (decide (r = r)).
Qed.

(** X1.  A write that is already in place is not repeated: once
    [setPartition n] has succeeded, a second [setPartition n] whose read is
    answered returns nil after that single read, and neither the store nor
    the trace of writes changes.  Likewise for [setReplicaCount]. *)
Theorem setters_do_not_repeat_a_write (R : Type) (n : Z) (ns ns1 : NodeState) :
  storeOK (world ns) →
  getFault (env (world ns1)) (now (world ns1)) = None →
  (setPartition (R:=R) n ns = (Normal None, ns1) →
   ∃ o, setPartition (R:=R) n ns1
        = (Normal None, {| node := withSelf o (node ns1);
                           world := advance (world ns1) |}))
  ∧ (∀ seen,
       liveStatusReplicas ns = Some seen →
       setReplicaCount (R:=R) n ns = (Normal None, ns1) →
       ∃ o, setReplicaCount (R:=R) n ns1
            = (Normal None, {| node := withSelf o (node ns1);
                               world := advance (world ns1) |})).
Proof.
  intros Hstore Hfault. split.
  - intros Hset. pose proof (setPartition_sets R n ns Hstore) as H.
    unfold outcome in H. rewrite Hset in H. simpl in H.
    destruct H as [_ H]. destruct (H eq_refl) as (o & Ho & Hp).
    exists o. by apply setPartition_noop.
  - intros seen Hseen Hset.
    pose proof (setReplicaCount_sets R n seen ns (conj Hstore Hseen)) as H.
    unfold outcome in H. rewrite Hset in H. simpl in H.
    destruct (H eq_refl) as [(o & Ho & Hr) _].
    exists o. by apply setReplicaCount_noop.
Qed.

Lemma setters_do_not_repeat_a_write_witness :
  let ns1 := (setPartition (R:=unit) 2 healthyNode).2 in
  storeOK (world healthyNode)
  ∧ getFault (env (world ns1)) (now (world ns1)) = None
  ∧ setPartition (R:=unit) 2 healthyNode = (Normal None, ns1)
  ∧ ∃ o, setPartition (R:=unit) 2 ns1
         = (Normal None, {| node := withSelf o (node ns1);
                            world := advance (world ns1) |}).
Proof.
  intros ns1.
  assert (Hstore : storeOK (world healthyNode)) by apply storeOK_worldWith.
  assert (Hf : getFault (env (world ns1)) (now (world ns1)) = None) by reflexivity.
  assert (Hset : setPartition (R:=unit) 2 healthyNode = (Normal None, ns1))
    by (vm_compute; reflexivity).
  split; [exact Hstore|]. split; [exact Hf|]. split; [exact Hset|].
  exact (proj1 (setters_do_not_repeat_a_write unit 2 healthyNode ns1 Hstore Hf) Hset).
Defined.

(** *** What a setter leaves alone *)

Lemma changedOnlyAt_refl k rel m :
  (∀ o, rel o o) → changedOnlyAt k rel m m.
Proof. intros Hrefl. split; [done|]. destruct (m !! k); auto. Qed.

Lemma setPartition_keeps_the_rest R p k0 m0 :
  let I ns := storeOK (world ns) ∧ keyOf (node ns) = k0
              ∧ changedOnlyAt k0 sameButPartition m0 (objects (world ns)) in
  triple I (setPartition (R:=R) p) (λ _, I) (λ _ _, False) I.
Proof.
  intros I. rewrite setPartition_retried.
  eapply triple_weaken; [apply (retried_rule _ I I I)|done| |done|done].
  2:{ by intros [e|] ns H. }
  intros [l ns] (Hns & Hk & Hother & Hat). simpl in Hns, Hk, Hother, Hat.
  unfold outcome, I. rewrite setPartition_attempt_run.
  destruct (clientGet _ _ _).1 as [o|e] eqn:Hget; simpl.
  2:{ split; [by eapply clientGet_error_not_timeout|done]. }
  apply clientGet_found in Hget as [_ Ho].
  pose proof (Hns _ _ Ho) as Hkey.
  assert (Hk' : (Namespace o, Name o) = k0) by (by rewrite <- Hkey).
  destruct (Partition o) as [q|] eqn:Hq; simpl.
  2:{ unfold keyOf. simpl. done. }
  destruct (decide (q = p)) as [->|Hne]; simpl.
  { unfold keyOf. simpl. done. }
  destruct (clientUpdate_cases (withPartition (Some p) o) (advance (world ns)))
    as [(e & -> & He)|(cur & Hcur & _ & _ & ->)]; simpl.
  { unfold keyOf. simpl. done. }
  assert (Hok0 : objects (world ns) !! k0 = Some o) by (by rewrite <- Hk', <- Hkey).
  simpl in Hcur. rewrite Hk', Hok0 in Hcur. injection Hcur as <-.
  split; [by apply storeOK_commit|]. unfold keyOf. simpl.
  split; [done|]. rewrite Hk'. split.
  - intros k' Hne'. rewrite lookup_insert_ne by done. by apply Hother.
  - rewrite lookup_insert_eq. rewrite Hok0 in Hat.
    destruct (m0 !! k0) as [o0|]; [|done].
    destruct Hat as (?&?&?&?&?). by repeat split.
Qed.

Lemma setReplicaCount_keeps_the_rest R r k0 m0 :
  let I ns := storeOK (world ns) ∧ keyOf (node ns) = k0
              ∧ changedOnlyAt k0 sameButReplicas m0 (objects (world ns)) in
  triple I (setReplicaCount (R:=R) r) (λ _, I) (λ _ _, False) I.
Proof.
  intros I. rewrite setReplicaCount_retried.
  eapply triple_weaken; [apply (retried_rule _ I I I)|done| |done|done].
  2:{ by intros [e|] ns H. }
  intros [l ns] (Hns & Hk & Hother & Hat). simpl in Hns, Hk, Hother, Hat.
  unfold outcome, I. rewrite setReplicaCount_attempt_run.
  destruct (clientGet _ _ _).1 as [o|e] eqn:Hget; simpl.
  2:{ split; [by eapply clientGet_error_not_timeout|done]. }
  apply clientGet_found in Hget as [_ Ho].
  pose proof (Hns _ _ Ho) as Hkey.
  assert (Hk' : (Namespace o, Name o) = k0) by (by rewrite <- Hkey).
  destruct (Replicas o) as [q|] eqn:Hq; simpl.
  2:{ unfold keyOf. simpl. done. }
  destruct (decide (q = r)) as [->|Hne]; simpl.
  { unfold keyOf. simpl. done. }
  destruct (clientUpdate_cases (withReplicas (Some r) o) (advance (world ns)))
    as [(e & -> & He)|(cur & Hcur & _ & _ & ->)]; simpl.
  { unfold keyOf. simpl. done. }
  assert (Hok0 : objects (world ns) !! k0 = Some o) by (by rewrite <- Hk', <- Hkey).
  simpl in Hcur. rewrite Hk', Hok0 in Hcur. injection Hcur as <-.
  split; [by apply storeOK_commit|]. unfold keyOf. simpl.
  split; [done|]. rewrite Hk'. split.
  - intros k' Hne'. rewrite lookup_insert_ne by done. by apply Hother.
  - rewrite lookup_insert_eq. rewrite Hok0 in Hat.
    destruct (m0 !! k0) as [o0|]; [|done].
    destruct Hat as (?&?&?&?&?). by repeat split.
Qed.

(** X2.  On a store that keeps every object under its own name, and
    however the call ends, [setPartition] leaves every other object alone
    and changes nothing of the designated object but its partition and
    resource version; it neither creates nor removes it, and the handle
    still designates it.  [setReplicaCount] does the same for the requested
    replica count. *)
Theorem setters_touch_one_field (R : Type) (n : Z) (ns : NodeState) :
  storeOK (world ns) →
  (let ns' := (setPartition (R:=R) n ns).2 in
   storeOK (world ns') ∧ keyOf (node ns') = keyOf (node ns)
   ∧ changedOnlyAt (keyOf (node ns)) sameButPartition
       (objects (world ns)) (objects (world ns')))
  ∧ (let ns' := (setReplicaCount (R:=R) n ns).2 in
     storeOK (world ns') ∧ keyOf (node ns') = keyOf (node ns)
     ∧ changedOnlyAt (keyOf (node ns)) sameButReplicas
         (objects (world ns)) (objects (world ns'))).
Proof.
  intros Hstore. split.
  - pose proof (setPartition_keeps_the_rest R n (keyOf (node ns)) (objects (world ns)) ns)
      as H.
    unfold outcome in H.
    assert (Hrefl : changedOnlyAt (keyOf (node ns)) sameButPartition
                      (objects (world ns)) (objects (world ns))).
    { apply changedOnlyAt_refl. by intros o. }
    specialize (H (conj Hstore (conj eq_refl Hrefl))).
    by destruct (setPartition n ns) as [[?|?|] ?].
  - pose proof (setReplicaCount_keeps_the_rest R n (keyOf (node ns))
                  (objects (world ns)) ns) as H.
    unfold outcome in H.
    assert (Hrefl : changedOnlyAt (keyOf (node ns)) sameButReplicas
                      (objects (world ns)) (objects (world ns))).
    { apply changedOnlyAt_refl. by intros o. }
    specialize (H (conj Hstore (conj eq_refl Hrefl))).
    by destruct (setReplicaCount n ns) as [[?|?|] ?].
Qed.

Lemma setters_touch_one_field_witness :
  let ns' := (setPartition (R:=unit) 2 healthyNode).2 in
  storeOK (world healthyNode)
  ∧ storeOK (world ns') ∧ keyOf (node ns') = keyOf (node healthyNode)
  ∧ changedOnlyAt (keyOf (node healthyNode)) sameButPartition
      (objects (world healthyNode)) (objects (world ns')).
Proof.
  intros ns'.
  assert (Hstore : storeOK (world healthyNode)) by apply storeOK_worldWith.
  split; [exact Hstore|].
  exact (proj1 (setters_touch_one_field unit 2 healthyNode Hstore)).
Defined.

(** *** Giving up *)

Lemma advanceBy_advanceBy j k w : advanceBy j (advanceBy k w) = advanceBy (j + k) w.
Proof. unfold advanceBy. simpl. f_equal. lia. Qed.

Lemma clientUpdate_fault o w reason msg :
  updateFault (env w) (now w) = Some (reason, msg) →
  clientUpdate o w = (inr (ErrStatus reason msg), advance w).
Proof. intros H. unfold clientUpdate. by rewrite H. Qed.

Lemma clientGet_fault namespace name w reason msg :
  getFault (env w) (now w) = Some (reason, msg) →
  clientGet namespace name w = (inr (ErrStatus reason msg), advance w).
Proof. intros H. unfold clientGet. by rewrite H. Qed.

Lemma clientGet_absent namespace name w :
  getFault (env w) (now w) = None →
  objects w !! (namespace, name) = None →
  clientGet namespace name w = (inr (ErrStatus NotFound name), advance w).
Proof. intros Hf Ho. unfold clientGet. by rewrite Hf, Ho. Qed.

Lemma setPartition_attempt_refused p l ns o q reason msg :
  getFault (env (world ns)) (now (world ns)) = None →
  objects (world ns) !! keyOf (node ns) = Some o →
  Partition o = Some q → q ≠ p →
  updateFault (env (world ns)) (S (now (world ns))) = Some (reason, msg) →
  setPartition_attempt p (l, ns)
  = (Returned (Some (ErrStatus reason msg)),
     (l + 1, {| node := withSelf (withPartition (Some p) o) (node ns);
                world := advanceBy 2 (world ns) |})).
Proof.
  intros Hf Ho Hq Hne Hu. rewrite setPartition_attempt_run.
  unfold keyOf in Ho. rewrite (clientGet_ok _ _ _ o Hf Ho). simpl. rewrite Hq.
  destruct (decide (q = p)); [done|].
  by rewrite (clientUpdate_fault _ (advance (world ns)) reason msg Hu).
Qed.

Lemma conflicts_exhaust p o q msg :
  Partition o = Some q → q ≠ p →
  ∀ (n : nat) (last : error) (l : Z) ns,
    keyOf (node ns) = (Namespace o, Name o) →
    objects (world ns) !! keyOf (node ns) = Some o →
    (∀ i, (i < n)%nat →
          getFault (env (world ns)) (2 * i + now (world ns)) = None
          ∧ updateFault (env (world ns)) (S (2 * i + now (world ns)))
            = Some (Conflict, msg)) →
    waitFor (R:=error) n (retryCondition (setPartition_attempt p)) (last, (l, ns))
    = (Normal (Some ErrWaitTimeout),
       (match n with O => last | _ => Some (ErrStatus Conflict msg) end,
        (l + Z.of_nat n,
         {| node := match n with
                    | O => node ns
                    | _ => withSelf (withPartition (Some p) o) (node ns)
                    end;
            world := advanceBy (2 * n) (world ns) |}))).
Proof.
  intros Hq Hne. induction n as [|n IH]; intros last l ns Hkey Ho Hfaults.
  - simpl. rewrite Z.add_0_r, advanceBy_0. by destruct ns.
  - destruct (Hfaults 0%nat ltac:(lia)) as [Hf Hu]. simpl in Hf, Hu.
    simpl waitFor. rewrite bind_run. unfold call at 1.
    rewrite retryCondition_run.
    rewrite (setPartition_attempt_refused p l ns o q Conflict msg Hf Ho Hq Hne Hu).
    cbn [IsConflict].
    etrans;
      [apply (IH (Some (ErrStatus Conflict msg)) (l + 1)
                {| node := withSelf (withPartition (Some p) o) (node ns);
                   world := advanceBy 2 (world ns) |})|].
    + reflexivity.
    + unfold keyOf. simpl. unfold keyOf in Hkey, Ho. by rewrite <- Hkey.
    + intros i Hi. destruct (Hfaults (S i) ltac:(lia)) as [Hf' Hu'].
      cbn [env world now advanceBy].
      replace (2 * i + (2 + now (world ns)))%nat
        with (2 * S i + now (world ns))%nat by lia.
      done.
    + cbn [node world]. rewrite advanceBy_advanceBy.
      replace (l + 1 + Z.of_nat n) with (l + Z.of_nat (S n)) by lia.
      replace (2 * n + 2)%nat with (2 * S n)%nat by lia.
      by destruct n.
Qed.

(** X3.  [setPartition] gives up on contention: when the object is
    stored with another partition and each of five consecutive updates is
    refused as a conflict, the call ends after these five attempts, ten API
    calls in all, with the error that names the node, counts 4 retries and
    carries the last conflict.  The store is left as it was. *)
Theorem setPartition_gives_up_after_five_conflicts (R : Type) (p q : Z)
  (ns : NodeState) (o : StatefulSet) (msg : string) :
  storeOK (world ns) →
  objects (world ns) !! keyOf (node ns) = Some o →
  Partition o = Some q → q ≠ p →
  (∀ i, (i < 5)%nat →
        getFault (env (world ns)) (2 * i + now (world ns)) = None
        ∧ updateFault (env (world ns)) (S (2 * i + now (world ns)))
          = Some (Conflict, msg)) →
  setPartition (R:=R) p ns
  = (Normal (gaveUp (Name o) 4 (ErrStatus Conflict msg)),
     {| node := withSelf (withPartition (Some p) o) (node ns);
        world := advanceBy 10 (world ns) |}).
Proof.
  intros Hstore Ho Hq Hne Hfaults.
  assert (Hkey : keyOf (node ns) = (Namespace o, Name o)) by (by apply Hstore).
  rewrite setPartition_retried.
  unfold retried, call at 1, withLocal at 1. rewrite bind_run.
  unfold RetryOnConflict, call at 1, withLocal at 1, ExponentialBackoff.
  rewrite bind_run. simpl Steps.
  rewrite (conflicts_exhaust p o q msg Hq Hne 5 None (-1) ns Hkey Ho Hfaults).
  reflexivity.
Qed.

Lemma setPartition_gives_up_after_five_conflicts_witness :
  storeOK (world contendedNode)
  ∧ objects (world contendedNode) !! keyOf (node contendedNode) = Some (liveSet 0)
  ∧ Partition (liveSet 0) = Some 0
  ∧ 0 ≠ 2
  ∧ setPartition (R:=unit) 2 contendedNode
    = (Normal (gaveUp "es" 4 (ErrStatus Conflict "the object has been modified")),
       {| node := withSelf (withPartition (Some 2) (liveSet 0)) handle;
          world := advanceBy 10 (world contendedNode) |}).
Proof.
  assert (Hstore : storeOK (world contendedNode)) by apply storeOK_worldWith.
  assert (Ho : objects (world contendedNode) !! keyOf (node contendedNode)
               = Some (liveSet 0)) by reflexivity.
  assert (Hq : Partition (liveSet 0) = Some 0) by reflexivity.
  assert (Hne : 0 ≠ 2) by lia.
  split; [exact Hstore|]. split; [exact Ho|]. split; [exact Hq|]. split; [exact Hne|].
  apply (setPartition_gives_up_after_five_conflicts unit 2 0 contendedNode (liveSet 0)
           "the object has been modified" Hstore Ho Hq Hne).
  intros i Hi. split; reflexivity.
Defined.

(** X4.  A failure that is not a conflict is not retried.  When the read
    is refused for another reason, when the object is not stored, or when
    the update is refused for another reason, [setPartition] returns after
    that single attempt with the error counting 0 retries; nothing is
    written and a missing object is not created. *)
Theorem setPartition_does_not_retry_other_failures (R : Type) (p : Z) (ns : NodeState) :
  (∀ reason msg,
     getFault (env (world ns)) (now (world ns)) = Some (reason, msg) →
     reason ≠ Conflict →
     setPartition (R:=R) p ns
     = (Normal (gaveUp (Name (self (node ns))) 0 (ErrStatus reason msg)), elapse 1 ns))
  ∧ (getFault (env (world ns)) (now (world ns)) = None →
     objects (world ns) !! keyOf (node ns) = None →
     setPartition (R:=R) p ns
     = (Normal (gaveUp (Name (self (node ns))) 0
                  (ErrStatus NotFound (Name (self (node ns))))), elapse 1 ns))
  ∧ (∀ o q reason msg,
       getFault (env (world ns)) (now (world ns)) = None →
       objects (world ns) !! keyOf (node ns) = Some o →
       Partition o = Some q → q ≠ p →
       updateFault (env (world ns)) (S (now (world ns))) = Some (reason, msg) →
       reason ≠ Conflict →
       setPartition (R:=R) p ns
       = (Normal (gaveUp (Name o) 0 (ErrStatus reason msg)),
          {| node := withSelf (withPartition (Some p) o) (node ns);
             world := advanceBy 2 (world ns) |})).
Proof.
  split; [|split].
  - intros reason msg Hf Hr. rewrite setPartition_retried.
    rewrite (retried_first_failure R (setPartition_attempt p) ns (-1 + 1)
               (elapse 1 ns) (ErrStatus reason msg)); [done| |by destruct reason|done].
    rewrite setPartition_attempt_run.
    by rewrite (clientGet_fault _ _ _ reason msg Hf).
  - intros Hf Ho. rewrite setPartition_retried.
    rewrite (retried_first_failure R (setPartition_attempt p) ns (-1 + 1)
               (elapse 1 ns) (ErrStatus NotFound (Name (self (node ns)))));
      [done| |done|done].
    rewrite setPartition_attempt_run. unfold keyOf in Ho.
    by rewrite (clientGet_absent _ _ _ Hf Ho).
  - intros o q reason msg Hf Ho Hq Hne Hu Hr. rewrite setPartition_retried.
    rewrite (retried_first_failure R (setPartition_attempt p) ns (-1 + 1)
               {| node := withSelf (withPartition (Some p) o) (node ns);
                  world := advanceBy 2 (world ns) |} (ErrStatus reason msg));
      [done| |by destruct reason|done].
    by apply (setPartition_attempt_refused p (-1) ns o q reason msg).
Qed.

Lemma setPartition_does_not_retry_other_failures_witness :
  getFault (env (world unreachableNode)) (now (world unreachableNode))
  = Some (InternalError, "connection refused")
  ∧ InternalError ≠ Conflict
  ∧ setPartition (R:=unit) 2 unreachableNode
    = (Normal (gaveUp "es" 0 (ErrStatus InternalError "connection refused")),
       elapse 1 unreachableNode).
Proof.
  assert (Hf : getFault (env (world unreachableNode)) (now (world unreachableNode))
               = Some (InternalError, "connection refused")) by reflexivity.
  assert (Hr : InternalError ≠ Conflict) by discriminate.
  split; [exact Hf|]. split; [exact Hr|].
  exact (proj1 (setPartition_does_not_retry_other_failures unit 2 unreachableNode)
           InternalError "connection refused" Hf Hr).
Defined.

(** ** Reads, scaling and creation *)

Lemma clientGet_cases namespace name w :
  (∃ o, clientGet namespace name w = (inl o, advance w)
        ∧ getFault (env w) (now w) = None ∧ objects w !! (namespace, name) = Some o)
  ∨ (∃ reason msg, clientGet namespace name w = (inr (ErrStatus reason msg), advance w)
        ∧ getFault (env w) (now w) = Some (reason, msg))
  ∨ (clientGet namespace name w = (inr (ErrStatus NotFound name), advance w)
        ∧ getFault (env w) (now w) = None ∧ objects w !! (namespace, name) = None).
Proof.
  unfold clientGet. destruct (getFault _ _) as [[reason msg]|].
  { right. left. by exists reason, msg. }
  destruct (objects w !! _) as [o|]; [left; by exists o|right; by right].
Qed.

(** X5.  [isMissing] answers true exactly when the read is refused as not
    found: the object is not stored, or the API says so.  Any other failure
    of the read is answered false, as for an object that is there.  The call
    is one read; it changes neither the handle nor the store. *)
Theorem isMissing_only_on_not_found (R : Type) (ns : NodeState) :
  ∃ b : bool,
    isMissing (R:=R) ns = (Normal b, elapse 1 ns)
    ∧ (b = true ↔
       (∃ msg, getFault (env (world ns)) (now (world ns)) = Some (NotFound, msg))
       ∨ (getFault (env (world ns)) (now (world ns)) = None
          ∧ objects (world ns) !! keyOf (node ns) = None)).
Proof.
  unfold isMissing, call. rewrite bind_run, getIntoFresh_run. unfold keyOf.
  destruct (clientGet_cases (Namespace (self (node ns))) (Name (self (node ns))) (world ns))
    as [(o & -> & Hf & Ho)|[(reason & msg & -> & Hf)|(-> & Hf & Ho)]]; simpl.
  - exists false. split; [done|]. split; [done|].
    intros [[msg Hm]|[_ Hn]]; congruence.
  - destruct reason; simpl.
    + exists true. split; [done|]. split; [|done]. intros _. left. by exists msg.
    + exists false. split; [done|]. split; [done|]. intros [[m Hm]|[Hn _]]; congruence.
    + exists false. split; [done|]. split; [done|]. intros [[m Hm]|[Hn _]]; congruence.
    + exists false. split; [done|]. split; [done|]. intros [[m Hm]|[Hn _]]; congruence.
  - exists true. split; [done|]. split; [|done]. intros _. by right.
Qed.

Lemma RetryOnConflict_first_panic {S R} (fn : M S error error) (n : nat) (s s' : S) :
  fn s = (Panic, s') →
  RetryOnConflict (R:=R) {| Steps := Datatypes.S n |} fn s = (Panic, s').
Proof.
  intros H. unfold RetryOnConflict, call, withLocal, ExponentialBackoff.
  rewrite bind_run. simpl. rewrite bind_run. unfold call at 1.
  rewrite retryCondition_run, H. reflexivity.
Qed.

Lemma retried_first_panic R (attempt : M (Z * NodeState) error error) ns l ns' :
  attempt (-1, ns) = (Panic, (l, ns')) →
  retried (R:=R) attempt ns = (Panic, ns').
Proof.
  intros H. unfold retried, call, withLocal. rewrite bind_run.
  by rewrite (RetryOnConflict_first_panic attempt 4 (-1, ns) (l, ns') H).
Qed.

(** X6.  A nil pointer is dereferenced, not reported.  When the stored
    object carries no partition, [partition] and [setPartition] panic right
    after their read; when it carries no replica count, so do
    [setReplicaCount] and [scale].  No error value is returned and nothing
    is written. *)
Theorem nil_pointers_panic (R : Type) (z : Z) (ns : NodeState) (o : StatefulSet) :
  getFault (env (world ns)) (now (world ns)) = None →
  objects (world ns) !! keyOf (node ns) = Some o →
  let ns1 := {| node := withSelf o (node ns); world := advance (world ns) |} in
  (Partition o = None →
     partition (R:=R) ns = (Panic, elapse 1 ns)
     ∧ setPartition (R:=R) z ns = (Panic, ns1))
  ∧ (Replicas o = None →
     setReplicaCount (R:=R) z ns = (Panic, ns1)
     ∧ scale (R:=R) ns = (Panic, ns1)).
Proof.
  intros Hf Ho ns1. unfold keyOf in Ho. split; intros Hnil.
  - split.
    + rewrite partition_run, (clientGet_ok _ _ _ o Hf Ho). simpl. by rewrite Hnil.
    + rewrite setPartition_retried. eapply retried_first_panic.
      rewrite setPartition_attempt_run, (clientGet_ok _ _ _ o Hf Ho). simpl.
      by rewrite Hnil.
  - split.
    + rewrite setReplicaCount_retried. eapply retried_first_panic.
      rewrite setReplicaCount_attempt_run, (clientGet_ok _ _ _ o Hf Ho). simpl.
      by rewrite Hnil.
    + unfold scale, call. next. rewrite bind_run, getIntoSelf_run.
      rewrite (clientGet_ok _ _ _ o Hf Ho). cbn [fst snd]. next.
      destruct (Replicas (self (node ns))) as [d|]; [|done].
      next. cbn [self withSelf]. by rewrite Hnil.
Qed.

Lemma nil_pointers_panic_witness :
  let o := withPartition None (liveSet 0) in
  getFault (env (world legacyNode)) (now (world legacyNode)) = None
  ∧ objects (world legacyNode) !! keyOf (node legacyNode) = Some o
  ∧ Partition o = None
  ∧ partition (R:=unit) legacyNode = (Panic, elapse 1 legacyNode)
  ∧ setPartition (R:=unit) 2 legacyNode
    = (Panic, {| node := withSelf o (node legacyNode);
                 world := advance (world legacyNode) |}).
Proof.
  intros o.
  assert (Hf : getFault (env (world legacyNode)) (now (world legacyNode)) = None)
    by reflexivity.
  assert (Ho : objects (world legacyNode) !! keyOf (node legacyNode) = Some o)
    by (vm_compute; reflexivity).
  assert (Hp : Partition o = None) by reflexivity.
  split; [exact Hf|]. split; [exact Ho|]. split; [exact Hp|].
  exact (proj1 (nil_pointers_panic unit 2 legacyNode o Hf Ho) Hp).
Defined.

(** *** Scaling *)

Lemma clientUpdate_ok o cur w :
  updateFault (env w) (now w) = None →
  objects w !! (Namespace o, Name o) = Some cur →
  ResourceVersion o = ResourceVersion cur →
  clientUpdate o w
  = (inl (storedOver w cur o),
     logEvent (EvUpdate (storedOver w cur o)) (commit (storedOver w cur o) (advance w))).
Proof.
  intros Hf Ho Hv. unfold clientUpdate, storedOver. rewrite Hf, Ho.
  by destruct (decide _).
Qed.

Lemma setReplicaCount_writes R r ns o c :
  getFault (env (world ns)) (now (world ns)) = None →
  updateFault (env (world ns)) (S (now (world ns))) = None →
  objects (world ns) !! keyOf (node ns) = Some o →
  keyOf (node ns) = (Namespace o, Name o) →
  Replicas o = Some c → c ≠ r →
  let o' := storedOver (world ns) o (withReplicas (Some r) o) in
  setReplicaCount (R:=R) r ns
  = (Normal None,
     {| node := withSelf o' (node ns);
        world := logEvent (EvUpdate o') (commit o' (advanceBy 2 (world ns))) |}).
Proof.
  intros Hf Hu Ho Hkey Hc Hne o'. rewrite setReplicaCount_retried.
  eapply retried_first_success. rewrite setReplicaCount_attempt_run.
  pose proof Ho as Ho'. unfold keyOf in Ho'.
  rewrite (clientGet_ok _ _ _ o Hf Ho'). simpl. rewrite Hc.
  destruct (decide (c = r)); [done|].
  rewrite (clientUpdate_ok (withReplicas (Some r) o) o (advance (world ns)));
    [reflexivity|done| |done].
  simpl. by rewrite <- Hkey.
Qed.

(** X7.  [scale] is silent when there is nothing to do.  When its read
    fails, for whatever reason, it returns after that one call and the
    handle keeps the object it had.  When the stored object already
    requests the replica count of the handle, the handle takes over the
    stored object and nothing is written. *)
Theorem scale_is_silent_when_settled (R : Type) (ns : NodeState) :
  (∀ e, (clientGet (Namespace (self (node ns))) (Name (self (node ns))) (world ns)).1
        = inr e →
        scale (R:=R) ns = (Normal tt, elapse 1 ns))
  ∧ (∀ o d,
       getFault (env (world ns)) (now (world ns)) = None →
       objects (world ns) !! keyOf (node ns) = Some o →
       Replicas (self (node ns)) = Some d →
       Replicas o = Some d →
       scale (R:=R) ns
       = (Normal tt, {| node := withSelf o (node ns); world := advance (world ns) |})).
Proof.
  split.
  - intros e He. unfold scale, call. next. rewrite bind_run, getIntoSelf_run, He.
    reflexivity.
  - intros o d Hf Ho Hd Hc. unfold keyOf in Ho. unfold scale, call. next.
    rewrite bind_run, getIntoSelf_run, (clientGet_ok _ _ _ o Hf Ho). cbn [fst snd].
    next. rewrite Hd. next. cbn [self withSelf]. rewrite Hc. next.
    by destruct (decide (d ≠ d)).
Qed.

Lemma scale_is_silent_when_settled_witness :
  getFault (env (world healthyNode)) (now (world healthyNode)) = None
  ∧ objects (world healthyNode) !! keyOf (node healthyNode) = Some (liveSet 0)
  ∧ Replicas (self (node healthyNode)) = Some 3
  ∧ Replicas (liveSet 0) = Some 3
  ∧ scale (R:=unit) healthyNode
    = (Normal tt, {| node := withSelf (liveSet 0) (node healthyNode);
                     world := advance (world healthyNode) |}).
Proof.
  assert (Hf : getFault (env (world healthyNode)) (now (world healthyNode)) = None)
    by reflexivity.
  assert (Ho : objects (world healthyNode) !! keyOf (node healthyNode) = Some (liveSet 0))
    by (vm_compute; reflexivity).
  assert (Hd : Replicas (self (node healthyNode)) = Some 3) by reflexivity.
  assert (Hc : Replicas (liveSet 0) = Some 3) by reflexivity.
  split; [exact Hf|]. split; [exact Ho|]. split; [exact Hd|]. split; [exact Hc|].
  exact (proj2 (scale_is_silent_when_settled unit healthyNode) (liveSet 0) 3 Hf Ho Hd Hc).
Defined.

(** X8.  [scale] pushes the replica count of the handle.  When the
    stored object requests another count and the API answers, the object
    is read a second time by [setReplicaCount] and updated once: the store
    then holds the object as it was read, with the count of the handle and
    a new resource version, and the handle holds that stored object. *)
Theorem scale_pushes_the_desired_count (R : Type) (ns : NodeState)
  (o : StatefulSet) (d c : Z) :
  storeOK (world ns) →
  getFault (env (world ns)) (now (world ns)) = None →
  getFault (env (world ns)) (S (now (world ns))) = None →
  updateFault (env (world ns)) (S (S (now (world ns)))) = None →
  objects (world ns) !! keyOf (node ns) = Some o →
  Replicas (self (node ns)) = Some d →
  Replicas o = Some c → d ≠ c →
  let o' := storedOver (world ns) o (withReplicas (Some d) o) in
  scale (R:=R) ns
  = (Normal tt,
     {| node := withSelf o' (node ns);
        world := logEvent (EvUpdate o') (commit o' (advanceBy 3 (world ns))) |})
  ∧ liveReplicas (scale (R:=R) ns).2 d.
Proof.
  intros Hstore Hf Hf1 Hu Ho Hd Hc Hne o'.
  pose proof (Hstore _ _ Ho) as Hkey. pose proof Ho as Ho'. unfold keyOf in Ho'.
  assert (Hrun : scale (R:=R) ns
    = (Normal tt,
       {| node := withSelf o' (node ns);
          world := logEvent (EvUpdate o') (commit o' (advanceBy 3 (world ns))) |})).
  { unfold scale, call. next.
    rewrite bind_run, getIntoSelf_run, (clientGet_ok _ _ _ o Hf Ho'). cbn [fst snd].
    next. rewrite Hd. next. cbn [self withSelf]. rewrite Hc. next.
    destruct (decide (d ≠ c)); [|done].
    next. next. cbn [self withSelf Replicas withReplicas]. next.
    rewrite bind_run.
    rewrite (setReplicaCount_writes unit d _ o c); try done.
    unfold keyOf. cbn [node world self withSelf withReplicas Namespace Name advance objects].
    exact (eq_ind _ (λ k, objects (world ns) !! k = Some o) Ho _ Hkey). }
  split; [exact Hrun|]. rewrite Hrun. exists o'. unfold keyOf. simpl.
  split; [apply lookup_insert_eq|done].
Qed.

Lemma scale_pushes_the_desired_count_witness :
  let o' := storedOver (world growingNode) (liveSet 0) (withReplicas (Some 5) (liveSet 0)) in
  storeOK (world growingNode)
  ∧ getFault (env (world growingNode)) (now (world growingNode)) = None
  ∧ getFault (env (world growingNode)) (S (now (world growingNode))) = None
  ∧ updateFault (env (world growingNode)) (S (S (now (world growingNode)))) = None
  ∧ objects (world growingNode) !! keyOf (node growingNode) = Some (liveSet 0)
  ∧ Replicas (self (node growingNode)) = Some 5
  ∧ Replicas (liveSet 0) = Some 3
  ∧ 5 ≠ 3
  ∧ scale (R:=unit) growingNode
    = (Normal tt,
       {| node := withSelf o' (node growingNode);
          world := logEvent (EvUpdate o') (commit o' (advanceBy 3 (world growingNode))) |})
  ∧ liveReplicas (scale (R:=unit) growingNode).2 5.
Proof.
  intros o'.
  assert (Hs : storeOK (world growingNode)) by apply storeOK_worldWith.
  assert (Hf : getFault (env (world growingNode)) (now (world growingNode)) = None)
    by reflexivity.
  assert (Hf1 : getFault (env (world growingNode)) (S (now (world growingNode))) = None)
    by reflexivity.
  assert (Hu : updateFault (env (world growingNode)) (S (S (now (world growingNode)))) = None)
    by reflexivity.
  assert (Ho : objects (world growingNode) !! keyOf (node growingNode) = Some (liveSet 0))
    by (vm_compute; reflexivity).
  assert (Hd : Replicas (self (node growingNode)) = Some 5) by reflexivity.
  assert (Hc : Replicas (liveSet 0) = Some 3) by reflexivity.
  assert (Hne : 5 ≠ 3) by lia.
  split; [exact Hs|]. split; [exact Hf|]. split; [exact Hf1|]. split; [exact Hu|].
  split; [exact Ho|]. split; [exact Hd|]. split; [exact Hc|]. split; [exact Hne|].
  exact (scale_pushes_the_desired_count unit growingNode (liveSet 0) 5 3
           Hs Hf Hf1 Hu Ho Hd Hc Hne).
Defined.

(** *** Creation *)

Lemma createSelf_run R ns :
  createSelf (R:=R) ns =
  match clientCreate (self (node ns)) (world ns) with
  | (inl o, w) => (Normal None, {| node := withSelf o (node ns); world := w |})
  | (inr e, w) => (Normal (Some e), {| node := node ns; world := w |})
  end.
Proof.
  unfold createSelf. rewrite !bind_run. simpl. rewrite bind_run, extern_run.
  by destruct (clientCreate _ _) as [[o|e] w].
Qed.

(** X9.  [create] on a handle that was never persisted, when nothing is
    stored under its name and the API accepts the creation: the object of
    the handle is stored under a fresh resource version, which the handle
    takes over, and both fingerprints of the handle are set to what the
    fingerprint oracles answer next.  The call returns nil after these
    three calls; [scale] is not run. *)
Theorem create_stores_a_fresh_object (R : Type) (ns : NodeState) :
  ResourceVersion (self (node ns)) = "" →
  createFault (env (world ns)) (now (world ns)) = None →
  objects (world ns) !! keyOf (node ns) = None →
  let o' := withResourceVersion (nextVersion (world ns)) (self (node ns)) in
  let h1 := configmapDataHash (env (world ns)) (S (now (world ns))) in
  let h2 := secretDataHash (env (world ns)) (S (S (now (world ns)))) in
  create (R:=R) ns
  = (Normal None,
     {| node := withSecretHash h2 (withConfigmapHash h1 (withSelf o' (node ns)));
        world := advanceBy 2 (logEvent (EvCreate o') (commit o' (advance (world ns)))) |}).
Proof.
  intros Hv Hf Ho o' h1 h2. unfold keyOf in Ho. unfold create, call. next.
  destruct (decide (ResourceVersion (self (node ns)) = "")); [|done].
  rewrite !bind_run, createSelf_run. unfold clientCreate. rewrite Hf, Ho.
  reflexivity.
Qed.

Lemma create_stores_a_fresh_object_witness :
  let o' := withResourceVersion "1" (self handle) in
  ResourceVersion (self (node freshNode)) = ""
  ∧ createFault (env (world freshNode)) (now (world freshNode)) = None
  ∧ objects (world freshNode) !! keyOf (node freshNode) = None
  ∧ create (R:=unit) freshNode
    = (Normal None,
       {| node := withSecretHash "secret-1" (withConfigmapHash "cm-1" (withSelf o' handle));
          world := advanceBy 2 (logEvent (EvCreate o')
                                  (commit o' (advance (world freshNode)))) |}).
Proof.
  intros o'.
  assert (Hv : ResourceVersion (self (node freshNode)) = "") by reflexivity.
  assert (Hf : createFault (env (world freshNode)) (now (world freshNode)) = None)
    by reflexivity.
  assert (Ho : objects (world freshNode) !! keyOf (node freshNode) = None)
    by reflexivity.
  split; [exact Hv|]. split; [exact Hf|]. split; [exact Ho|].
  exact (create_stores_a_fresh_object unit freshNode Hv Hf Ho).
Defined.

(** X10.  A creation the API refuses for another reason than
    "already exists" is reported: [create] returns the error
    "Could not create node resource" wrapping the cause, after that single
    call; nothing is stored, the fingerprints are not read and [scale] is
    not run. *)
Theorem create_reports_a_refusal (R : Type) (ns : NodeState)
  (reason : StatusReason) (msg : string) :
  ResourceVersion (self (node ns)) = "" →
  createFault (env (world ns)) (now (world ns)) = Some (reason, msg) →
  reason ≠ AlreadyExists →
  create (R:=R) ns
  = (Normal (Some (Errorf "Could not create node resource: %v"
                     [VErr (ErrStatus reason msg)])),
     elapse 1 ns).
Proof.
  intros Hv Hf Hr. unfold create, call. next.
  destruct (decide (ResourceVersion (self (node ns)) = "")); [|done].
  rewrite !bind_run, createSelf_run. unfold clientCreate. rewrite Hf.
  by destruct reason.
Qed.

Lemma create_reports_a_refusal_witness :
  ResourceVersion (self (node forbiddenNode)) = ""
  ∧ createFault (env (world forbiddenNode)) (now (world forbiddenNode))
    = Some (InternalError, "admission webhook denied the request")
  ∧ InternalError ≠ AlreadyExists
  ∧ create (R:=unit) forbiddenNode
    = (Normal (Some (Errorf "Could not create node resource: %v"
                       [VErr (ErrStatus InternalError
                                "admission webhook denied the request")])),
       elapse 1 forbiddenNode).
Proof.
  assert (Hv : ResourceVersion (self (node forbiddenNode)) = "") by reflexivity.
  assert (Hf : createFault (env (world forbiddenNode)) (now (world forbiddenNode))
               = Some (InternalError, "admission webhook denied the request"))
    by reflexivity.
  assert (Hr : InternalError ≠ AlreadyExists) by discriminate.
  split; [exact Hv|]. split; [exact Hf|]. split; [exact Hr|].
  exact (create_reports_a_refusal unit forbiddenNode InternalError
           "admission webhook denied the request" Hv Hf Hr).
Defined.

Lemma triple_conj {S R A} (P1 P2 : S → Prop) (m : M S R A)
  (Qn1 Qn2 : A → S → Prop) (Qr1 Qr2 : R → S → Prop) (Qp1 Qp2 : S → Prop) :
  triple P1 m Qn1 Qr1 Qp1 →
  triple P2 m Qn2 Qr2 Qp2 →
  triple (λ s, P1 s ∧ P2 s) m
    (λ a s, Qn1 a s ∧ Qn2 a s) (λ r s, Qr1 r s ∧ Qr2 r s) (λ s, Qp1 s ∧ Qp2 s).
Proof.
  intros H1 H2 s [Hs1 Hs2]. specialize (H1 s Hs1). specialize (H2 s Hs2).
  unfold outcome in *. by destruct (m s).1.
Qed.

Lemma grewBy_refl t0 allowed w : trace w = t0 → grewBy t0 allowed w.
Proof. intros H. exists []. by rewrite app_nil_r. Qed.

Lemma grewBy_snoc t0 allowed w w' ev :
  grewBy t0 allowed w → allowed ev = true →
  trace w' = (trace w ++ [ev])%list →
  grewBy t0 allowed w'.
Proof.
  intros (evs & Ht & Hall) Hev Ht'. exists (evs ++ [ev])%list.
  rewrite Ht', Ht, <- app_assoc. split; [done|].
  rewrite forallb_app, Hall. simpl. by rewrite Hev.
Qed.

Lemma grewBy_trans t0 allowed w w' :
  grewBy t0 allowed w → grewBy (trace w) allowed w' → grewBy t0 allowed w'.
Proof.
  intros (evs & Ht & Hall) (evs' & Ht' & Hall'). exists (evs ++ evs')%list.
  rewrite Ht', Ht, <- app_assoc. split; [done|].
  by rewrite forallb_app, Hall, Hall'.
Qed.

(** [setReplicaCount] writes updates only, and touches nothing of the
    handle but [self]. *)
Lemma setReplicaCount_beside R r n0 t0 :
  let I ns := besideSelf n0 (node ns) ∧ grewBy t0 isUpdate (world ns) in
  triple I (setReplicaCount (R:=R) r) (λ _, I) (λ _ _, False) I.
Proof.
  intros I. rewrite setReplicaCount_retried.
  eapply triple_weaken; [apply (retried_rule _ I I I)|done| |done|done].
  2:{ by intros [e|] ns H. }
  intros [l ns] [Hn Ht]. simpl in Hn, Ht. unfold outcome, I.
  rewrite setReplicaCount_attempt_run.
  destruct (clientGet _ _ _).1 as [o|e] eqn:Hget; simpl.
  2:{ split; [by eapply clientGet_error_not_timeout|done]. }
  destruct (Replicas o) as [q|] eqn:Hq; simpl; [|done].
  destruct (decide (q = r)) as [->|Hne]; simpl; [done|].
  destruct (clientUpdate_cases (withReplicas (Some r) o) (advance (world ns)))
    as [(e & -> & He)|(cur & Hcur & _ & _ & ->)]; simpl; [done|].
  split; [done|].
  eapply (grewBy_snoc t0 isUpdate (world ns) _ (EvUpdate _)); [exact Ht|done|done].
Qed.

(** What [scale] maintains, however it ends. *)
Lemma scale_keeps R n0 t0 k0 m0 :
  let I ns :=
    (storeOK (world ns) ∧ keyOf (node ns) = k0
     ∧ changedOnlyAt k0 sameButReplicas m0 (objects (world ns)))
    ∧ besideSelf n0 (node ns) ∧ grewBy t0 isUpdate (world ns) in
  triple I (scale (R:=R)) (λ _, I) (λ _ _, False) I.
Proof.
  intros I ns HI. unfold outcome, scale, call. next.
  rewrite bind_run, getIntoSelf_run.
  destruct (clientGet _ _ _).1 as [o|e] eqn:Hget; cbn [fst snd]; [|exact HI].
  apply clientGet_found in Hget as [_ Ho].
  destruct HI as [(Hstore & Hk & Hch) [Hn Ht]].
  pose proof (Hstore _ _ Ho) as Hkey. injection Hkey as Hns Hnm.
  assert (HI1 : ∀ o1, Namespace o1 = Namespace o → Name o1 = Name o →
                I {| node := withSelf o1 (node ns); world := advance (world ns) |}).
  { intros o1 H1 H2. unfold I, keyOf. simpl. rewrite H1, H2, <- Hns, <- Hnm.
    split; [split; [done|split; [done|done]]|split; [exact Hn|exact Ht]]. }
  next. destruct (Replicas (self (node ns))) as [d|]; [|by apply HI1].
  next. cbn [self withSelf].
  destruct (Replicas o) as [c|]; [|by apply HI1].
  next. destruct (decide (d ≠ c)); [|by apply HI1].
  next. next. cbn [self withSelf Replicas withReplicas]. next. rewrite bind_run.
  pose proof (triple_conj _ _ _ _ _ _ _ _ _
                (setReplicaCount_keeps_the_rest unit d k0 m0)
                (setReplicaCount_beside unit d n0 t0)
                {| node := withSelf (withReplicas (Some d) o) (node ns);
                   world := advance (world ns) |}) as H.
  unfold outcome in H.
  destruct (setReplicaCount d _) as [[err|?|] ns']; simpl in *.
  - apply H. by apply (HI1 (withReplicas (Some d) o)).
  - exfalso. apply H. by apply (HI1 (withReplicas (Some d) o)).
  - apply H. by apply (HI1 (withReplicas (Some d) o)).
Qed.

(** X11.  [create] adopts an object that is already there.  When the
    handle carries a resource version, or when the creation is refused as
    "already exists", [create] does nothing more than [scale]: it returns
    nil unless [scale] panics, writes updates only, changes nothing of the
    stored object but the replica count and the resource version, and
    leaves the fingerprints of the handle as they were: on these paths they are not
    seeded. *)
Theorem create_adopts_without_seeding (R : Type) (ns : NodeState) :
  storeOK (world ns) →
  ResourceVersion (self (node ns)) ≠ ""
  ∨ (∃ msg, createFault (env (world ns)) (now (world ns)) = Some (AlreadyExists, msg))
  ∨ (createFault (env (world ns)) (now (world ns)) = None
     ∧ is_Some (objects (world ns) !! keyOf (node ns))) →
  let r := create (R:=R) ns in
  (r.1 = Normal None ∨ r.1 = Panic)
  ∧ besideSelf (node ns) (node r.2)
  ∧ grewBy (trace (world ns)) isUpdate (world r.2)
  ∧ changedOnlyAt (keyOf (node ns)) sameButReplicas
      (objects (world ns)) (objects (world r.2)).
Proof.
  intros Hstore Hcase r.
  pose (I := λ ns0 : NodeState,
    (storeOK (world ns0) ∧ keyOf (node ns0) = keyOf (node ns)
     ∧ changedOnlyAt (keyOf (node ns)) sameButReplicas
         (objects (world ns)) (objects (world ns0)))
    ∧ besideSelf (node ns) (node ns0)
    ∧ grewBy (trace (world ns)) isUpdate (world ns0)).
  assert (Hnow : ∀ k, I (elapse k ns)).
  { intros k. split; [split; [done|split; [done|]]|split; [done|]].
    - apply changedOnlyAt_refl. by intros o.
    - by apply grewBy_refl. }
  assert (Hscale : ∀ ns0, I ns0 →
            ∃ ns', I ns' ∧ (scale (R:=option err) ns0 = (Normal tt, ns')
                             ∨ scale (R:=option err) ns0 = (Panic, ns'))).
  { intros ns0 H0.
    pose proof (scale_keeps (option err) (node ns) (trace (world ns)) (keyOf (node ns))
                  (objects (world ns)) ns0 H0) as H.
    unfold outcome in H. destruct (scale ns0) as [[[]|?|] ns']; simpl in H.
    - exists ns'. split; [exact H|by left].
    - done.
    - exists ns'. split; [exact H|by right]. }
  assert (Hend : ∀ ns', I ns' →
            besideSelf (node ns) (node ns')
            ∧ grewBy (trace (world ns)) isUpdate (world ns')
            ∧ changedOnlyAt (keyOf (node ns)) sameButReplicas
                (objects (world ns)) (objects (world ns'))).
  { intros ns' [(_ & _ & Hch) [Hb Hg]]. done. }
  subst r. unfold create, call. next.
  destruct (decide (ResourceVersion (self (node ns)) = "")) as [Hv|Hv].
  - destruct Hcase as [Hcase|Hcase]; [done|].
    assert (Hexists : ∃ e, clientCreate (self (node ns)) (world ns)
                           = (inr e, advance (world ns)) ∧ IsAlreadyExists e = true).
    { unfold clientCreate. destruct Hcase as [[msg ->]|[-> [o Ho]]].
      - by eexists.
      - unfold keyOf in Ho. rewrite Ho. by eexists. }
    destruct Hexists as (e & Hc & He).
    rewrite !bind_run, createSelf_run, Hc. cbn [fst snd]. rewrite He. cbn [negb].
    rewrite !bind_run.
    destruct (Hscale (elapse 1 ns) (Hnow 1%nat)) as (ns' & HI' & [Hs|Hs]).
    + change {| node := node ns; world := advance (world ns) |} with (elapse 1 ns).
      rewrite Hs. simpl. split; [by left|by apply Hend].
    + change {| node := node ns; world := advance (world ns) |} with (elapse 1 ns).
      rewrite Hs. simpl. split; [by right|by apply Hend].
  - rewrite bind_run.
    destruct (Hscale ns) as (ns' & HI' & [Hs|Hs]).
    { rewrite <- (elapse_0 ns). apply Hnow. }
    + rewrite Hs. simpl. split; [by left|by apply Hend].
    + rewrite Hs. simpl. split; [by right|by apply Hend].
Qed.

Lemma create_adopts_without_seeding_witness :
  let r := create (R:=unit) healthyNode in
  storeOK (world healthyNode)
  ∧ (ResourceVersion (self (node healthyNode)) ≠ ""
     ∨ (∃ msg, createFault (env (world healthyNode)) (now (world healthyNode))
               = Some (AlreadyExists, msg))
     ∨ (createFault (env (world healthyNode)) (now (world healthyNode)) = None
        ∧ is_Some (objects (world healthyNode) !! keyOf (node healthyNode))))
  ∧ (r.1 = Normal None ∨ r.1 = Panic)
  ∧ besideSelf (node healthyNode) (node r.2)
  ∧ grewBy (trace (world healthyNode)) isUpdate (world r.2)
  ∧ changedOnlyAt (keyOf (node healthyNode)) sameButReplicas
      (objects (world healthyNode)) (objects (world r.2)).
Proof.
  intros r.
  assert (Hs : storeOK (world healthyNode)) by apply storeOK_worldWith.
  assert (Hc : ResourceVersion (self (node healthyNode)) ≠ ""
     ∨ (∃ msg, createFault (env (world healthyNode)) (now (world healthyNode))
               = Some (AlreadyExists, msg))
     ∨ (createFault (env (world healthyNode)) (now (world healthyNode)) = None
        ∧ is_Some (objects (world healthyNode) !! keyOf (node healthyNode)))).
  { right. right. split; [reflexivity|]. exists (liveSet 0). vm_compute. reflexivity. }
  split; [exact Hs|]. split; [exact Hc|].
  exact (create_adopts_without_seeding unit healthyNode Hs Hc).
Defined.

(** ** The upgrade status across calls *)

Section Returns.
Context {S R : Type}.
Variable early : R → Prop.

Lemma returnsOnly_ret {A} (a : A) : returnsOnly (S:=S) early (ret a).
Proof. by intros s. Qed.

Lemma returnsOnly_returnWith {A} (r : R) :
  early r → returnsOnly (S:=S) (A:=A) early (returnWith r).
Proof. by intros H s. Qed.

Lemma returnsOnly_call {A} (body : M S A A) : returnsOnly early (call body).
Proof. intros s. unfold call. by destruct (body s) as [[?|?|] ?]. Qed.

Lemma returnsOnly_bind {A B} (m : M S R A) (k : A → M S R B) :
  returnsOnly early m → (∀ a, returnsOnly early (k a)) →
  returnsOnly early (bind m k).
Proof.
  intros Hm Hk s. rewrite bind_run. specialize (Hm s).
  destruct (m s) as [[a|r|] s']; simpl in *; [apply Hk|done|done].
Qed.

Lemma returnsOnly_forDown (body : Z → M S R unit) (fuel : nat) (index : Z) :
  (∀ i, returnsOnly early (body i)) →
  returnsOnly early (forDown fuel index body).
Proof.
  intros Hbody. revert index. induction fuel as [|fuel IH]; intros index; simpl.
  - destruct (decide _); apply returnsOnly_ret.
  - destruct (decide _); [|apply returnsOnly_ret].
    apply returnsOnly_bind; [apply Hbody|]. intros _. apply IH.
Qed.
End Returns.

Lemma returnsOnly_getNode {R} early : returnsOnly (R:=R) early getNode.
Proof. by intros s. Qed.

Lemma returnsOnly_setNode {R} early f : returnsOnly (R:=R) early (setNode f).
Proof. by intros s. Qed.

Lemma returnsOnly_extern {R A} early (op : World → A * World) :
  returnsOnly (R:=R) early (extern op).
Proof. intros s. unfold extern. by destruct (op _). Qed.

Lemma returnsOnly_any {S R A} (m : M S R A) : returnsOnly (λ _, True) m.
Proof. intros s. by destruct (m s).1. Qed.

(** The status is out of reach of the handle's own methods. *)
Lemma inner_keeps_it {R A} (early : R → Prop) (m : M NodeState R A) (u : UpgradeStatusT) :
  returnsOnly early m →
  triple (λ s : ES, s.1 = u) (inner m)
    (λ _ s, s.1 = u) (λ r s, early r ∧ s.1 = u) (λ s, s.1 = u).
Proof.
  intros Hm [u' ns] Hu. simpl in Hu. subst u'. unfold outcome.
  rewrite inner_run. specialize (Hm ns). by destruct (m ns) as [[?|?|] ?].
Qed.

Lemma modifyStatus_it {R} (early : R → Prop) f (u v : UpgradeStatusT) :
  f u = v →
  triple (λ s : ES, s.1 = u) (modifyStatus (R:=R) f)
    (λ _ s, s.1 = v) (λ r s, early r ∧ s.1 = u) (λ s, s.1 = u).
Proof. intros H [u' ns] Hu. simpl in Hu. subst u'. exact H. Qed.

(** The handle's methods are calls: no [return] of theirs ends the
    entry point. *)
Ltac returns_only :=
  repeat first
    [ apply returnsOnly_any
    | apply returnsOnly_call
    | apply returnsOnly_getNode
    | apply returnsOnly_setNode
    | apply returnsOnly_extern
    | apply returnsOnly_ret
    | apply returnsOnly_returnWith; done
    | apply returnsOnly_forDown; intros ?
    | apply returnsOnly_bind; [|intros ?]
    | match goal with
      | |- returnsOnly _ (match ?x with _ => _ end) => destruct x
      | |- returnsOnly _ (if ?x then _ else _) => destruct x
      end ].

Ltac keep_status :=
  repeat first
    [ apply triple_ret; by intros
    | apply triple_returnWith; by intros
    | apply inner_keeps_it; returns_only
    | eapply triple_bind; [apply inner_keeps_it; returns_only|intros ?]
    | match goal with
      | |- triple _ (match ?x with _ => _ end) _ _ _ => destruct x
      end ].

Lemma rollingRestart_start_status :
  statusBlock (λ _, True) started rollingRestart_start.
Proof.
  intros u [u0 ns] Hu. simpl in Hu. subst u0. unfold rollingRestart_start, started. next.
  destruct (decide _); [|done].
  eapply (triple_use (λ s : ES, s.1 = u)); [|done].
  keep_status. by apply modifyStatus_it.
Qed.

Lemma fullClusterRestart_start_status :
  statusBlock (λ _, True) started fullClusterRestart_start.
Proof.
  intros u [u0 ns] Hu. simpl in Hu. subst u0. unfold fullClusterRestart_start, started. next.
  destruct (decide _); [|done].
  eapply (triple_use (λ s : ES, s.1 = u)); [|done].
  keep_status. by apply modifyStatus_it.
Qed.

Lemma update_start_status :
  statusBlock (λ r, r ≠ None) started update_start.
Proof.
  intros u [u0 ns] Hu. simpl in Hu. subst u0. unfold update_start, started. next.
  destruct (decide _); [|done].
  eapply (triple_use (λ s : ES, s.1 = u)); [|done].
  keep_status. by apply modifyStatus_it.
Qed.

Lemma restart_idle_status R early : statusBlock early idled (restart_idle (R:=R)).
Proof.
  intros u [u0 ns] Hu. simpl in Hu. subst u0. unfold restart_idle, idled. next.
  by destruct (decide _).
Qed.

Lemma update_idle_status : statusBlock (λ r, r ≠ None) idled update_idle.
Proof.
  intros u [u0 ns] Hu. simpl in Hu. subst u0. unfold update_idle, idled. next.
  destruct (decide _); [|done].
  eapply (triple_use (λ s : ES, s.1 = u)); [|done].
  keep_status. by apply modifyStatus_it.
Qed.

Lemma restarting_status {R} (early : R → Prop) (work : M NodeState R unit) :
  returnsOnly early work →
  statusBlock early restarted
    (upgradeStatus ← getLocal;
     if decide (UpgradePhase upgradeStatus = NodeRestarting) then
       inner work;;
       modifyStatus (withUpgradePhase RecoveringData)
     else ret tt).
Proof.
  intros Hwork u [u0 ns] Hu. simpl in Hu. subst u0. unfold restarted. next.
  destruct (decide _); [|done].
  eapply (triple_use (λ s : ES, s.1 = u)); [|done].
  eapply triple_bind; [by apply inner_keeps_it|intros ?].
  by apply modifyStatus_it.
Qed.

Lemma update_restarting_status :
  statusBlock (λ r, r ≠ None) restarted update_restarting.
Proof.
  apply restarting_status. unfold update_fromOrdinal, update_step. returns_only.
Qed.

Lemma recovering_run R (u : UpgradeStatusT) (ns : NodeState) :
  recovering (R:=R) (u, ns) = (Normal tt, (recovered u, ns)).
Proof. unfold recovering, recovered. next. by destruct (decide _). Qed.

Lemma completed_is_reached u : recovered (restarted (idled (started u))) = completed u.
Proof.
  destruct u as [f1 f2 uu ph]. unfold started, idled, restarted, recovered, completed.
  destruct uu, ph; reflexivity.
Qed.

(** Three blocks in a row, then the rest [k] of the body: [k] starts from
    the status the three blocks leave; any of them may end the call. *)
Lemma blocks_status {X A} (early : X → Prop) (b1 b2 b3 : M ES X unit) (k : M ES X A)
  (u : UpgradeStatusT) Qn (Qr : X → ES → Prop) (Qp : ES → Prop) :
  statusBlock early started b1 → statusBlock early idled b2 →
  statusBlock early restarted b3 →
  triple (λ s, s.1 = restarted (idled (started u))) k Qn Qr Qp →
  (∀ r s, early r → leftEarly u s.1 → Qr r s) →
  (∀ s, leftEarly u s.1 → Qp s) →
  triple (λ s, s.1 = u) (b1;; b2;; b3;; k) Qn Qr Qp.
Proof.
  intros H1 H2 H3 Hk Hr Hp. unfold leftEarly in *.
  eapply triple_bind.
  { eapply triple_weaken; [apply (H1 u)|done| | |]; simpl.
    - intros ? s Hs. exact Hs.
    - intros r s [? Hs]. apply Hr; auto.
    - intros s Hs. apply Hp; auto. }
  intros ?. eapply triple_bind.
  { eapply triple_weaken; [apply (H2 (started u))|done| | |]; simpl.
    - intros ? s Hs. exact Hs.
    - intros r s [? Hs]. apply Hr; auto.
    - intros s Hs. apply Hp; auto. }
  intros ?. eapply triple_bind.
  { eapply triple_weaken; [apply (H3 (idled (started u)))|done| | |]; simpl.
    - intros ? s Hs. exact Hs.
    - intros r s [? Hs]. apply Hr; auto.
    - intros s Hs. apply Hp; auto. }
  intros ?. exact Hk.
Qed.

Lemma restart_body_status {R} (b1 b3 : M ES unit unit) (s : ES) :
  statusBlock (λ _, True) started b1 →
  statusBlock (λ _, True) restarted b3 →
  let r := call (R:=R) (b1;; restart_idle;; b3;; recovering) s in
  leftEarly s.1 r.2.1 ∨ r.2.1 = completed s.1.
Proof.
  intros H1 H3 r.
  pose proof (blocks_status (λ _, True) b1 restart_idle b3 recovering s.1
                (λ _ s', s'.1 = completed s.1)
                (λ _ s', leftEarly s.1 s'.1) (λ s', leftEarly s.1 s'.1)
                H1 (restart_idle_status unit _) H3) as H.
  assert (Hk : triple (λ s' : ES, s'.1 = restarted (idled (started s.1)))
                 (recovering (R:=unit))
                 (λ _ s', s'.1 = completed s.1)
                 (λ _ s', leftEarly s.1 s'.1) (λ s', leftEarly s.1 s'.1)).
  { intros [u' ns'] Hu'. simpl in Hu'. unfold outcome. rewrite recovering_run. simpl.
    by rewrite Hu', completed_is_reached. }
  specialize (H Hk (λ _ _ _ Hs, Hs) (λ _ Hs, Hs) s eq_refl).
  subst r. unfold outcome, call in *.
  destruct ((b1;; restart_idle;; b3;; recovering) s) as [[?|?|] s']; simpl in *; auto.
Qed.

Lemma rollingRestart_status R (s : ES) :
  let r := rollingRestart (R:=R) s in
  leftEarly s.1 r.2.1 ∨ r.2.1 = completed s.1.
Proof.
  apply restart_body_status; [apply rollingRestart_start_status|].
  apply restarting_status, returnsOnly_any.
Qed.

Lemma fullClusterRestart_status R (s : ES) :
  let r := fullClusterRestart (R:=R) s in
  leftEarly s.1 r.2.1 ∨ r.2.1 = completed s.1.
Proof.
  apply restart_body_status; [apply fullClusterRestart_start_status|].
  apply restarting_status, returnsOnly_any.
Qed.

(** [update] returns nil from its last statement only. *)
Lemma update_status R (s : ES) :
  let r := update (R:=R) s in
  match r.1 with
  | Normal None => r.2.1 = completed s.1
  | Normal (Some _) | Panic => leftEarly s.1 r.2.1
  | Returned _ => False
  end.
Proof.
  intros r.
  pose proof (blocks_status (λ r, r ≠ None) update_start update_idle update_restarting
                (recovering;; returnWith (A:=error) None) s.1
                (λ _ _, False)
                (λ r s', match r with
                         | None => s'.1 = completed s.1
                         | Some _ => leftEarly s.1 s'.1
                         end)
                (λ s', leftEarly s.1 s'.1)
                update_start_status update_idle_status update_restarting_status) as H.
  assert (Hk : triple (λ s' : ES, s'.1 = restarted (idled (started s.1)))
                 (recovering (R:=error);; returnWith (A:=error) None)
                 (λ _ _, False)
                 (λ r s', match r with
                          | None => s'.1 = completed s.1
                          | Some _ => leftEarly s.1 s'.1
                          end)
                 (λ s', leftEarly s.1 s'.1)).
  { intros [u' ns'] Hu'. simpl in Hu'. unfold outcome.
    rewrite bind_run, recovering_run. simpl. by rewrite Hu', completed_is_reached. }
  assert (Hr : ∀ (r : error) (s' : ES), r ≠ None → leftEarly s.1 s'.1 →
                 match r with
                 | None => s'.1 = completed s.1
                 | Some _ => leftEarly s.1 s'.1
                 end).
  { by intros [e|] s' Hne Hs'. }
  specialize (H Hk Hr (λ _ Hs, Hs) s eq_refl).
  subst r. unfold update.
  match goal with
  | |- context [call ?body s] =>
      assert (H2 : outcome (λ _ _, False)
                     (λ (r : error) (s' : ES),
                        match r with
                        | None => s'.1 = completed s.1
                        | Some _ => leftEarly s.1 s'.1
                        end)
                     (λ s', leftEarly s.1 s'.1) (body s)) by exact H;
      unfold call; unfold outcome in H2;
      destruct (body s) as [[?|[?|]|] s']; simpl in *; done
  end.
Qed.

Lemma flags_kept u v :
  leftEarly u v ∨ v = completed u →
  ScheduledForUpgrade v = ScheduledForUpgrade u
  ∧ ScheduledForCertRedeploy v = ScheduledForCertRedeploy u.
Proof.
  unfold leftEarly, started, idled, completed.
  intros [ [ -> | [ -> | -> ] ] | -> ]; repeat destruct (decide _); done.
Qed.

Lemma invoke_status (e : EntryPoint) (s : ES) :
  leftEarly s.1 (invoke e s).1 ∨ (invoke e s).1 = completed s.1.
Proof.
  destruct e; simpl.
  - apply rollingRestart_status.
  - apply fullClusterRestart_status.
  - pose proof (update_status unit s) as H. simpl in H.
    destruct (update s) as [[[?|]|?|] s']; simpl in *; auto. done.
Qed.

(** X12.  What a call can do to the upgrade status.  After
    [rollingRestart], [fullClusterRestart] or [update], whatever the handle
    and the world, the status is the one the call found, or that one
    marked as under upgrade, or that one moved on to [NodeRestarting] as
    well, or else the status of a finished cycle: phase [ControllerUpdated]
    and [UnderUpgrade] cleared.  No call ends with [RecoveringData] newly
    set, and none changes the two scheduling flags. *)
Theorem status_after_a_call (e : EntryPoint) (s : ES) :
  let u := s.1 in
  let u' := (invoke e s).1 in
  (u' = u ∨ u' = started u ∨ u' = idled (started u) ∨ u' = completed u)
  ∧ ScheduledForUpgrade u' = ScheduledForUpgrade u
  ∧ ScheduledForCertRedeploy u' = ScheduledForCertRedeploy u.
Proof.
  intros u u'. pose proof (invoke_status e s) as H. fold u u' in H.
  split; [|by apply flags_kept].
  destruct H as [[H|[H|H]]|H]; auto.
Qed.

(** X13.  [update] returns nil from its last statement only: when it
    does, the cycle is finished, the phase is [ControllerUpdated] and
    [UnderUpgrade] is cleared; the scheduling flags are as they were.  Every
    earlier way out of [update] returns an error. *)
Theorem update_nil_means_cycle_complete (R : Type) (s s' : ES) :
  update (R:=R) s = (Normal None, s') →
  s'.1 = completed s.1
  ∧ UpgradePhase s'.1 = ControllerUpdated ∧ UnderUpgrade s'.1 = ConditionEmpty.
Proof.
  intros H. pose proof (update_status R s) as Hs. simpl in Hs. rewrite H in Hs.
  simpl in Hs. by rewrite Hs.
Qed.

Lemma update_nil_means_cycle_complete_witness :
  let s := (recoveringStatus, healthyNode) in
  let s' := (completed recoveringStatus, healthyNode) in
  update (R:=unit) s = (Normal None, s')
  ∧ s'.1 = completed s.1
  ∧ UpgradePhase s'.1 = ControllerUpdated ∧ UnderUpgrade s'.1 = ConditionEmpty.
Proof.
  intros s s'.
  assert (H : update (R:=unit) s = (Normal None, s')) by reflexivity.
  split; [exact H|].
  exact (update_nil_means_cycle_complete unit s s' H).
Defined.

Lemma marked_step u v :
  midCycleIsMarked u → leftEarly u v ∨ v = completed u → midCycleIsMarked v.
Proof.
  unfold midCycleIsMarked, leftEarly, started, idled, completed.
  intros Hu [ [ -> | [ -> | -> ] ] | -> ]; repeat destruct (decide _); simpl;
    try done.
  all: try (intros [H|H]; discriminate H).
  all: intros _; destruct (decide (UnderUpgrade u = ConditionTrue)); [done|contradiction].
Qed.

(** X14.  A status that shows a restart in progress is marked as under
    upgrade.  If the status satisfies this before a sequence of calls to
    the three entry points, it does after each of them, whatever the handle
    and the world each call finds: a call that finds the phase at
    [NodeRestarting] or [RecoveringData] therefore skips the start block,
    health gate included, and resumes where the last call ended. *)
Theorem restart_in_progress_is_marked (u : UpgradeStatusT)
  (calls : list (EntryPoint * NodeState)) :
  midCycleIsMarked u →
  Forall midCycleIsMarked (statusesAfter u calls).
Proof.
  revert u. induction calls as [|[e ns] calls IH]; intros u Hu; simpl; [constructor|].
  assert (H : midCycleIsMarked (invoke e (u, ns)).1).
  { eapply marked_step; [exact Hu|]. apply (invoke_status e (u, ns)). }
  constructor; [exact H|by apply IH].
Qed.

Lemma restart_in_progress_is_marked_witness :
  midCycleIsMarked idleStatus
  ∧ Forall midCycleIsMarked
      (statusesAfter idleStatus [(RollingRestart, healthyNode); (Update, yellowNode)]).
Proof.
  assert (H : midCycleIsMarked idleStatus) by (intros [H|H]; discriminate H).
  split; [exact H|].
  exact (restart_in_progress_is_marked idleStatus
           [(RollingRestart, healthyNode); (Update, yellowNode)] H).
Defined.

(** X15.  A call that finds the upgrade marked and the phase at
    [RecoveringData] finishes the cycle at once.  Each of the three entry
    points sets the phase to [ControllerUpdated] and clears [UnderUpgrade]
    without a single call to the API, to the cluster or to the pod
    controller: handle and world are untouched, and [update] returns nil. *)
Theorem recovering_data_completes_at_once (R : Type) (u : UpgradeStatusT) (ns : NodeState) :
  UnderUpgrade u = ConditionTrue →
  UpgradePhase u = RecoveringData →
  rollingRestart (R:=R) (u, ns) = (Normal tt, (completed u, ns))
  ∧ fullClusterRestart (R:=R) (u, ns) = (Normal tt, (completed u, ns))
  ∧ update (R:=R) (u, ns) = (Normal None, (completed u, ns)).
Proof.
  destruct u as [f1 f2 uu ph]. simpl. intros -> ->. by repeat split.
Qed.

Lemma recovering_data_completes_at_once_witness :
  UnderUpgrade recoveringStatus = ConditionTrue
  ∧ UpgradePhase recoveringStatus = RecoveringData
  ∧ rollingRestart (R:=unit) (recoveringStatus, yellowNode)
    = (Normal tt, (completed recoveringStatus, yellowNode))
  ∧ fullClusterRestart (R:=unit) (recoveringStatus, yellowNode)
    = (Normal tt, (completed recoveringStatus, yellowNode))
  ∧ update (R:=unit) (recoveringStatus, yellowNode)
    = (Normal None, (completed recoveringStatus, yellowNode)).
Proof.
  assert (H1 : UnderUpgrade recoveringStatus = ConditionTrue) by reflexivity.
  assert (H2 : UpgradePhase recoveringStatus = RecoveringData) by reflexivity.
  split; [exact H1|]. split; [exact H2|].
  exact (recovering_data_completes_at_once unit recoveringStatus yellowNode H1 H2).
Defined.

(** ** Inside the restarting block *)

Lemma withConfigmapHash_same n : withConfigmapHash (configmapHash n) n = n.
Proof. by destruct n. Qed.

Lemma withSecretHash_same n : withSecretHash (secretHash n) n = n.
Proof. by destruct n. Qed.

Lemma refreshHashes_run R ns :
  refreshHashes (R:=R) ns
  = (Normal tt,
     {| node := withSecretHash (secretDataHash (env (world ns)) (S (now (world ns))))
                  (withConfigmapHash (configmapDataHash (env (world ns)) (now (world ns)))
                     (node ns));
        world := advanceBy 2 (world ns) |}).
Proof.
  destruct ns as [[o cm sh cn cs] w].
  unfold refreshHashes, call. rewrite bind_run, extern_run. unfold getConfigmapDataHash.
  cbn [fst snd]. next.
  destruct (decide (_ ≠ _)) as [Hc|Hc]; [|apply dec_stable in Hc; simpl in Hc].
  - next. rewrite bind_run, extern_run. unfold getSecretDataHash.
    cbn [fst snd world advance env now node]. next.
    destruct (decide (_ ≠ _)) as [Hs|Hs]; [done|].
    apply dec_stable in Hs. simpl in Hs. cbn [ret]. unfold withSecretHash. simpl.
    by rewrite <- Hs.
  - next. rewrite bind_run, extern_run. unfold getSecretDataHash.
    cbn [fst snd world advance env now node]. next.
    destruct (decide (_ ≠ _)) as [Hs|Hs].
    + simpl. unfold withSecretHash, withConfigmapHash. simpl. by rewrite <- Hc.
    + apply dec_stable in Hs. simpl in Hs. simpl.
      unfold withSecretHash, withConfigmapHash. simpl. by rewrite <- Hc, <- Hs.
Qed.

Lemma forDown_done {S R} (body : Z → M S R unit) (fuel : nat) (index : Z) (s : S) :
  index ≤ 0 → forDown fuel index body s = (Normal tt, s).
Proof. intros H. destruct fuel; simpl; destruct (decide (index > 0)); done || lia. Qed.

Lemma forDown_first {S R} (body : Z → M S R unit) (index : Z) :
  index > 0 →
  forDown (Z.to_nat index) index body
  = (body index;; forDown (Z.to_nat (index - 1)) (index - 1) body).
Proof.
  intros H. replace (Z.to_nat index) with (Datatypes.S (Z.to_nat (index - 1))) by lia.
  simpl. by destruct (decide (index > 0)).
Qed.

Lemma waitForNodeRejoinCluster_gives_up R ns :
  (∀ j, (j < 60)%nat → observedCount ns j < clusterSize (node ns)) →
  waitForNodeRejoinCluster (R:=R) ns
  = (Normal (Some ErrWaitTimeout, false), elapse 60 ns).
Proof.
  intros Hmiss. apply (waitForNodeRejoinCluster_of R ns (Some ErrWaitTimeout)).
  apply (waitFor_miss _ (λ a b, bool_decide (a ≤ b)) rejoinCondition_run).
  intros j Hj. apply bool_decide_eq_false. specialize (Hmiss j Hj). lia.
Qed.

(** The start and idle blocks when there is nothing for them to do. *)
Lemma rollingRestart_start_skipped u ns :
  UnderUpgrade u = ConditionTrue → rollingRestart_start (u, ns) = (Normal tt, (u, ns)).
Proof. intros H. unfold rollingRestart_start. next. rewrite H. by destruct (decide _). Qed.

Lemma fullClusterRestart_start_skipped u ns :
  UnderUpgrade u = ConditionTrue → fullClusterRestart_start (u, ns) = (Normal tt, (u, ns)).
Proof. intros H. unfold fullClusterRestart_start. next. rewrite H. by destruct (decide _). Qed.

Lemma update_start_skipped u ns :
  UnderUpgrade u = ConditionTrue → update_start (u, ns) = (Normal tt, (u, ns)).
Proof. intros H. unfold update_start. next. rewrite H. by destruct (decide _). Qed.

Lemma restart_idle_skipped R u ns :
  UpgradePhase u = NodeRestarting → restart_idle (R:=R) (u, ns) = (Normal tt, (u, ns)).
Proof.
  intros H. unfold restart_idle. next. rewrite H.
  destruct (decide _) as [[?|?]|?]; done.
Qed.

Lemma update_idle_skipped u ns :
  UpgradePhase u = NodeRestarting → update_idle (u, ns) = (Normal tt, (u, ns)).
Proof.
  intros H. unfold update_idle. next. rewrite H.
  destruct (decide _) as [[?|?]|?]; done.
Qed.

(** X16.  [fullClusterRestart] has no health gate.  Invoked with
    [UnderUpgrade] not true, it never asks for the cluster health: it reads
    the replica count, then the node count, and returns untouched if either
    fails; otherwise, the stored object carrying a partition, it calls
    [setPartition] with the reported replica count (an error of that call
    is only logged), records the node count as [clusterSize] after that
    call, and sets [UnderUpgrade] to true.  No assumption on the health is
    needed. *)
Theorem fullClusterRestart_has_no_health_gate (u : UpgradeStatusT) (ns : NodeState) :
  UnderUpgrade u ≠ ConditionTrue →
  (∀ e, (clientGet (Namespace (self (node ns))) (Name (self (node ns))) (world ns)).1
        = inr e →
        fullClusterRestart_start (u, ns) = (Returned tt, (u, elapse 1 ns)))
  ∧ (∀ o size e,
       getFault (env (world ns)) (now (world ns)) = None →
       objects (world ns) !! keyOf (node ns) = Some o →
       nodeCount (env (world ns)) (S (now (world ns))) = (size, Some e) →
       fullClusterRestart_start (u, ns) = (Returned tt, (u, elapse 2 ns)))
  ∧ (∀ o size,
       getFault (env (world ns)) (now (world ns)) = None →
       objects (world ns) !! keyOf (node ns) = Some o →
       nodeCount (env (world ns)) (S (now (world ns))) = (size, None) →
       storeOK (world ns) →
       is_Some (Partition o) →
       ∃ err ns',
         setPartition (R:=unit) (StatusReplicas o) (elapse 2 ns) = (Normal err, ns')
         ∧ fullClusterRestart_start (u, ns)
           = (Normal tt, (withUnderUpgrade ConditionTrue u,
                          {| node := withClusterSize size (node ns');
                             world := world ns' |}))
         ∧ (err = None → livePartition ns' (StatusReplicas o))).
Proof.
  intros Hidle.
  split; [|split].
  - intros e He. unfold fullClusterRestart_start. next.
    destruct (decide (UnderUpgrade u ≠ ConditionTrue)) as [_|]; [|done].
    next. rewrite replicaCount_run, He. reflexivity.
  - intros o size e Hf Ho Hcount. unfold keyOf in Ho.
    unfold fullClusterRestart_start. next.
    destruct (decide (UnderUpgrade u ≠ ConditionTrue)) as [_|]; [|done].
    next. rewrite replicaCount_run, (clientGet_ok _ _ _ o Hf Ho). cbn [fst snd].
    next. rewrite extern_run. unfold GetClusterNodeCount.
    cbn [fst snd world elapse advanceBy env now]. simpl. rewrite Hcount. reflexivity.
  - intros o size Hf Ho Hcount Hstore Hpart.
    destruct (setPartition_result unit (StatusReplicas o) (elapse 2 ns))
      as (err & ns' & Hset & _ & Hlive); [done| |].
    { exists o. done. }
    exists err, ns'. split; [done|]. split; [|done].
    unfold keyOf in Ho. unfold fullClusterRestart_start. next.
    destruct (decide (UnderUpgrade u ≠ ConditionTrue)) as [_|]; [|done].
    next. rewrite replicaCount_run, (clientGet_ok _ _ _ o Hf Ho). cbn [fst snd].
    next. rewrite extern_run. unfold GetClusterNodeCount.
    cbn [fst snd world elapse advanceBy env now]. simpl. rewrite Hcount. cbn [fst snd].
    next.
    change {| node := node ns; world := advance (advanceBy 1 (world ns)) |}
      with (elapse 2 ns).
    rewrite Hset. reflexivity.
Qed.

Lemma fullClusterRestart_has_no_health_gate_witness :
  UnderUpgrade idleStatus ≠ ConditionTrue
  ∧ (healthStatus (env (world redNode)) (now (world redNode))).1 = "red"
  ∧ ∃ (err : error) ns',
      fullClusterRestart_start (idleStatus, redNode)
      = (Normal tt, (withUnderUpgrade ConditionTrue idleStatus,
                     {| node := withClusterSize 2 (node ns'); world := world ns' |}))
      ∧ (err = None → livePartition ns' 3).
Proof.
  assert (Hidle : UnderUpgrade idleStatus ≠ ConditionTrue) by done.
  split; [exact Hidle|]. split; [reflexivity|].
  destruct (proj2 (proj2 (fullClusterRestart_has_no_health_gate idleStatus redNode Hidle))
              (liveSet 2) 2)
    as (err & ns' & _ & Hstart & Hlive).
  - reflexivity.
  - reflexivity.
  - reflexivity.
  - apply storeOK_worldWith.
  - by eexists.
  - exists err, ns'. done.
Defined.

Lemma update_fromOrdinal_gives_up ordinal ns :
  (∀ j, (j < 60)%nat → observedCount ns j < clusterSize (node ns)) →
  update_fromOrdinal ordinal ns
  = (Returned (Some (Errorf "Timed out waiting for %v to rejoin cluster"
                       [VStr (name (node ns))])),
     elapse 60 ns).
Proof.
  intros Hmiss. unfold update_fromOrdinal.
  destruct (decide (ordinal > 0)) as [Hpos|Hpos].
  - rewrite forDown_first by done. rewrite !bind_run. unfold update_step at 1.
    rewrite bind_run, (waitForNodeRejoinCluster_gives_up _ ns Hmiss). reflexivity.
  - rewrite bind_run, forDown_done by lia.
    rewrite bind_run, (waitForNodeRejoinCluster_gives_up _ ns Hmiss). reflexivity.
Qed.

Lemma rollingRestart_fromOrdinal_gives_up ordinal ns :
  (∀ j, (j < 60)%nat → observedCount ns j < clusterSize (node ns)) →
  rollingRestart_fromOrdinal ordinal ns = (Returned tt, elapse 60 ns).
Proof.
  intros Hmiss. unfold rollingRestart_fromOrdinal.
  destruct (decide (ordinal > 0)) as [Hpos|Hpos].
  - rewrite forDown_first by done. rewrite !bind_run. unfold rollingRestart_step at 1.
    next. rewrite bind_run, (waitForNodeRejoinCluster_gives_up _ ns Hmiss). reflexivity.
  - rewrite bind_run, forDown_done by lia.
    rewrite bind_run, (waitForNodeRejoinCluster_gives_up _ ns Hmiss). reflexivity.
Qed.

(** X17.  A cluster that does not come back stops the restart before
    anything is touched.  With the upgrade marked and the phase at
    [NodeRestarting], the partition being read without error: if none of the
    60 polls that follow sees [clusterSize] nodes, [update] returns the
    error "Timed out waiting for ... to rejoin cluster" and
    [rollingRestart] just returns.  Whatever the partition read, no pod is
    deleted and nothing is written; the status is left as it was, so that
    the next call starts the same wait again. *)
Theorem rejoin_timeout_ends_the_call (R : Type) (u : UpgradeStatusT) (ns : NodeState)
  (p : Z) :
  UnderUpgrade u = ConditionTrue →
  UpgradePhase u = NodeRestarting →
  livePartition ns p →
  getFault (env (world ns)) (now (world ns)) = None →
  ((∀ j, (j < 60)%nat → observedCount ns (1 + j) < clusterSize (node ns)) →
   update (R:=R) (u, ns)
   = (Normal (Some (Errorf "Timed out waiting for %v to rejoin cluster"
                      [VStr (name (node ns))])),
      (u, elapse 61 ns)))
  ∧ (getFault (env (world ns)) (S (now (world ns))) = None →
     (∀ j, (j < 60)%nat → observedCount ns (2 + j) < clusterSize (node ns)) →
     rollingRestart (R:=R) (u, ns) = (Normal tt, (u, elapse 62 ns))).
Proof.
  intros Hmark Hphase Hlive Hf. split.
  - intros Hmiss. unfold update, call.
    rewrite bind_run, update_start_skipped by done. cbn [fst snd].
    rewrite bind_run, update_idle_skipped by done. cbn [fst snd].
    rewrite bind_run. unfold update_restarting. next.
    destruct (decide _) as [_|]; [|done].
    rewrite !bind_run, !inner_run. cbn [fst snd].
    rewrite bind_run, (partition_of_live _ ns p Hf Hlive). cbn [fst snd].
    rewrite (update_fromOrdinal_gives_up p (elapse 1 ns)).
    + reflexivity.
    + intros j Hj. rewrite observedCount_elapse_1. by apply Hmiss.
  - intros Hf' Hmiss. destruct Hlive as (o & Ho & Hp). unfold rollingRestart, call.
    rewrite bind_run, rollingRestart_start_skipped by done. cbn [fst snd].
    rewrite bind_run, restart_idle_skipped by done. cbn [fst snd].
    rewrite bind_run. unfold rollingRestart_restarting. next.
    destruct (decide _) as [_|]; [|done].
    rewrite !bind_run, !inner_run. cbn [fst snd].
    rewrite bind_run, (isMissing_of_live _ ns o Hf Ho).
    rewrite bind_run. cbn [ret fst snd].
    rewrite bind_run, (partition_of_live _ (elapse 1 ns) p Hf').
    2:{ by exists o. }
    cbn [fst snd].
    rewrite (rollingRestart_fromOrdinal_gives_up p (elapse 1 (elapse 1 ns))).
    + reflexivity.
    + intros j Hj. rewrite !observedCount_elapse_1. by apply Hmiss.
Qed.

Lemma rejoin_timeout_ends_the_call_witness :
  UnderUpgrade restartingStatus = ConditionTrue
  ∧ UpgradePhase restartingStatus = NodeRestarting
  ∧ livePartition redNode 2
  ∧ getFault (env (world redNode)) (now (world redNode)) = None
  ∧ (∀ j, (j < 60)%nat → observedCount redNode (1 + j) < clusterSize (node redNode))
  ∧ update (R:=unit) (restartingStatus, redNode)
    = (Normal (Some (Errorf "Timed out waiting for %v to rejoin cluster" [VStr "es"])),
       (restartingStatus, elapse 61 redNode)).
Proof.
  assert (H1 : UnderUpgrade restartingStatus = ConditionTrue) by reflexivity.
  assert (H2 : UpgradePhase restartingStatus = NodeRestarting) by reflexivity.
  assert (H3 : livePartition redNode 2) by (by eexists).
  assert (H4 : getFault (env (world redNode)) (now (world redNode)) = None)
    by reflexivity.
  assert (H5 : ∀ j, (j < 60)%nat →
                 observedCount redNode (1 + j) < clusterSize (node redNode))
    by (intros j _; reflexivity).
  split; [exact H1|]. split; [exact H2|]. split; [exact H3|]. split; [exact H4|].
  split; [exact H5|].
  exact (proj1 (rejoin_timeout_ends_the_call unit restartingStatus redNode 2
                  H1 H2 H3 H4) H5).
Defined.

(** X18.  With nothing left to restart, the cycle completes without
    touching a pod.  When the upgrade is marked, the phase is
    [NodeRestarting] and the partition read is zero or less,
    [fullClusterRestart] does not enter its loop: it reads the partition,
    refreshes the two fingerprints of the handle, and leaves the phase at
    [ControllerUpdated] with [UnderUpgrade] cleared.  No pod is deleted,
    nothing is written, and the cluster is not asked for its node count. *)
Theorem fullClusterRestart_with_nothing_to_restart (R : Type) (u : UpgradeStatusT)
  (ns : NodeState) (p : Z) :
  UnderUpgrade u = ConditionTrue →
  UpgradePhase u = NodeRestarting →
  livePartition ns p →
  getFault (env (world ns)) (now (world ns)) = None →
  p ≤ 0 →
  fullClusterRestart (R:=R) (u, ns)
  = (Normal tt,
     (completed u,
      {| node := withSecretHash (secretDataHash (env (world ns)) (2 + now (world ns)))
                   (withConfigmapHash
                      (configmapDataHash (env (world ns)) (1 + now (world ns)))
                      (node ns));
         world := advanceBy 3 (world ns) |})).
Proof.
  intros Hmark Hphase Hlive Hf Hp. unfold fullClusterRestart, call.
  rewrite bind_run, fullClusterRestart_start_skipped by done. cbn [fst snd].
  rewrite bind_run, restart_idle_skipped by done. cbn [fst snd].
  rewrite bind_run. unfold fullClusterRestart_restarting. next.
  destruct (decide _) as [_|]; [|done].
  rewrite !bind_run, !inner_run. cbn [fst snd].
  rewrite bind_run, (partition_of_live _ ns p Hf Hlive). cbn [fst snd].
  unfold fullClusterRestart_fromOrdinal. rewrite bind_run, forDown_done by done.
  rewrite refreshHashes_run. cbn [fst snd]. rewrite modifyStatus_run. cbn [fst snd].
  rewrite recovering_run. destruct u as [f1 f2 uu ph]. simpl in *. subst. reflexivity.
Qed.

Lemma fullClusterRestart_with_nothing_to_restart_witness :
  UnderUpgrade restartingStatus = ConditionTrue
  ∧ UpgradePhase restartingStatus = NodeRestarting
  ∧ livePartition restartedNode 0
  ∧ getFault (env (world restartedNode)) (now (world restartedNode)) = None
  ∧ 0 ≤ 0
  ∧ fullClusterRestart (R:=unit) (restartingStatus, restartedNode)
    = (Normal tt,
       (completed restartingStatus,
        {| node := withSecretHash "secret-1" (withConfigmapHash "cm-1" (node restartedNode));
           world := advanceBy 3 (world restartedNode) |})).
Proof.
  assert (H1 : UnderUpgrade restartingStatus = ConditionTrue) by reflexivity.
  assert (H2 : UpgradePhase restartingStatus = NodeRestarting) by reflexivity.
  assert (H3 : livePartition restartedNode 0) by (by eexists).
  assert (H4 : getFault (env (world restartedNode)) (now (world restartedNode)) = None)
    by reflexivity.
  assert (H5 : 0 ≤ 0) by lia.
  split; [exact H1|]. split; [exact H2|]. split; [exact H3|]. split; [exact H4|].
  split; [exact H5|].
  exact (fullClusterRestart_with_nothing_to_restart unit restartingStatus restartedNode 0
           H1 H2 H3 H4 H5).
Defined.

(** ** Reporting and change detection *)

Lemma isChangedWith_result R compare ns :
  ∃ changed o1,
    isChangedWith (R:=R) compare ns
    = (Normal changed, {| node := withSelf o1 (node ns); world := advance (world ns) |})
    ∧ (changed = true →
       getFault (env (world ns)) (now (world ns)) = None
       ∧ is_Some (objects (world ns) !! keyOf (node ns))).
Proof.
  rewrite isChangedWith_run.
  destruct (clientGet _ _ _).1 as [o|e] eqn:Hget.
  - apply clientGet_found in Hget as [Hf Ho]. eexists _, _. split; [reflexivity|].
    intros _. split; [done|]. unfold keyOf. by rewrite Ho.
  - eexists _, _. split; [reflexivity|]. done.
Qed.

Lemma stateWith_run R compare ns changed o1 :
  isChangedWith (R:=NodeStatusT) compare ns
  = (Normal changed, {| node := withSelf o1 (node ns); world := advance (world ns) |}) →
  let current := secretDataHash (env (world ns)) (S (now (world ns))) in
  let held := secretHash (node ns) in
  stateWith (R:=R) compare ns
  = (Normal
       {| StatefulSetName := Name o1;
          UpgradeStatus :=
            {| ScheduledForUpgrade := if changed then ConditionTrue else ConditionEmpty;
               ScheduledForCertRedeploy :=
                 if decide (held = "") then ConditionEmpty
                 else if decide (current ≠ held) then ConditionTrue
                 else ConditionEmpty;
               UnderUpgrade := ConditionEmpty;
               UpgradePhase := PhaseEmpty |} |},
     {| node := if decide (held = "")
                then withSecretHash current (withSelf o1 (node ns))
                else withSelf o1 (node ns);
        world := advanceBy 2 (world ns) |}).
Proof.
  intros Hch current held. unfold stateWith, call. rewrite bind_run, Hch. cbn [fst snd].
  rewrite bind_run, extern_run. unfold getSecretDataHash.
  cbn [fst snd world node advance env now]. next.
  cbn [secretHash withSelf]. fold held. fold current.
  destruct (decide (held = "")) as [Hh|Hh].
  - do 2 next. reflexivity.
  - destruct (decide (current ≠ held)) as [Hd|Hd]; do 2 next; reflexivity.
Qed.

(** X19.  What [state] reports and what it does.  Whatever
    [UpdatePodTemplateSpec] computes, [state] makes two calls, the read of
    [isChanged] and one read of the secret fingerprint, and writes nothing.
    The status it returns is always outside any upgrade ([UnderUpgrade] and
    the phase empty).  A certificate redeploy is scheduled exactly when the
    handle holds a fingerprint and the current one differs; the handle then
    keeps the old fingerprint.  A handle without fingerprint adopts the
    current one and schedules nothing.  The configmap fingerprint is
    neither read nor changed.  An upgrade is scheduled only if the read of
    the object succeeded. *)
Theorem state_report (R : Type)
  (compare : string → PodTemplateSpec → PodTemplateSpec → bool * PodTemplateSpec)
  (ns : NodeState) :
  let current := secretDataHash (env (world ns)) (S (now (world ns))) in
  let held := secretHash (node ns) in
  ∃ st ns',
    stateWith (R:=R) compare ns = (Normal st, ns')
    ∧ world ns' = advanceBy 2 (world ns)
    ∧ UnderUpgrade (UpgradeStatus st) = ConditionEmpty
    ∧ UpgradePhase (UpgradeStatus st) = PhaseEmpty
    ∧ (ScheduledForCertRedeploy (UpgradeStatus st) = ConditionTrue
       ↔ held ≠ "" ∧ current ≠ held)
    ∧ secretHash (node ns') = (if decide (held = "") then current else held)
    ∧ configmapHash (node ns') = configmapHash (node ns)
    ∧ (ScheduledForUpgrade (UpgradeStatus st) = ConditionTrue →
       getFault (env (world ns)) (now (world ns)) = None
       ∧ is_Some (objects (world ns) !! keyOf (node ns))).
Proof.
  intros current held.
  destruct (isChangedWith_result NodeStatusT compare ns) as (changed & o1 & Hch & Hok).
  eexists _, _. split; [apply (stateWith_run R compare ns changed o1 Hch)|].
  cbn [world node UpgradeStatus UnderUpgrade UpgradePhase ScheduledForCertRedeploy
       ScheduledForUpgrade].
  fold held. fold current.
  split; [done|]. split; [done|]. split; [done|]. split; [|split; [|split]].
  - destruct (decide (held = "")); [split; [done|by intros [? _]]|].
    destruct (decide (current ≠ held)); [done|]. split; [done|by intros [_ ?]].
  - by destruct (decide (held = "")).
  - by destruct (decide (held = "")).
  - destruct changed; [intros _; by apply Hok|done].
Qed.

(** X20.  [refreshHashes] acknowledges the certificate.  It sets both
    fingerprints of the handle to the current ones, with two reads and no
    write.  A [state] that follows schedules a certificate redeploy exactly
    when the secret fingerprint read by [state] differs from the one read
    by [refreshHashes], that one not being empty. *)
Theorem refreshHashes_acknowledges (R : Type)
  (compare : string → PodTemplateSpec → PodTemplateSpec → bool * PodTemplateSpec)
  (ns : NodeState) :
  let refreshed := secretDataHash (env (world ns)) (1 + now (world ns)) in
  let current := secretDataHash (env (world ns)) (3 + now (world ns)) in
  let ns1 := (refreshHashes (R:=R) ns).2 in
  secretHash (node ns1) = refreshed
  ∧ configmapHash (node ns1) = configmapDataHash (env (world ns)) (now (world ns))
  ∧ self (node ns1) = self (node ns)
  ∧ world ns1 = advanceBy 2 (world ns)
  ∧ ∃ st ns2,
      stateWith (R:=R) compare ns1 = (Normal st, ns2)
      ∧ (ScheduledForCertRedeploy (UpgradeStatus st) = ConditionTrue
         ↔ refreshed ≠ "" ∧ current ≠ refreshed).
Proof.
  intros refreshed current ns1. subst ns1. rewrite refreshHashes_run. cbn [snd].
  split; [done|]. split; [done|]. split; [done|]. split; [done|].
  match goal with |- context [stateWith compare ?s] => set (ns1 := s) end.
  destruct (isChangedWith_result NodeStatusT compare ns1) as (changed & o1 & Hch & _).
  eexists _, _. split; [apply (stateWith_run R compare ns1 changed o1 Hch)|].
  change ((if decide (refreshed = "") then ConditionEmpty
           else if decide (current ≠ refreshed) then ConditionTrue else ConditionEmpty)
          = ConditionTrue ↔ refreshed ≠ "" ∧ current ≠ refreshed).
  destruct (decide (refreshed = "")); [split; [done|by intros [? _]]|].
  destruct (decide (current ≠ refreshed)); [done|]. split; [done|by intros [_ ?]].
Qed.

(** X21.  A failed read in [isChanged] leaves the handle without its
    spec.  The spec of the handle is blanked before the read; when the read
    fails, [isChanged] answers false and the handle keeps the blank spec:
    no replica count, no partition, an empty template.  A [scale] that
    follows and reads the object successfully panics on the missing replica
    count of the handle. *)
Theorem failed_change_check_blanks_the_handle (R : Type)
  (compare : string → PodTemplateSpec → PodTemplateSpec → bool * PodTemplateSpec)
  (ns : NodeState) (e : err) :
  (clientGet (Namespace (self (node ns))) (Name (self (node ns))) (world ns)).1 = inr e →
  let ns1 := {| node := withSelf (withBlankSpec (self (node ns))) (node ns);
                world := advance (world ns) |} in
  isChangedWith (R:=R) compare ns = (Normal false, ns1)
  ∧ Replicas (self (node ns1)) = None
  ∧ Partition (self (node ns1)) = None
  ∧ Template (self (node ns1)) = emptyTemplate
  ∧ ∀ o, getFault (env (world ns1)) (now (world ns1)) = None →
         objects (world ns1) !! keyOf (node ns1) = Some o →
         scale (R:=R) ns1
         = (Panic, {| node := withSelf o (node ns1); world := advance (world ns1) |}).
Proof.
  intros He ns1. split; [by rewrite isChangedWith_run, He|].
  split; [done|]. split; [done|]. split; [done|].
  intros o Hf Ho. unfold keyOf in Ho. unfold scale, call. next.
  rewrite bind_run, getIntoSelf_run, (clientGet_ok _ _ _ o Hf Ho). cbn [fst snd].
  next. reflexivity.
Qed.

Lemma failed_change_check_blanks_the_handle_witness :
  let ns1 := {| node := withSelf (withBlankSpec (self (node hiccupNode))) (node hiccupNode);
                world := advance (world hiccupNode) |} in
  (clientGet (Namespace (self (node hiccupNode))) (Name (self (node hiccupNode)))
     (world hiccupNode)).1
  = inr (ErrStatus InternalError "connection reset by peer")
  ∧ isChangedWith (R:=unit) UpdatePodTemplateSpec hiccupNode = (Normal false, ns1)
  ∧ scale (R:=unit) ns1
    = (Panic, {| node := withSelf (liveSet 0) (node ns1); world := advance (world ns1) |}).
Proof.
  intros ns1.
  assert (He : (clientGet (Namespace (self (node hiccupNode)))
                  (Name (self (node hiccupNode))) (world hiccupNode)).1
               = inr (ErrStatus InternalError "connection reset by peer"))
    by reflexivity.
  split; [exact He|].
  destruct (failed_change_check_blanks_the_handle unit UpdatePodTemplateSpec hiccupNode _ He)
    as (H1 & _ & _ & _ & H2).
  split; [exact H1|]. apply H2; [reflexivity|vm_compute; reflexivity].
Defined.

Lemma executeUpdate_attempt_unread ns e :
  (clientGet (Namespace (self (node ns))) (Name (self (node ns))) (world ns)).1 = inr e →
  executeUpdate_attempt ns
  = (Returned None, {| node := withSelf (withBlankSpec (self (node ns))) (node ns);
                       world := advance (world ns) |}).
Proof.
  intros He. unfold executeUpdate_attempt, isChanged.
  rewrite bind_run, isChangedWith_run, He. reflexivity.
Qed.

Lemma executeUpdate_unread R ns e :
  (clientGet (Namespace (self (node ns))) (Name (self (node ns))) (world ns)).1 = inr e →
  executeUpdate (R:=R) ns
  = (Normal None, {| node := withSelf (withBlankSpec (self (node ns))) (node ns);
                     world := advance (world ns) |}).
Proof.
  intros He. unfold executeUpdate, call. rewrite bind_run.
  by rewrite (RetryOnConflict_first_success executeUpdate_attempt 4 ns _
                (executeUpdate_attempt_unread ns e He)).
Qed.

(** X22.  A failed read is taken for "nothing to change".  When the read
    of the object fails, for whatever reason, [executeUpdate] returns nil
    after that single call: the failure is neither retried nor reported and
    nothing is written.  Hence the idle block of [update] moves the phase on
    to [NodeRestarting] although no update was pushed, and
    [progressUnshedulableNode] returns nil without deleting a pod. *)
Theorem failed_read_counts_as_unchanged (R : Type) (u : UpgradeStatusT)
  (ns : NodeState) (e : err) :
  (clientGet (Namespace (self (node ns))) (Name (self (node ns))) (world ns)).1 = inr e →
  let ns1 := {| node := withSelf (withBlankSpec (self (node ns))) (node ns);
                world := advance (world ns) |} in
  executeUpdate (R:=R) ns = (Normal None, ns1)
  ∧ (UpgradePhase u = PhaseEmpty ∨ UpgradePhase u = ControllerUpdated →
     update_idle (u, ns) = (Normal tt, (withUpgradePhase NodeRestarting u, ns1)))
  ∧ progressUnshedulableNode (R:=R) ns = (Normal None, ns1).
Proof.
  intros He ns1. split; [|split].
  - by apply (executeUpdate_unread R ns e).
  - intros Hphase. unfold update_idle. next.
    destruct (decide _) as [_|]; [|done].
    rewrite bind_run, inner_run, (executeUpdate_unread _ ns e He). reflexivity.
  - unfold progressUnshedulableNode, call, isChanged.
    rewrite !bind_run, isChangedWith_run, He. reflexivity.
Qed.

Lemma failed_read_counts_as_unchanged_witness :
  let ns1 := {| node := withSelf (withBlankSpec (self (node unreachableNode)))
                          (node unreachableNode);
                world := advance (world unreachableNode) |} in
  (clientGet (Namespace (self (node unreachableNode))) (Name (self (node unreachableNode)))
     (world unreachableNode)).1
  = inr (ErrStatus InternalError "connection refused")
  ∧ executeUpdate (R:=unit) unreachableNode = (Normal None, ns1)
  ∧ (UpgradePhase idleStatus = PhaseEmpty ∨ UpgradePhase idleStatus = ControllerUpdated →
     update_idle (idleStatus, unreachableNode)
     = (Normal tt, (withUpgradePhase NodeRestarting idleStatus, ns1)))
  ∧ progressUnshedulableNode (R:=unit) unreachableNode = (Normal None, ns1).
Proof.
  intros ns1.
  assert (He : (clientGet (Namespace (self (node unreachableNode)))
                  (Name (self (node unreachableNode))) (world unreachableNode)).1
               = inr (ErrStatus InternalError "connection refused")) by reflexivity.
  split; [exact He|].
  exact (failed_read_counts_as_unchanged unit idleStatus unreachableNode _ He).
Defined.

(** ** What an entry point can write *)

Section WritesOnly.
Context {S R : Type}.
Variable proj : S → World.
Variable allowed : Event → bool.

Lemma wo_ret {A} (a : A) : writesOnly (R:=R) proj allowed (ret a).
Proof. intros s. by apply grewBy_refl. Qed.

Lemma wo_returnWith {A} (r : R) : writesOnly (A:=A) proj allowed (returnWith r).
Proof. intros s. by apply grewBy_refl. Qed.

Lemma wo_deref {A} (p : option A) : writesOnly (R:=R) proj allowed (deref p).
Proof. intros s. destruct p; by apply grewBy_refl. Qed.

Lemma wo_bind {A B} (m : M S R A) (k : A → M S R B) :
  writesOnly proj allowed m → (∀ a, writesOnly proj allowed (k a)) →
  writesOnly proj allowed (bind m k).
Proof.
  intros Hm Hk s. rewrite bind_run. specialize (Hm s).
  destruct (m s) as [[a|r|] s']; simpl in *; [|done..].
  eapply grewBy_trans; [exact Hm|apply Hk].
Qed.

Lemma wo_forDown (body : Z → M S R unit) (fuel : nat) (index : Z) :
  (∀ i, writesOnly proj allowed (body i)) →
  writesOnly proj allowed (forDown fuel index body).
Proof.
  intros Hbody. revert index. induction fuel as [|fuel IH]; intros index; simpl.
  - destruct (decide _); apply wo_ret.
  - destruct (decide _); [|apply wo_ret].
    apply wo_bind; [apply Hbody|]. intros _. apply IH.
Qed.

Lemma wo_inner {L A} (m : M S R A) :
  writesOnly proj allowed m →
  writesOnly (λ ls : L * S, proj ls.2) allowed (inner m).
Proof.
  intros Hm [l s]. rewrite inner_run. specialize (Hm s). by destruct (m s).
Qed.

Lemma wo_getLocal {L} : writesOnly (R:=R) (λ ls : L * S, proj ls.2) allowed getLocal.
Proof. intros s. by apply grewBy_refl. Qed.

Lemma wo_setLocal {L} (l : L) :
  writesOnly (R:=R) (λ ls : L * S, proj ls.2) allowed (setLocal l).
Proof. intros s. by apply grewBy_refl. Qed.

Lemma wo_withLocal {L A} (init : L) (m : M (L * S) R A) :
  writesOnly (λ ls : L * S, proj ls.2) allowed m →
  writesOnly proj allowed (withLocal init m).
Proof.
  intros Hm s. unfold withLocal. specialize (Hm (init, s)).
  by destruct (m (init, s)) as [? [? ?]].
Qed.
End WritesOnly.

Lemma wo_call {S R A} (proj : S → World) allowed (body : M S A A) :
  writesOnly proj allowed body → writesOnly (R:=R) proj allowed (call body).
Proof.
  intros H s. specialize (H s). unfold call. by destruct (body s) as [[?|?|] ?].
Qed.

Lemma wo_waitFor {S R} (proj : S → World) allowed (n : nat)
  (condition : M S (bool * error) (bool * error)) :
  writesOnly proj allowed condition →
  writesOnly (R:=R) proj allowed (waitFor n condition).
Proof.
  intros Hc. induction n as [|n IH]; simpl; [apply wo_ret|].
  apply wo_bind; [by apply wo_call|]. intros [ok [e|]]; [apply wo_ret|].
  destruct ok; [apply wo_ret|apply IH].
Qed.

Lemma wo_modifyStatus {R} allowed f :
  writesOnly (R:=R) (λ s : ES, world s.2) allowed (modifyStatus f).
Proof. intros s. by apply grewBy_refl. Qed.

Lemma wo_getNode {R} allowed : writesOnly (R:=R) world allowed getNode.
Proof. intros s. by apply grewBy_refl. Qed.

Lemma wo_setNode {R} allowed f : writesOnly (R:=R) world allowed (setNode f).
Proof. intros s. by apply grewBy_refl. Qed.

Lemma wo_extern {R A} allowed (op : World → A * World) :
  (∀ w, grewBy (trace w) allowed (op w).2) →
  writesOnly (R:=R) world allowed (extern op).
Proof. intros H ns. rewrite extern_run. apply H. Qed.

(** The collaborators, one by one. *)
Lemma grew_clientGet allowed namespace name w :
  grewBy (trace w) allowed (clientGet namespace name w).2.
Proof. rewrite clientGet_world. by apply grewBy_refl. Qed.

Lemma grew_clientUpdate allowed o w :
  (∀ o', allowed (EvUpdate o') = true) →
  grewBy (trace w) allowed (clientUpdate o w).2.
Proof.
  intros Ha.
  destruct (clientUpdate_cases o w) as [(e & -> & _)|(cur & _ & _ & _ & ->)]; simpl.
  - by apply grewBy_refl.
  - eapply (grewBy_snoc _ _ w _ (EvUpdate _)); [by apply grewBy_refl|apply Ha|done].
Qed.

Lemma grew_DeletePod allowed podName namespace w :
  (∀ a b, allowed (EvDeletePod a b) = true) →
  grewBy (trace w) allowed (DeletePod podName namespace w).2.
Proof.
  intros Ha. unfold DeletePod. destruct (deletePodResult _ _); simpl.
  - by apply grewBy_refl.
  - eapply (grewBy_snoc _ _ w _ (EvDeletePod _ _)); [by apply grewBy_refl|apply Ha|done].
Qed.

Lemma grew_oracle allowed {A} (op : World → A * World) w :
  (op w).2 = advance w → grewBy (trace w) allowed (op w).2.
Proof. intros ->. by apply grewBy_refl. Qed.

(** Structural decomposition of a body down to the collaborators. *)
Ltac writes_only :=
  repeat first
    [ apply wo_ret | apply wo_returnWith | apply wo_deref
    | apply wo_getNode | apply wo_setNode | apply wo_getLocal | apply wo_setLocal
    | apply wo_modifyStatus
    | apply wo_call | apply wo_inner | apply wo_withLocal
    | apply (wo_inner world)
    | apply (wo_inner (λ ls : _ * NodeState, world ls.2))
    | apply (wo_getLocal (λ ls : _ * NodeState, world ls.2))
    | apply (wo_setLocal (λ ls : _ * NodeState, world ls.2))
    | apply wo_waitFor | apply wo_forDown; intros ?
    | apply wo_bind; [|intros ?]
    | apply wo_extern; intros ?;
      first [ apply grew_clientGet
            | apply grew_clientUpdate; first [assumption | intros; reflexivity]
            | apply grew_DeletePod; first [assumption | intros; reflexivity]
            | apply grew_oracle; reflexivity ]
    | match goal with
      | |- writesOnly _ _ (match ?x with _ => _ end) => destruct x
      | |- writesOnly _ _ (if ?x then _ else _) => destruct x
      end ].

Lemma wo_setPartition {R} allowed p :
  (∀ o, allowed (EvUpdate o) = true) →
  writesOnly (R:=R) world allowed (setPartition p).
Proof.
  intros Ha.
  unfold setPartition, setPartition_attempt, RetryOnConflict, ExponentialBackoff,
    retryCondition, getIntoSelf, updateSelf.
  writes_only.
Qed.


Lemma wo_executeUpdate {R} allowed :
  (∀ o, allowed (EvUpdate o) = true) →
  writesOnly (R:=R) world allowed executeUpdate.
Proof.
  intros Ha.
  unfold executeUpdate, executeUpdate_attempt, RetryOnConflict, ExponentialBackoff,
    retryCondition, isChanged, isChangedWith, getIntoSelf, updateSelf.
  writes_only.
Qed.

Lemma wo_reads {R} allowed :
  writesOnly (R:=R) world allowed partition
  ∧ writesOnly (R:=R) world allowed replicaCount
  ∧ writesOnly (R:=R) world allowed isMissing
  ∧ writesOnly (R:=R) world allowed refreshHashes
  ∧ writesOnly (R:=R) world allowed waitForNodeRejoinCluster
  ∧ writesOnly (R:=R) world allowed waitForNodeLeaveCluster.
Proof.
  unfold partition, replicaCount, isMissing, refreshHashes, getIntoFresh,
    waitForNodeRejoinCluster, waitForNodeLeaveCluster, Poll,
    rejoinCondition, leaveCondition.
  repeat split; writes_only.
Qed.

Lemma wo_update R : writesOnly (R:=R) (λ s : ES, world s.2) isUpdate update.
Proof.
  destruct (wo_reads (R:=error) isUpdate) as (Hp & Hr & _ & Hh & Hj & Hl).
  assert (Hset : ∀ p, writesOnly (R:=error) world isUpdate (setPartition p)).
  { intros p. by apply wo_setPartition. }
  assert (Hexec : writesOnly (R:=error) world isUpdate executeUpdate).
  { by apply wo_executeUpdate. }
  unfold update, update_start, update_idle, update_restarting, recovering,
    update_fromOrdinal, update_step.
  repeat first
    [ apply Hp | apply Hr | apply Hh | apply Hj | apply Hl | apply Hset | apply Hexec
    | progress writes_only ].
Qed.

Lemma wo_fullClusterRestart R :
  writesOnly (R:=R) (λ s : ES, world s.2) isUpdateOrDeletePod fullClusterRestart.
Proof.
  destruct (wo_reads (R:=unit) isUpdateOrDeletePod) as (Hp & Hr & _ & Hh & Hj & Hl).
  assert (Hset : ∀ p, writesOnly (R:=unit) world isUpdateOrDeletePod (setPartition p)).
  { intros p. by apply wo_setPartition. }
  unfold fullClusterRestart, fullClusterRestart_start, restart_idle,
    fullClusterRestart_restarting, recovering,
    fullClusterRestart_fromOrdinal, fullClusterRestart_step.
  repeat first
    [ apply Hp | apply Hr | apply Hh | apply Hj | apply Hl | apply Hset
    | progress writes_only ].
Qed.

(** X23.  What the entry points can write.  Whatever the status, the
    handle and the world, and however the call ends: [update] sends updates
    of the object and nothing else: it never deletes a pod, the pods being
    replaced by the StatefulSet controller as the partition goes down, and
    never creates an object; [fullClusterRestart] updates the object and
    deletes pods, and never creates an object. *)
Theorem what_the_entry_points_write (R : Type) (s : ES) :
  grewBy (trace (world s.2)) isUpdate (world (update (R:=R) s).2.2)
  ∧ grewBy (trace (world s.2)) isUpdateOrDeletePod
      (world (fullClusterRestart (R:=R) s).2.2).
Proof. split; [apply (wo_update R s)|apply (wo_fullClusterRestart R s)]. Qed.

(** X24.  [progressUnshedulableNode] deletes at most one pod, as its last
    action.  Whatever the handle and the world, what it writes is a run of
    updates of the object, those of [executeUpdate], possibly followed by
    one pod deletion.  When a pod is deleted the call returns nil, and the
    pod is the one whose ordinal is the partition of the stored object. *)
Theorem progressUnshedulableNode_deletes_one_pod (R : Type) (ns : NodeState) :
  let r := progressUnshedulableNode (R:=R) ns in
  ∃ ups dels,
    trace (world r.2) = (trace (world ns) ++ ups ++ dels)%list
    ∧ forallb isUpdate ups = true
    ∧ (dels = []
       ∨ ∃ p, dels = [EvDeletePod (Namespace (self (node r.2))) (podNameOf (node r.2) p)]
              ∧ livePartition r.2 p
              ∧ r.1 = Normal None).
Proof.
  intros r. subst r. unfold progressUnshedulableNode, call. rewrite bind_run.
  pose proof (wo_executeUpdate (R:=option err) isUpdate (λ _, eq_refl)) as Hexec.
  assert (Hch : writesOnly (R:=option err) world isUpdate isChanged).
  { unfold isChanged, isChangedWith, getIntoSelf. writes_only. }
  specialize (Hch ns). destruct (isChanged ns) as [[changed|?|] ns1]; simpl in Hch.
  2,3: destruct Hch as (ups & Ht & Hu); exists ups, []; rewrite app_nil_r; split; [done|split; [done|by left]].
  destruct changed.
  2:{ simpl. destruct Hch as (ups & Ht & Hu). exists ups, []. rewrite app_nil_r. split; [done|split; [done|by left]]. }
  rewrite !bind_run. specialize (Hexec ns1).
  pose proof (grewBy_trans _ _ _ _ Hch Hexec) as (ups & Ht & Hu).
  destruct (executeUpdate ns1) as [[[e|]|?|] ns2]; simpl in Ht |- *.
  1,3,4: exists ups, []; rewrite app_nil_r; split; [done|split; [done|by left]].
  rewrite bind_run, partition_run.
  destruct (clientGet _ _ _).1 as [o|e] eqn:Hget; simpl.
  2:{ exists ups, []. rewrite app_nil_r. split; [done|split; [done|by left]]. }
  apply clientGet_found in Hget as [Hf Ho].
  destruct (Partition o) as [p|] eqn:Hp; simpl.
  2:{ exists ups, []. rewrite app_nil_r. split; [done|split; [done|by left]]. }
  rewrite bind_run. cbn [getNode fst snd]. rewrite bind_run, extern_run.
  unfold DeletePod. cbn [world elapse advanceBy env now].
  destruct (deletePodResult _ _) as [e|]; simpl.
  { exists ups, []. rewrite app_nil_r. split; [done|split; [done|by left]]. }
  exists ups, [EvDeletePod (Namespace (self (node ns2))) (podNameOf (node ns2) p)].
  split; [by rewrite Ht, <- app_assoc|]. split; [done|]. right. exists p.
  split; [done|]. split; [|done]. exists o. done.
Qed.

(** ** The order in which pods are deleted *)

Local Open Scope list_scope.

Lemma podsDeleted_app evs evs' :
  podsDeleted (evs ++ evs') = podsDeleted evs ++ podsDeleted evs'.
Proof. unfold podsDeleted. apply omap_app. Qed.

Lemma podsDeleted_updates ups : forallb isUpdate ups = true → podsDeleted ups = [].
Proof.
  induction ups as [|ev ups IH]; [done|]. simpl. intros H.
  apply andb_true_iff in H as [Hev Hups]. destruct ev; try done. by apply IH.
Qed.

Lemma podNameOf_key n n' i : keyOf n = keyOf n' → podNameOf n i = podNameOf n' i.
Proof. unfold keyOf, podNameOf, name. by intros [= _ ->]. Qed.

Lemma deleting_elapse t0 n0 D k ns : deleting t0 n0 D ns → deleting t0 n0 D (elapse k ns).
Proof. intros (Hs & Hk & Hev). done. Qed.

Section Deleting.
Context {R : Type}.
Variable t0 : list Event.
Variable n0 : statefulSetNode.

Lemma del_waitForNodeRejoinCluster D :
  triple (deleting t0 n0 D) (waitForNodeRejoinCluster (R:=R))
    (λ _, deleting t0 n0 D) (λ _ _, False) (λ _, False).
Proof.
  intros ns H. unfold outcome.
  destruct (waitForNodeRejoinCluster_ends R ns) as [(i & _ & ->)| ->]; simpl;
    by apply deleting_elapse.
Qed.

Lemma del_waitForNodeLeaveCluster D :
  triple (deleting t0 n0 D) (waitForNodeLeaveCluster (R:=R))
    (λ _, deleting t0 n0 D) (λ _ _, False) (λ _, False).
Proof.
  intros ns H. unfold outcome.
  destruct (waitForNodeLeaveCluster_ends R ns) as [(i & _ & ->)| ->]; simpl;
    by apply deleting_elapse.
Qed.

Lemma del_setPartition D p :
  triple (deleting t0 n0 D) (setPartition (R:=R) p)
    (λ _, deleting t0 n0 D) (λ _ _, False) (deleting t0 n0 D).
Proof.
  intros ns (Hs & Hk & evs & Ht & Hd).
  pose proof (setPartition_keeps_the_rest R p (keyOf n0) (objects (world ns)) ns) as H1.
  pose proof (wo_setPartition (R:=R) isUpdate p (λ _, eq_refl) ns) as (ups & Ht' & Hu).
  unfold outcome in *. simpl in H1.
  assert (Hpre : storeOK (world ns) ∧ keyOf (node ns) = keyOf n0
                 ∧ changedOnlyAt (keyOf n0) sameButPartition
                     (objects (world ns)) (objects (world ns))).
  { split; [done|]. split; [done|]. apply changedOnlyAt_refl. by intros o. }
  specialize (H1 Hpre).
  assert (Hend : ∀ ns', storeOK (world ns') ∧ keyOf (node ns') = keyOf n0
                        ∧ changedOnlyAt (keyOf n0) sameButPartition
                            (objects (world ns)) (objects (world ns')) →
                   trace (world ns') = trace (world ns) ++ ups →
                   deleting t0 n0 D ns').
  { intros ns' (Hs' & Hk' & _) Ht''. split; [done|]. split; [done|].
    exists (evs ++ ups). rewrite Ht'', Ht, <- app_assoc. split; [done|].
    by rewrite podsDeleted_app, (podsDeleted_updates ups Hu), app_nil_r. }
  destruct (setPartition p ns) as [[?|?|] ns']; simpl in *; [|done|]; by apply Hend.
Qed.

Lemma del_getNode D :
  triple (deleting t0 n0 D) (getNode (R:=R))
    (λ _, deleting t0 n0 D) (λ _ _, False) (λ _, False).
Proof. by intros ns H. Qed.

Lemma del_DeletePod D i podName namespace :
  podName = podNameOf n0 i →
  triple (deleting t0 n0 D) (extern (R:=R) (DeletePod podName namespace))
    (λ err ns, match err with
               | None => deleting t0 n0 (D ++ [i]) ns
               | Some _ => deleting t0 n0 D ns
               end)
    (λ _ _, False) (λ _, False).
Proof.
  intros -> ns (Hs & Hk & evs & Ht & Hd). unfold outcome.
  rewrite extern_run. unfold DeletePod.
  destruct (deletePodResult _ _) as [e|]; simpl.
  - split; [done|]. split; [done|]. by exists evs.
  - split; [done|]. split; [done|].
    exists (evs ++ [EvDeletePod namespace (podNameOf n0 i)]).
    split; [simpl; by rewrite Ht, <- app_assoc|].
    by rewrite podsDeleted_app, Hd, fmap_app.
Qed.

Lemma deletingSome_none D todo ns : deleting t0 n0 D ns → deletingSome t0 n0 D todo ns.
Proof. intros H. exists []. rewrite app_nil_r. split; [apply prefix_nil|done]. Qed.

Lemma deletingSome_first D i todo ns :
  deleting t0 n0 (D ++ [i]) ns → deletingSome t0 n0 D (i :: todo) ns.
Proof.
  intros H. exists [i]. split; [|done]. apply (prefix_cons i [] todo), prefix_nil.
Qed.

Lemma deletingSome_later D i todo ns :
  deletingSome t0 n0 (D ++ [i]) todo ns → deletingSome t0 n0 D (i :: todo) ns.
Proof.
  intros (more & Hp & H). exists (i :: more). split; [by apply prefix_cons|].
  by rewrite <- app_assoc in H.
Qed.

(** The loop over a body that deletes the pod of each index it visits. *)
Lemma del_forDown (body : Z → M NodeState R unit) :
  (∀ D i, triple (deleting t0 n0 D) (body i)
            (λ _, deleting t0 n0 (D ++ [i - 1]))
            (λ _, deletingSome t0 n0 D [i - 1])
            (deletingSome t0 n0 D [i - 1])) →
  ∀ (fuel : nat) (index : Z) D,
    (Z.to_nat index ≤ fuel)%nat →
    triple (deleting t0 n0 D) (forDown fuel index body)
      (λ _, deleting t0 n0 (D ++ descending 0 index))
      (λ _, deletingSome t0 n0 D (descending 0 index))
      (deletingSome t0 n0 D (descending 0 index)).
Proof.
  intros Hbody. induction fuel as [|fuel IH]; intros index D Hfuel.
  - simpl. destruct (decide (index > 0)); [lia|].
    rewrite descending_nil by lia. apply triple_ret. intros ns H. by rewrite app_nil_r.
  - simpl. destruct (decide (index > 0)).
    + rewrite descending_cons by lia. replace (0 + index - 1) with (index - 1) by lia.
      eapply triple_bind.
      { eapply triple_weaken; [apply (Hbody D index)|done|done| |].
        - intros ? ns (more & Hp & H). exists more. split; [|done].
          etrans; [exact Hp|]. apply prefix_cons, prefix_nil.
        - intros ns (more & Hp & H). exists more. split; [|done].
          etrans; [exact Hp|]. apply prefix_cons, prefix_nil. }
      intros ?.
      eapply triple_weaken; [apply (IH (index - 1) (D ++ [index - 1])); lia|done| | |].
      * intros ? ns H. by rewrite <- app_assoc in H.
      * intros ? ns H. by apply deletingSome_later.
      * intros ns H. by apply deletingSome_later.
    + rewrite descending_nil by lia. apply triple_ret. intros ns H. by rewrite app_nil_r.
Qed.
End Deleting.

Lemma del_rollingRestart_step t0 n0 D i :
  triple (deleting t0 n0 D) (rollingRestart_step i)
    (λ _, deleting t0 n0 (D ++ [i - 1]))
    (λ _, deletingSome t0 n0 D [i - 1])
    (deletingSome t0 n0 D [i - 1]).
Proof.
  intros ns H. unfold rollingRestart_step. next.
  rewrite (podNameOf_key (node ns) n0 (i - 1)) by apply H.
  eapply (triple_use (deleting t0 n0 D)); [|exact H].
  eapply triple_bind.
  { eapply triple_weaken; [apply (del_waitForNodeRejoinCluster t0 n0 D)|done..]. }
  intros [[e|] ?].
  { apply triple_returnWith. intros ? ?. by apply deletingSome_none. }
  eapply triple_bind.
  { eapply triple_weaken; [apply (del_getNode t0 n0 D)|done..]. }
  intros n. eapply triple_bind.
  { eapply triple_weaken; [by apply (del_DeletePod t0 n0 D (i - 1))|done..]. }
  intros [e|].
  { apply triple_returnWith. intros ? ?. by apply deletingSome_none. }
  eapply triple_bind.
  { eapply triple_weaken; [apply (del_waitForNodeLeaveCluster t0 n0 (D ++ [i - 1]))|done..]. }
  intros [[e|] ?].
  { apply triple_returnWith. intros ? ?. by apply deletingSome_first. }
  eapply triple_bind.
  { eapply triple_weaken; [apply (del_setPartition t0 n0 (D ++ [i - 1]) (i - 1))|done|done|done|].
    intros ? ?. by apply deletingSome_first. }
  intros ?. by apply triple_ret.
Qed.

Lemma del_fullClusterRestart_step t0 n0 D i :
  triple (deleting t0 n0 D) (fullClusterRestart_step i)
    (λ _, deleting t0 n0 (D ++ [i - 1]))
    (λ _, deletingSome t0 n0 D [i - 1])
    (deletingSome t0 n0 D [i - 1]).
Proof.
  intros ns H. unfold fullClusterRestart_step. next.
  rewrite (podNameOf_key (node ns) n0 (i - 1)) by apply H.
  eapply (triple_use (deleting t0 n0 D)); [|exact H].
  eapply triple_bind.
  { eapply triple_weaken; [by apply (del_DeletePod t0 n0 D (i - 1))|done..]. }
  intros [e|].
  { apply triple_returnWith. intros ? ?. by apply deletingSome_none. }
  eapply triple_bind.
  { eapply triple_weaken; [apply (del_waitForNodeLeaveCluster t0 n0 (D ++ [i - 1]))|done..]. }
  intros [[e|] ?].
  { apply triple_returnWith. intros ? ?. by apply deletingSome_first. }
  eapply triple_bind.
  { eapply triple_weaken; [apply (del_setPartition t0 n0 (D ++ [i - 1]) (i - 1))|done|done|done|].
    intros ? ?. by apply deletingSome_first. }
  intros ?. by apply triple_ret.
Qed.


Lemma deleted_so_far (body : Z → M NodeState unit unit) (ordinal : Z) (ns : NodeState) :
  (∀ t0 n0 D i, triple (deleting t0 n0 D) (body i)
                  (λ _, deleting t0 n0 (D ++ [i - 1]))
                  (λ _, deletingSome t0 n0 D [i - 1])
                  (deletingSome t0 n0 D [i - 1])) →
  storeOK (world ns) →
  let r := forDown (Z.to_nat ordinal) ordinal body ns in
  ∃ evs, trace (world r.2) = trace (world ns) ++ evs
         ∧ podsDeleted evs `prefix_of` (podNameOf (node ns) <$> descending 0 ordinal)
         ∧ (r.1 = Normal tt →
            podsDeleted evs = podNameOf (node ns) <$> descending 0 ordinal).
Proof.
  intros Hbody Hstore r.
  pose proof (del_forDown (trace (world ns)) (node ns) body
                (Hbody (trace (world ns)) (node ns))
                (Z.to_nat ordinal) ordinal [] ltac:(lia) ns) as H.
  assert (Hstart : deleting (trace (world ns)) (node ns) [] ns).
  { split; [done|]. split; [done|]. exists []. by rewrite app_nil_r. }
  specialize (H Hstart). unfold outcome in H. fold r in H.
  assert (Hsome : deletingSome (trace (world ns)) (node ns) [] (descending 0 ordinal) r.2 →
            ∃ evs, trace (world r.2) = trace (world ns) ++ evs
                   ∧ podsDeleted evs `prefix_of` (podNameOf (node ns) <$> descending 0 ordinal)).
  { intros (more & [rest Hp] & _ & _ & evs & Ht & Hd). exists evs. split; [done|].
    simpl in Hd. rewrite Hd, Hp, fmap_app. by exists (podNameOf (node ns) <$> rest). }
  destruct r.1 as [[]|[]|] eqn:Hr.
  - destruct H as (_ & _ & evs & Ht & Hd). simpl in Hd. exists evs.
    split; [done|]. by rewrite Hd.
  - destruct (Hsome H) as (evs & Ht & Hp). exists evs. done.
  - destruct (Hsome H) as (evs & Ht & Hp). exists evs. done.
Qed.

(** X25.  Pods are deleted from the highest ordinal down, without gaps.
    On a store that keeps every object under its own name, the loops of
    [rollingRestart] and [fullClusterRestart], started at any ordinal,
    delete the pods [name-(ordinal-1)], [name-(ordinal-2)], ... in this
    order, each once: whatever the world answers and however the call ends,
    the pods deleted are a prefix of that list, and a loop that runs to its
    end has deleted all of them, down to [name-0]. *)
Theorem pods_are_deleted_in_descending_order (ordinal : Z) (ns : NodeState) :
  storeOK (world ns) →
  let expected := podNameOf (node ns) <$> descending 0 ordinal in
  (let r := forDown (Z.to_nat ordinal) ordinal rollingRestart_step ns in
   ∃ evs, trace (world r.2) = trace (world ns) ++ evs
          ∧ podsDeleted evs `prefix_of` expected
          ∧ (r.1 = Normal tt → podsDeleted evs = expected))
  ∧ (let r := forDown (Z.to_nat ordinal) ordinal fullClusterRestart_step ns in
     ∃ evs, trace (world r.2) = trace (world ns) ++ evs
            ∧ podsDeleted evs `prefix_of` expected
            ∧ (r.1 = Normal tt → podsDeleted evs = expected)).
Proof.
  intros Hstore expected. split.
  - apply deleted_so_far; [|done]. intros. apply del_rollingRestart_step.
  - apply deleted_so_far; [|done]. intros. apply del_fullClusterRestart_step.
Qed.

Lemma pods_are_deleted_in_descending_order_witness :
  let ns := restartingNode 5 in
  let r := forDown (Z.to_nat 2) 2 fullClusterRestart_step ns in
  storeOK (world ns)
  ∧ ∃ evs, trace (world r.2) = trace (world ns) ++ evs
           ∧ podsDeleted evs `prefix_of` (podNameOf (node ns) <$> descending 0 2)
           ∧ (r.1 = Normal tt → podsDeleted evs = podNameOf (node ns) <$> descending 0 2).
Proof.
  intros ns r.
  assert (Hs : storeOK (world ns)) by apply storeOK_worldWith.
  split; [exact Hs|].
  exact (proj2 (pods_are_deleted_in_descending_order 2 ns Hs)).
Defined.

(** ** One step of a loop, and the loop of [update] *)


Lemma waitForNodeRejoinCluster_at_once R ns :
  clusterSize (node ns) ≤ observedCount ns 0 →
  waitForNodeRejoinCluster (R:=R) ns = (Normal (None, true), elapse 1 ns).
Proof.
  intros H. apply waitForNodeRejoinCluster_of.
  apply (waitFor_hit _ (λ a b, bool_decide (a ≤ b)) rejoinCondition_run 60 0); [lia| |].
  - by apply bool_decide_eq_true.
  - intros j Hj. lia.
Qed.

Lemma waitForNodeLeaveCluster_at_once R ns :
  observedCount ns 0 < clusterSize (node ns) →
  waitForNodeLeaveCluster (R:=R) ns = (Normal (None, true), elapse 1 ns).
Proof.
  intros H. apply waitForNodeLeaveCluster_of.
  apply (waitFor_hit _ (λ a b, bool_decide (a > b)) leaveCondition_run 60 0); [lia| |].
  - apply bool_decide_eq_true. lia.
  - intros j Hj. lia.
Qed.

Lemma setPartition_writes R p ns o q :
  getFault (env (world ns)) (now (world ns)) = None →
  updateFault (env (world ns)) (S (now (world ns))) = None →
  objects (world ns) !! keyOf (node ns) = Some o →
  keyOf (node ns) = (Namespace o, Name o) →
  Partition o = Some q → q ≠ p →
  let o' := storedOver (world ns) o (withPartition (Some p) o) in
  setPartition (R:=R) p ns
  = (Normal None,
     {| node := withSelf o' (node ns);
        world := logEvent (EvUpdate o') (commit o' (advanceBy 2 (world ns))) |}).
Proof.
  intros Hf Hu Ho Hkey Hq Hne o'. rewrite setPartition_retried.
  eapply retried_first_success. rewrite setPartition_attempt_run.
  pose proof Ho as Ho'. unfold keyOf in Ho'.
  rewrite (clientGet_ok _ _ _ o Hf Ho'). simpl. rewrite Hq.
  destruct (decide (q = p)); [done|].
  rewrite (clientUpdate_ok (withPartition (Some p) o) o (advance (world ns)));
    [reflexivity|done| |done].
  simpl. by rewrite <- Hkey.
Qed.

(** X27.  One successful step of each loop, action by action.  The step
    of [rollingRestart] for [index] waits for the cluster to be complete,
    deletes the pod [name-(index-1)], waits for a node to leave, and only
    then lowers the stored partition to [index - 1]: five calls, and the
    trace grows by the deletion followed by the update.  The step of
    [update] deletes nothing: it waits for the cluster to be complete,
    lowers the partition, then waits for a node to leave. *)
Theorem one_step_of_each_loop (index : Z) (ns : NodeState) (o : StatefulSet) (q : Z) :
  storeOK (world ns) →
  objects (world ns) !! keyOf (node ns) = Some o →
  Partition o = Some q → q ≠ index - 1 →
  clusterSize (node ns) ≤ observedCount ns 0 →
  let o' := storedOver (world ns) o (withPartition (Some (index - 1)) o) in
  let w := world ns in
  (deletePodResult (env w) (1 + now w) = None →
   observedCount ns 2 < clusterSize (node ns) →
   getFault (env w) (3 + now w) = None →
   updateFault (env w) (4 + now w) = None →
   rollingRestart_step index ns
   = (Normal tt,
      {| node := withSelf o' (node ns);
         world := logEvent (EvUpdate o')
                    (commit o'
                       (logEvent (EvDeletePod (Namespace (self (node ns)))
                                    (podNameOf (node ns) (index - 1)))
                          (advanceBy 5 w))) |}))
  ∧ (getFault (env w) (1 + now w) = None →
     updateFault (env w) (2 + now w) = None →
     observedCount ns 3 < clusterSize (node ns) →
     update_step index ns
     = (Normal tt,
        {| node := withSelf o' (node ns);
           world := advanceBy 1 (logEvent (EvUpdate o') (commit o' (advanceBy 3 w))) |})).
Proof.
  intros Hstore Ho Hq Hne Hfull o' w.
  pose proof (Hstore _ _ Ho) as Hkey. split.
  - intros Hdel Hleft Hf Hu. unfold rollingRestart_step. next.
    rewrite bind_run, (waitForNodeRejoinCluster_at_once _ ns Hfull). cbn [fst snd].
    next. rewrite bind_run, extern_run. unfold DeletePod.
    cbn [world elapse advanceBy env now]. fold w. rewrite Hdel. cbn [fst snd].
    rewrite bind_run.
    match goal with |- context [waitForNodeLeaveCluster ?s] =>
      rewrite (waitForNodeLeaveCluster_at_once _ s) by exact Hleft
    end.
    cbn [fst snd]. rewrite bind_run.
    match goal with |- context [setPartition (index - 1) ?s] =>
      rewrite (setPartition_writes unit (index - 1) s o q)
    end; done.
  - intros Hf Hu Hleft. unfold update_step.
    rewrite bind_run, (waitForNodeRejoinCluster_at_once _ ns Hfull). cbn [fst snd].
    rewrite bind_run.
    rewrite (setPartition_writes (option err) (index - 1) (elapse 1 ns) o q); try done.
    cbn [fst snd]. rewrite bind_run.
    match goal with |- context [waitForNodeLeaveCluster ?s] =>
      rewrite (waitForNodeLeaveCluster_at_once _ s) by exact Hleft
    end.
    reflexivity.
Qed.

Lemma one_step_of_each_loop_witness :
  let ns := drainingNode in
  let o' := storedOver (world ns) (liveSet 2) (withPartition (Some 1) (liveSet 2)) in
  storeOK (world ns)
  ∧ objects (world ns) !! keyOf (node ns) = Some (liveSet 2)
  ∧ Partition (liveSet 2) = Some 2
  ∧ 2 ≠ 2 - 1
  ∧ clusterSize (node ns) ≤ observedCount ns 0
  ∧ deletePodResult (env (world ns)) (1 + now (world ns)) = None
  ∧ observedCount ns 2 < clusterSize (node ns)
  ∧ getFault (env (world ns)) (3 + now (world ns)) = None
  ∧ updateFault (env (world ns)) (4 + now (world ns)) = None
  ∧ rollingRestart_step 2 ns
    = (Normal tt,
       {| node := withSelf o' (node ns);
          world := logEvent (EvUpdate o')
                     (commit o'
                        (logEvent (EvDeletePod "logging" "es-1")
                           (advanceBy 5 (world ns)))) |}).
Proof.
  intros ns o'.
  assert (H1 : storeOK (world ns)) by apply storeOK_worldWith.
  assert (H2 : objects (world ns) !! keyOf (node ns) = Some (liveSet 2))
    by (vm_compute; reflexivity).
  assert (H3 : Partition (liveSet 2) = Some 2) by reflexivity.
  assert (H4 : 2 ≠ 2 - 1) by lia.
  assert (H5 : clusterSize (node ns) ≤ observedCount ns 0) by (vm_compute; discriminate).
  assert (H6 : deletePodResult (env (world ns)) (1 + now (world ns)) = None)
    by reflexivity.
  assert (H7 : observedCount ns 2 < clusterSize (node ns)) by reflexivity.
  assert (H8 : getFault (env (world ns)) (3 + now (world ns)) = None) by reflexivity.
  assert (H9 : updateFault (env (world ns)) (4 + now (world ns)) = None) by reflexivity.
  split; [exact H1|]. split; [exact H2|]. split; [exact H3|]. split; [exact H4|].
  split; [exact H5|]. split; [exact H6|]. split; [exact H7|]. split; [exact H8|].
  split; [exact H9|].
  exact (proj1 (one_step_of_each_loop 2 ns (liveSet 2) 2 H1 H2 H3 H4 H5) H6 H7 H8 H9).
Defined.

Lemma isMissing_of_absent R ns :
  getFault (env (world ns)) (now (world ns)) = None →
  objects (world ns) !! keyOf (node ns) = None →
  isMissing (R:=R) ns = (Normal true, elapse 1 ns).
Proof.
  intros Hf Ho. unfold isMissing, call. rewrite bind_run, getIntoFresh_run.
  unfold keyOf in Ho. by rewrite (clientGet_absent _ _ _ Hf Ho).
Qed.

Lemma create_run_fresh R ns :
  ResourceVersion (self (node ns)) = "" →
  createFault (env (world ns)) (now (world ns)) = None →
  objects (world ns) !! keyOf (node ns) = None →
  let o' := withResourceVersion (nextVersion (world ns)) (self (node ns)) in
  create (R:=R) ns
  = (Normal None,
     {| node := withSecretHash (secretDataHash (env (world ns)) (2 + now (world ns)))
                  (withConfigmapHash (configmapDataHash (env (world ns)) (1 + now (world ns)))
                     (withSelf o' (node ns)));
        world := advanceBy 2 (logEvent (EvCreate o') (commit o' (advance (world ns)))) |}).
Proof.
  intros Hv Hf Ho o'. unfold keyOf in Ho. unfold create, call. next.
  destruct (decide (ResourceVersion (self (node ns)) = "")); [|done].
  rewrite !bind_run, createSelf_run. unfold clientCreate. rewrite Hf, Ho.
  reflexivity.
Qed.

(** X28.  [rollingRestart] recreates a node group that is gone.  In
    [NodeRestarting], when the object is not stored and the handle was never
    persisted, the restarting block creates the object from the handle,
    seeds the two fingerprints, reads the partition back from the object
    just created, the one the handle carried, and runs its loop from
    there. *)
Theorem rollingRestart_recreates_a_missing_object (u : UpgradeStatusT) (ns : NodeState)
  (p : Z) :
  UpgradePhase u = NodeRestarting →
  ResourceVersion (self (node ns)) = "" →
  Partition (self (node ns)) = Some p →
  objects (world ns) !! keyOf (node ns) = None →
  getFault (env (world ns)) (now (world ns)) = None →
  createFault (env (world ns)) (1 + now (world ns)) = None →
  getFault (env (world ns)) (4 + now (world ns)) = None →
  let o' := withResourceVersion (nextVersion (world ns)) (self (node ns)) in
  let created :=
    {| node := withSecretHash (secretDataHash (env (world ns)) (3 + now (world ns)))
                 (withConfigmapHash (configmapDataHash (env (world ns)) (2 + now (world ns)))
                    (withSelf o' (node ns)));
       world := advanceBy 3 (logEvent (EvCreate o') (commit o' (advanceBy 2 (world ns)))) |} in
  objects (world created) !! keyOf (node ns) = Some o'
  ∧ rollingRestart_restarting (u, ns)
    = (inner (rollingRestart_fromOrdinal p);;
       modifyStatus (withUpgradePhase RecoveringData)) (u, created).
Proof.
  intros Hphase Hv Hp Ho Hf Hc Hf' o' created. split.
  { unfold created, keyOf. simpl. apply lookup_insert_eq. }
  unfold rollingRestart_restarting. next.
  destruct (decide _) as [_|]; [|done].
  rewrite !bind_run, !inner_run. cbn [fst snd].
  rewrite bind_run, (isMissing_of_absent _ ns Hf Ho).
  rewrite bind_run. cbn [fst snd]. rewrite bind_run.
  rewrite (create_run_fresh _ (elapse 1 ns)); [|done|done|done].
  cbn [fst snd ret]. rewrite bind_run, partition_run.
  match goal with |- context [clientGet ?a ?b ?w] =>
    rewrite (clientGet_ok a b w o')
  end.
  - cbn [fst snd]. simpl Partition. rewrite Hp. reflexivity.
  - exact Hf'.
  - simpl. apply lookup_insert_eq.
Qed.

Lemma rollingRestart_recreates_a_missing_object_witness :
  let o' := withResourceVersion "1" (self handle) in
  let created :=
    {| node := withSecretHash "secret-1" (withConfigmapHash "cm-1" (withSelf o' handle));
       world := advanceBy 3 (logEvent (EvCreate o')
                               (commit o' (advanceBy 2 (world freshNode)))) |} in
  UpgradePhase restartingStatus = NodeRestarting
  ∧ ResourceVersion (self (node freshNode)) = ""
  ∧ Partition (self (node freshNode)) = Some 0
  ∧ objects (world freshNode) !! keyOf (node freshNode) = None
  ∧ getFault (env (world freshNode)) (now (world freshNode)) = None
  ∧ createFault (env (world freshNode)) (1 + now (world freshNode)) = None
  ∧ getFault (env (world freshNode)) (4 + now (world freshNode)) = None
  ∧ objects (world created) !! keyOf (node freshNode) = Some o'
  ∧ rollingRestart_restarting (restartingStatus, freshNode)
    = (inner (rollingRestart_fromOrdinal 0);;
       modifyStatus (withUpgradePhase RecoveringData)) (restartingStatus, created).
Proof.
  intros o' created.
  assert (H1 : UpgradePhase restartingStatus = NodeRestarting) by reflexivity.
  assert (H2 : ResourceVersion (self (node freshNode)) = "") by reflexivity.
  assert (H3 : Partition (self (node freshNode)) = Some 0) by reflexivity.
  assert (H4 : objects (world freshNode) !! keyOf (node freshNode) = None) by reflexivity.
  assert (H5 : getFault (env (world freshNode)) (now (world freshNode)) = None)
    by reflexivity.
  assert (H6 : createFault (env (world freshNode)) (1 + now (world freshNode)) = None)
    by reflexivity.
  assert (H7 : getFault (env (world freshNode)) (4 + now (world freshNode)) = None)
    by reflexivity.
  split; [exact H1|]. split; [exact H2|]. split; [exact H3|]. split; [exact H4|].
  split; [exact H5|]. split; [exact H6|]. split; [exact H7|].
  exact (rollingRestart_recreates_a_missing_object restartingStatus freshNode 0
           H1 H2 H3 H4 H5 H6 H7).
Defined.

(** ** One step of a loop when the collaborators answer *)





Section Steps.
Variable index : Z.
Variable ns : NodeState.
Variable o : StatefulSet.
Variable q : Z.
Hypothesis Hstore : storeOK (world ns).
Hypothesis Ho : objects (world ns) !! keyOf (node ns) = Some o.
Hypothesis Hq : Partition o = Some q.
Hypothesis Hne : q ≠ index - 1.






End Steps.

(** ** The loops, step by step (C3, C6) *)















